(** * estnltk: span algebra, compound-token sweep, gaps and excerpts

    A shallow embedding of
    - [estnltk/taggers/text_segmentation/compound_token_tagger.py]
      (the sorted insertion, the covered-spans query, the token sweep,
      the second level of compounding),
    - [estnltk/layer_operations/splitting.py] ([excerpt], [split_by] and
      the layers kept by default),
    - [estnltk/storage/postgres/db.py] (the estimate of a query's length,
      the buffered insert into a layer table, the layers that a selection
      fetches),
    together with models of [resolve_conflicts] and of [GapTagger], whose
    code lives in modules of the package that are not part of the sources
    at hand.

    Python values are modelled as follows: [int] is [Z]; a [str] is a
    [string], one character per code point (the texts used here stay within
    Latin-1); a list or tuple is a [list]; a [dict] is a [gmap]; [None] is
    [None]; a raised exception is the left injection of a sum. *)

From Stdlib Require Import ZArith List String Ascii Bool Lia Sorted.
From stdpp Require Import gmap strings list sorting.
Import ListNotations.
Local Open Scope Z_scope.

(** ** Python strings *)

Module Py.

(** Exceptions raised by the modelled code. *)
Inductive exn : Type :=
| NotImplementedError (msg : string)
| UnboundLocalError (name : string)
| AttributeError (name : string)
| Exception (msg : string).

Definition result (A : Type) : Type := (exn + A)%type.

Definition ret {A} (x : A) : result A := inr x.
Definition raise {A} (e : exn) : result A := inl e.
Definition bind {A B} (m : result A) (k : A -> result B) : result B :=
  match m with
  | inl e => inl e
  | inr x => k x
  end.

(** Bound of a slice: negative indices count from the end, and both ends
    are clipped to the string, as [s[a:b]] does. *)
Definition slice_index (len i : Z) : Z :=
  if i <? 0 then Z.max 0 (len + i) else Z.min i len.

(** [s[a:b]] *)
Definition slice (s : string) (a b : Z) : string :=
  let len := Z.of_nat (String.length s) in
  let a' := slice_index len a in
  let b' := slice_index len b in
  substring (Z.to_nat a') (Z.to_nat (b' - a')) s.

(** [sep in s] for strings. *)
Fixpoint contains (sep s : string) : bool :=
  String.prefix sep s
  || match s with
     | EmptyString => false
     | String _ s' => contains sep s'
     end.

(** [x in xs] for a list or tuple of strings. *)
Definition str_in (x : string) (xs : list string) : bool :=
  existsb (String.eqb x) xs.

(** [xs[a:b]] for a list and [0 <= a <= b]; what lies beyond the end of
    the list is left out. *)
Definition list_slice {A} (xs : list A) (a b : nat) : list A :=
  take (b - a)%nat (drop a xs).

End Py.

(** ** Spans *)

(** Whatever has a start and an end can be ordered and inserted: plain
    spans and enveloping spans alike. *)
Class Interval (A : Type) : Type := {
  start : A -> Z;
  end_ : A -> Z
}.

(** Ascending order by [(start, end)]. *)
Definition span_le {A} `{Interval A} (a b : A) : Prop :=
  start a < start b \/ (start a = start b /\ end_ a <= end_ b).

Definition span_leb {A} `{Interval A} (a b : A) : bool :=
  (start a <? start b) || ((start a =? start b) && (end_ a <=? end_ b)).

Definition same_interval {A} `{Interval A} (a b : A) : Prop :=
  start a = start b /\ end_ a = end_ b.

Definition well_formed {A} `{Interval A} (a : A) : Prop :=
  start a <= end_ a.

(** Two intervals share no position. *)
Definition disjoint {A} `{Interval A} (a b : A) : Prop :=
  end_ a <= start b \/ end_ b <= start a.

(** ** compound_token_tagger.py *)

Module Tagger.

(** A token: an interval of the raw text. *)
Record Span : Type := mkSpan {
  span_start : Z;
  span_end : Z
}.

#[global] Instance Span_Interval : Interval Span :=
  {| start := span_start; end_ := span_end |}.

(** [span.text] *)
Definition text (raw_text : string) (sp : Span) : string :=
  Py.slice raw_text (span_start sp) (span_end sp).

(** An enveloping span with the two attributes of the output layer. *)
Record EnvelopingSpan : Type := mkEnvelopingSpan {
  spans : list Span;
  type : list string;
  normalized : option string
}.

(** Start of the first component and end of the last one (0 when there
    is no component, a case the tagger never builds). *)
#[global] Instance EnvelopingSpan_Interval : Interval EnvelopingSpan :=
  {| start := fun e => match spans e with
                       | [] => 0
                       | s :: _ => span_start s
                       end;
     end_ := fun e => match last (spans e) with
                      | None => 0
                      | Some s => span_end s
                      end |}.

(** *** _insert_span *)

(** The condition guarding both [spans.insert] and [spans.append]. *)
Definition may_insert (discard_duplicate is_duplicate : bool) : bool :=
  negb discard_duplicate || (discard_duplicate && negb is_duplicate).

(** The [while i < len(spans)] loop, on the spans from index [i] on;
    [is_duplicate] is the flag as it stands on entry. *)
Fixpoint insert_loop {A} `{Interval A} (span : A) (discard_duplicate : bool)
    (is_duplicate : bool) (spans : list A) : list A :=
  match spans with
  | [] =>
      if may_insert discard_duplicate is_duplicate then [span] else []
  | x :: rest =>
      let is_duplicate :=
        is_duplicate || ((start span =? start x) && (end_ span =? end_ x)) in
      if (end_ span <=? start x) && may_insert discard_duplicate is_duplicate
      then span :: x :: rest
      else x :: insert_loop span discard_duplicate is_duplicate rest
  end.

(** The list after the call (the source updates [spans] in place). *)
Definition _insert_span {A} `{Interval A} (span : A) (spans : list A)
    (discard_duplicate : bool) : list A :=
  insert_loop span discard_duplicate false spans.

(** *** _get_covered_tokens *)

Definition covers {A} `{Interval A} (range_start range_end : Z)
    (left_strict right_strict : bool) (span : A) : bool :=
  if negb left_strict && right_strict then
    (range_start <=? end_ span) && (end_ span <=? range_end)
  else if left_strict && negb right_strict then
    (range_start <=? start span) && (start span <=? range_end)
  else if left_strict && right_strict then
    (range_start <=? start span) && (end_ span <=? range_end)
  else false.

Definition _get_covered_tokens {A} `{Interval A} (range_start range_end : Z)
    (left_strict right_strict : bool) (spans : list A) : list A :=
  List.filter (covers range_start range_end left_strict right_strict) spans.

(** *** _remove_overlapped_spans *)

Definition _remove_overlapped_spans {A B} `{Interval A} `{Interval B}
    (compound_token_spans : list A) (regular_spans : list B) : list B :=
  List.filter
    (fun regular_span =>
       negb (existsb
               (fun compound_token_span =>
                  (start compound_token_span <=? start regular_span)
                  && (end_ regular_span <=? end_ compound_token_span))
               compound_token_spans))
    regular_spans.

(** *** The tagger's configuration ([self]) *)

(** [LETTERS] stands for the character class of the [MACROS] table and
    [MorphAnalyzedToken_normal] for the token normaliser (it gives [None]
    when the normal form is the token itself); both are defined in other
    modules of the package and are taken as given. *)
Record CompoundTokenTagger : Type := {
  custom_abbreviations : list string;
  do_not_join_on_strings : list string;
  tag_hyphenations : bool;
  ignored_words : list string;
  LETTERS : ascii -> bool;
  MorphAnalyzedToken_normal : string -> option string
}.

(** [_letter_pattern.search(s)]: some character of [s] is a letter. *)
Definition _letter_pattern_search (self : CompoundTokenTagger) (s : string)
    : bool :=
  existsb (LETTERS self) (list_ascii_of_string s).

(** The check made before a compound token is kept: one of the
    disallowed separators occurs in [raw_text[a:b]]. *)
Definition discard (self : CompoundTokenTagger) (raw_text : string) (a b : Z)
    : bool :=
  existsb (fun separator => Py.contains separator (Py.slice raw_text a b))
          (do_not_join_on_strings self).

(** *** Stage 1: the index of tokenization hints *)

(** A span of the hints layer made by the regular-expression tagger;
    an attribute the span does not have is [None]. *)
Record HintSpan : Type := mkHintSpan {
  hint_start : Z;
  hint_end : Z;
  pattern_type : option string;
  hint_normalized : option (option string)
}.

(** The dictionary stored under a start position. *)
Record end_node : Type := mkEndNode {
  node_end : Z;
  node_pattern_type : option string;
  node_normalized : option (option string)
}.

Definition is_negative (sp : HintSpan) : bool :=
  match pattern_type sp with
  | Some t => String.prefix "negative:" t
  | None => false
  end.

Fixpoint collect_hints (self : CompoundTokenTagger) (raw_text : string)
    (span_list : list HintSpan) (tokenization_hints : gmap Z end_node)
    : Py.result (gmap Z end_node) :=
  match span_list with
  | [] => Py.ret tokenization_hints
  | sp :: rest =>
      if is_negative sp then
        collect_hints self raw_text rest tokenization_hints
      else
        let node := mkEndNode (hint_end sp) (pattern_type sp)
                              (hint_normalized sp) in
        match tokenization_hints !! hint_start sp with
        | Some _ =>
            Py.raise (Py.Exception
                        "(!) Unexpected overlapping tokenization hints: ")
        | None =>
            if discard self raw_text (hint_start sp) (hint_end sp) then
              collect_hints self raw_text rest tokenization_hints
            else
              collect_hints self raw_text rest
                (<[hint_start sp := node]> tokenization_hints)
        end
  end.

(** *** Stage 2.1: custom abbreviations *)

(** The list [compound_tokens_lists] after the call. [token_id] is an
    index of the tokens layer at every call; outside the layer, where
    the source would fail on the first line, the list is left as it is. *)
Definition _try_to_add_custom_abbreviation (self : CompoundTokenTagger)
    (raw_text : string) (tokens : list Span) (token_id : nat)
    (compound_tokens_lists : list EnvelopingSpan) : list EnvelopingSpan :=
  match tokens !! token_id with
  | None => compound_tokens_lists
  | Some token_span =>
      let token := text raw_text token_span in
      if Py.str_in token (custom_abbreviations self) then
        let next_token :=
          if Z.of_nat token_id + 1 <? Z.of_nat (length tokens) - 1 then
            match tokens !! S token_id with
            | Some nxt => text raw_text nxt
            | None => EmptyString
            end
          else EmptyString in
        let spl :=
          if String.eqb next_token "." then
            mkEnvelopingSpan (Py.list_slice tokens token_id (token_id + 2))
              ["non_ending_abbreviation"%string]
              (Some (token ++ next_token)%string)
          else
            mkEnvelopingSpan (Py.list_slice tokens token_id (token_id + 1))
              ["non_ending_abbreviation"%string] None in
        if discard self raw_text (start spl) (end_ spl) then
          compound_tokens_lists
        else
          match last compound_tokens_lists with
          | None => compound_tokens_lists ++ [spl]
          | Some last_compound =>
              let last_type := type last_compound in
              if (start last_compound <? start spl)
                 && (end_ spl <? end_ last_compound) then
                compound_tokens_lists
              else if (end_ last_compound =? end_ spl)
                      && negb (Py.str_in "non_ending_abbreviation" last_type)
              then removelast compound_tokens_lists ++ [spl]
              else if (end_ last_compound =? end_ spl)
                      && Py.str_in "non_ending_abbreviation" last_type
              then compound_tokens_lists
              else compound_tokens_lists ++ [spl]
          end
      else compound_tokens_lists
  end.

(** *** Stage 2.2: tokenization hints *)

(** The [for j in range(i, len(tokens))] scan, on the tokens from index
    [j] on; the result is [end_token_index] when the loop is left. *)
Fixpoint scan_end_token (hint_end : Z) (tokens_from_j : list Span) (j : nat)
    (end_token_index : option nat) : option nat :=
  match tokens_from_j with
  | [] => end_token_index
  | tok :: rest =>
      if span_end tok =? hint_end then
        scan_end_token hint_end rest (S j) (Some j)
      else if hint_end <? span_start tok then end_token_index
      else scan_end_token hint_end rest (S j) end_token_index
  end.

(** Order of a tokens layer: both tokens are non-empty and the first
    ends no later than the second starts. *)
Definition precedes (a b : Span) : Prop :=
  span_start a < span_end a
  /\ span_end a <= span_start b
  /\ span_start b < span_end b.

(** Truth value of [end_token_index] in [if end_token_index:]: [None]
    and the index 0 both count as false. *)
Definition truthy_index (end_token_index : option nat) : option nat :=
  match end_token_index with
  | Some (S j) => Some (S j)
  | _ => None
  end.

(** The compound token built from a hint for the tokens [i..j]. *)
Definition hint_compound (tokens : list Span) (i j : nat) (node : end_node)
    : EnvelopingSpan :=
  mkEnvelopingSpan (Py.list_slice tokens i (j + 1))
    (match node_pattern_type node with
     | Some t => [t]
     | None => ["tokenization_hint"%string]
     end)
    (match node_normalized node with
     | Some n => n
     | None => None
     end).

Definition apply_tokenization_hint (self : CompoundTokenTagger)
    (tokens : list Span) (tokenization_hints : gmap Z end_node) (i : nat)
    (token_span : Span) (compound_tokens_lists : list EnvelopingSpan)
    : list EnvelopingSpan :=
  match tokenization_hints !! span_start token_span with
  | None => compound_tokens_lists
  | Some node =>
      match truthy_index
              (scan_end_token (node_end node) (drop i tokens) i None) with
      | None => compound_tokens_lists
      | Some end_token_index =>
          let spl := hint_compound tokens i end_token_index node in
          let add_compound_token :=
            match custom_abbreviations self, last compound_tokens_lists with
            | _ :: _, Some last_compound =>
                negb ((start last_compound <=? start spl)
                      && (start spl <? end_ last_compound))
            | _, _ => true
            end in
          if add_compound_token then compound_tokens_lists ++ [spl]
          else compound_tokens_lists
      end
  end.

(** *** Stage 2.3: hyphenation *)

(** The values taken by [hyphenation_status]: [None], ['-'], ['second']
    and ['end']. *)
Inductive hyphenation_status : Type :=
| status_None
| status_hyphen
| status_second
| status_end.

(** [last_end == token_span.start], where [last_end] starts as [None]. *)
Definition adjacent (last_end : option Z) (token_span : Span) : bool :=
  match last_end with
  | Some e => e =? span_start token_span
  | None => false
  end.

(** The [if / elif / elif] on [hyphenation_status] for token [i]: the new
    status and the new [hyphenation_start]. *)
Definition hyphenation_transition (raw_text : string)
    (status : hyphenation_status) (hyphenation_start : nat)
    (last_end : option Z) (i : nat) (token_span : Span)
    : hyphenation_status * nat :=
  match status with
  | status_None =>
      if adjacent last_end token_span
         && String.eqb (text raw_text token_span) "-"
      then (status_hyphen, hyphenation_start)
      else (status_None, i)
  | status_hyphen =>
      if adjacent last_end token_span
      then (status_second, hyphenation_start)
      else (status_end, hyphenation_start)
  | status_second =>
      if adjacent last_end token_span
         && String.eqb (text raw_text token_span) "-"
      then (status_hyphen, hyphenation_start)
      else (status_end, hyphenation_start)
  | status_end => (status_end, hyphenation_start)
  end.

Definition _normalize_word_with_hyphens (self : CompoundTokenTagger)
    (word_text : string) : option string :=
  if Py.str_in word_text (ignored_words self) then None
  else MorphAnalyzedToken_normal self word_text.

(** The local variables of the sweep. *)
Record sweep_state : Type := mkSweep {
  compound_tokens_lists : list EnvelopingSpan;
  hyphenation_status_ : hyphenation_status;
  hyphenation_start_ : nat;
  last_end_ : option Z
}.

(** What is done at the end of a run ([hyphenation_status == 'end'] and
    [hyphenation_start + 1 < i]). *)
Definition close_run (self : CompoundTokenTagger) (raw_text : string)
    (tokens : list Span) (hyphenation_start i : nat)
    (queue : list EnvelopingSpan) : list EnvelopingSpan :=
  let hyp_start :=
    match tokens !! hyphenation_start with
    | Some t => span_start t
    | None => 0
    end in
  let hyp_end :=
    match tokens !! (i - 1)%nat with
    | Some t => span_end t
    | None => 0
    end in
  let text_snippet := Py.slice raw_text hyp_start hyp_end in
  if _letter_pattern_search self text_snippet then
    queue ++ [mkEnvelopingSpan (Py.list_slice tokens hyphenation_start i)
                ["hyphenation"%string]
                (_normalize_word_with_hyphens self text_snippet)]
  else queue.

(** One turn of the [for i, token_span in enumerate(tokens)] loop. *)
Definition sweep_step (self : CompoundTokenTagger) (raw_text : string)
    (tokens : list Span) (tokenization_hints : gmap Z end_node)
    (st : sweep_state) (i : nat) (token_span : Span) : sweep_state :=
  let queue1 :=
    match custom_abbreviations self with
    | [] => compound_tokens_lists st
    | _ :: _ =>
        _try_to_add_custom_abbreviation self raw_text tokens i
          (compound_tokens_lists st)
    end in
  let queue2 :=
    apply_tokenization_hint self tokens tokenization_hints i token_span
      queue1 in
  if tag_hyphenations self then
    let '(status, hyphenation_start) :=
      hyphenation_transition raw_text (hyphenation_status_ st)
        (hyphenation_start_ st) (last_end_ st) i token_span in
    match status with
    | status_end =>
        if (hyphenation_start + 1 <? i)%nat then
          mkSweep (close_run self raw_text tokens hyphenation_start i queue2)
                  status_None i (Some (span_end token_span))
        else
          mkSweep queue2 status hyphenation_start (Some (span_end token_span))
    | _ =>
        mkSweep queue2 status hyphenation_start (Some (span_end token_span))
    end
  else
    mkSweep queue2 (hyphenation_status_ st) (hyphenation_start_ st)
            (Some (span_end token_span)).

(** The loop over the tokens from index [i] on. *)
Fixpoint sweep_from (self : CompoundTokenTagger) (raw_text : string)
    (tokens : list Span) (tokenization_hints : gmap Z end_node)
    (st : sweep_state) (i : nat) (tokens_from_i : list Span) : sweep_state :=
  match tokens_from_i with
  | [] => st
  | token_span :: rest =>
      sweep_from self raw_text tokens tokenization_hints
        (sweep_step self raw_text tokens tokenization_hints st i token_span)
        (S i) rest
  end.

(** Stages 1 and 2 of [_make_layer]: the candidates queued after the
    sweep over the tokens layer, given the spans of the hints layer. *)
Definition token_sweep (self : CompoundTokenTagger) (raw_text : string)
    (tokens : list Span) (hints_span_list : list HintSpan)
    : Py.result sweep_state :=
  Py.bind (collect_hints self raw_text hints_span_list ∅)
    (fun tokenization_hints =>
       Py.ret (sweep_from self raw_text tokens tokenization_hints
                 (mkSweep [] status_None 0%nat None) 0%nat tokens)).

(** *** Stage 3: the second level of compounding *)

(** What a call gives: a value, an [IndexError] (an index into an empty
    list or string), or no answer within the given number of turns of
    its loop. *)
Inductive outcome (A : Type) : Type :=
| Returns (x : A)
| Raises_IndexError
| Runs_on.

Arguments Returns {A} x.
Arguments Raises_IndexError {A}.
Arguments Runs_on {A}.

Definition and_then {A B} (m : outcome A) (k : A -> outcome B) : outcome B :=
  match m with
  | Returns x => k x
  | Raises_IndexError => Raises_IndexError
  | Runs_on => Runs_on
  end.

(** [s.startswith(prefix)] and [s.endswith(suffix)] *)
Definition startswith (s prefix : string) : bool := String.prefix prefix s.

Definition endswith (s suffix : string) : bool :=
  String.prefix (String.rev suffix) (String.rev s).

(** [s[1:]] *)
Definition tail_of (s : string) : string :=
  match s with
  | EmptyString => EmptyString
  | String _ s' => s'
  end.

(** The value of a string attribute when it counts as true: not [None]
    and not empty. *)
Definition truthy_str (o : option string) : option string :=
  match o with
  | Some s => if String.eqb s "" then None else Some s
  | None => None
  end.

(** [xs.remove(x)]: without the first [x]; the source calls it only
    when [x] is in the list. *)
Fixpoint remove_first (x : string) (xs : list string) : list string :=
  match xs with
  | [] => []
  | y :: rest => if String.eqb x y then rest else y :: remove_first x rest
  end.

(** A span of the hints layer of the second tagger. *)
Record BoundaryHint : Type := mkBoundaryHint {
  joining_start : Z;
  joining_end : Z;
  joining_pattern_type : option string;
  joining_normalized : option (option string);
  left_strict : bool;
  right_strict : bool
}.

(** Step 1 of [_create_new_spanlist]: the tokens of the compound tokens
    and the regular tokens, put in one by one without duplicates. *)
Definition gather_tokens (compound_token_spans : list EnvelopingSpan)
    (regular_spans : list Span) : list Span :=
  fold_left (fun all span => _insert_span span all true)
    (flat_map spans compound_token_spans ++ regular_spans) [].

(** Step 2: the normalizations of the compound tokens, by start. *)
Definition compound_normalizations
    (compound_token_spans : list EnvelopingSpan) : gmap Z (string * Z) :=
  fold_left
    (fun all c =>
       match truthy_str (normalized c) with
       | Some n => <[start c := (n, end_ c)]> all
       | None => all
       end)
    compound_token_spans ∅.

(** Steps 2 and 3: with the normalization of the joining span. *)
Definition all_normalizations_of (compound_token_spans : list EnvelopingSpan)
    (joining_span : BoundaryHint) : gmap Z (string * Z) :=
  match joining_normalized joining_span with
  | Some n =>
      match truthy_str n with
      | Some n =>
          <[joining_start joining_span := (n, joining_end joining_span)]>
            (compound_normalizations compound_token_spans)
      | None => compound_normalizations compound_token_spans
      end
  | None => compound_normalizations compound_token_spans
  end.

(** Step 2: the types, that of the joining span last. *)
Definition all_types_of (compound_token_spans : list EnvelopingSpan)
    (joining_span : BoundaryHint) : list string :=
  flat_map type compound_token_spans
  ++ match truthy_str (joining_pattern_type joining_span) with
     | Some t => [t]
     | None => []
     end.

(** The [while i < end_index] loop of step 3; [fuel] bounds the number
    of its turns. *)
Fixpoint stitch (fuel : nat) (raw_text : string)
    (all_normalizations : gmap Z (string * Z)) (end_index : Z) (i : Z)
    (normalized : list string) (last_was_single_symbol : bool)
    : outcome (list string) :=
  if i <? end_index then
    match fuel with
    | O => Runs_on
    | S fuel =>
        let merged :=
          match all_normalizations !! (i - 1), last normalized with
          | Some (norm, stop), Some last_norm =>
              if negb last_was_single_symbol
                 && endswith last_norm (Py.slice raw_text (i - 1) i)
                 && startswith norm (Py.slice raw_text (i - 1) i)
              then Some (tail_of norm, stop)
              else None
          | _, _ => None
          end in
        match merged with
        | Some (merged_norm, stop) =>
            stitch fuel raw_text all_normalizations end_index stop
              (normalized ++ [merged_norm]) false
        | None =>
            match all_normalizations !! i with
            | Some (norm, stop) =>
                stitch fuel raw_text all_normalizations end_index stop
                  (normalized ++ [norm]) false
            | None =>
                stitch fuel raw_text all_normalizations end_index (i + 1)
                  (normalized ++ [Py.slice raw_text i (i + 1)]) true
            end
        end
    end
  else Returns normalized.

(** [all_covered_tokens[0].start] and [all_covered_tokens[-1].end] *)
Definition covered_range (all_covered_tokens : list Span) : outcome (Z * Z) :=
  match all_covered_tokens, last all_covered_tokens with
  | first :: _, Some final => Returns (span_start first, span_end final)
  | _, _ => Raises_IndexError
  end.

(** Step 3: [normalized_str]. *)
Definition normalized_str_of (fuel : nat) (raw_text : string)
    (all_normalizations : gmap Z (string * Z))
    (all_covered_tokens : list Span) : outcome (option string) :=
  if decide (all_normalizations = ∅) then Returns None
  else
    and_then (covered_range all_covered_tokens)
      (fun '(start_index, end_index) =>
         and_then (stitch fuel raw_text all_normalizations end_index
                     start_index [] true)
           (fun normalized => Returns (Some (String.concat "" normalized)))).

(** The first repair of step 4. *)
Definition repair_case_ending (raw_text : string)
    (all_covered_tokens : list Span) (all_types : list string)
    : outcome (list string) :=
  if Py.str_in "non_ending_abbreviation" all_types
     && Py.str_in "case_ending" all_types
  then
    and_then (covered_range all_covered_tokens)
      (fun '(start_index, end_index) =>
         if endswith (Py.slice raw_text start_index end_index) "st"
         then Returns (remove_first "non_ending_abbreviation" all_types)
         else Returns all_types)
  else Returns all_types.

(** The second repair of step 4; [full_string[0]] fails on the empty
    string. *)
Definition repair_sign (self : CompoundTokenTagger) (raw_text : string)
    (all_covered_tokens : list Span) (all_types : list string)
    : outcome (list string) :=
  if Py.str_in "sign" all_types && Py.str_in "hyphenation" all_types
  then
    and_then (covered_range all_covered_tokens)
      (fun '(start_index, end_index) =>
         match Py.slice raw_text start_index end_index with
         | EmptyString => Raises_IndexError
         | String c _ =>
             if LETTERS self c then Returns (remove_first "sign" all_types)
             else Returns all_types
         end)
  else Returns all_types.

Definition _create_new_spanlist (fuel : nat) (self : CompoundTokenTagger)
    (raw_text : string) (compound_token_spans : list EnvelopingSpan)
    (regular_spans : list Span) (joining_span : BoundaryHint)
    : outcome EnvelopingSpan :=
  let all_covered_tokens :=
    gather_tokens compound_token_spans regular_spans in
  let all_types := all_types_of compound_token_spans joining_span in
  and_then
    (normalized_str_of fuel raw_text
       (all_normalizations_of compound_token_spans joining_span)
       all_covered_tokens)
    (fun normalized_str =>
       match all_types with
       | [] =>
           Returns (mkEnvelopingSpan all_covered_tokens
                      ["tokenization_hint"%string] normalized_str)
       | _ :: _ =>
           and_then (repair_case_ending raw_text all_covered_tokens
                       all_types)
             (fun all_types =>
                and_then (repair_sign self raw_text all_covered_tokens
                            all_types)
                  (fun all_types =>
                     Returns (mkEnvelopingSpan all_covered_tokens all_types
                                normalized_str)))
       end).

(** [spans[0].start if spans else default] and
    [spans[-1].end if spans else default] *)
Definition leftmost_of {A} `{Interval A} (spans : list A) (default : Z) : Z :=
  match spans with
  | [] => default
  | first :: _ => start first
  end.

Definition rightmost_of {A} `{Interval A} (spans : list A) (default : Z)
    : Z :=
  match last spans with
  | None => default
  | Some final => end_ final
  end.

(** One turn of the loop of [_apply_2nd_level_compounding]. *)
Definition join_by_hint (fuel : nat) (self : CompoundTokenTagger)
    (raw_text : string) (tokens : list Span) (sp : BoundaryHint)
    (compound_tokens_lists : list EnvelopingSpan)
    : outcome (list EnvelopingSpan) :=
  let covered_compound_tokens :=
    _get_covered_tokens (joining_start sp) (joining_end sp) (left_strict sp)
      (right_strict sp) compound_tokens_lists in
  let covered_tokens :=
    _remove_overlapped_spans covered_compound_tokens
      (_get_covered_tokens (joining_start sp) (joining_end sp)
         (left_strict sp) (right_strict sp) tokens) in
  let text_length := Z.of_nat (String.length raw_text) in
  let leftmost :=
    Z.min (leftmost_of covered_tokens text_length)
          (leftmost_of covered_compound_tokens text_length) in
  let rightmost :=
    Z.max (rightmost_of covered_tokens (-1))
          (rightmost_of covered_compound_tokens (-1)) in
  let constraints_satisfied :=
    negb (left_strict sp && negb (joining_start sp =? leftmost))
    && negb (right_strict sp && negb (joining_end sp =? rightmost)) in
  match covered_compound_tokens, covered_tokens with
  | [], [] => Returns compound_tokens_lists
  | _, _ =>
      if constraints_satisfied then
        and_then
          (_create_new_spanlist fuel self raw_text covered_compound_tokens
             covered_tokens sp)
          (fun spl =>
             if discard self raw_text (start spl) (end_ spl) then
               Returns compound_tokens_lists
             else
               Returns
                 (_insert_span spl
                    (_remove_overlapped_spans covered_compound_tokens
                       compound_tokens_lists)
                    false))
      else Returns compound_tokens_lists
  end.

(** The loop over the spans of the second hints layer. *)
Fixpoint _apply_2nd_level_compounding (fuel : nat)
    (self : CompoundTokenTagger) (raw_text : string) (tokens : list Span)
    (span_list : list BoundaryHint)
    (compound_tokens_lists : list EnvelopingSpan)
    : outcome (list EnvelopingSpan) :=
  match span_list with
  | [] => Returns compound_tokens_lists
  | sp :: rest =>
      and_then (join_by_hint fuel self raw_text tokens sp
                  compound_tokens_lists)
        (_apply_2nd_level_compounding fuel self raw_text tokens rest)
  end.

(** *** Words for the properties of stage 1 *)

(** The entry made for a hint. *)
Definition node_of (sp : HintSpan) : end_node :=
  mkEndNode (hint_end sp) (pattern_type sp) (hint_normalized sp).

(** A hint that is neither negative nor crossed by a separator. *)
Definition accepted (self : CompoundTokenTagger) (raw_text : string)
    (sp : HintSpan) : bool :=
  negb (is_negative sp)
  && negb (discard self raw_text (hint_start sp) (hint_end sp)).

(** *** Words for the properties of the sweep *)

(** What holds of the run before token [i] is looked at: an open run
    started far enough back, and no run is left in the state ['end']. *)
Definition run_inv (st : sweep_state) (i : nat) : Prop :=
  match hyphenation_status_ st with
  | status_None =>
      (i = 0%nat /\ last_end_ st = None)
      \/ (hyphenation_start_ st + 1 = i)%nat
  | status_hyphen => (hyphenation_start_ st + 2 <= i)%nat
  | status_second => (hyphenation_start_ st + 3 <= i)%nat
  | status_end => False
  end.

(** A compound made of the tokens [a..b-1], two at least, that stops
    before the last token of the layer. *)
Definition inner_run (tokens : list Span) (e : EnvelopingSpan) : Prop :=
  exists a b : nat,
    (a + 1 < b)%nat /\ (b < length tokens)%nat
    /\ spans e = Py.list_slice tokens a b
    /\ type e = ["hyphenation"%string].

End Tagger.

(** ** layer_operations/splitting.py *)

Module Splitting.

(** Modelled from the spec: the classes [Span], [SpanList], [Layer] and
    [Text] of [estnltk.text], which [splitting.py] imports, and of them
    only what [excerpt] touches.

    A span object has bounds and attribute values. [span_key] stands
    for the identity of the object: [map_spans] is a dictionary keyed by
    span objects, and a span made by [excerpt] is given the key of the
    span it is made from. [span_parent] is the key of [span.parent].
    [span_items] is what iterating over the span yields: the annotations
    of a span of an ambiguous layer, the component spans of a span of an
    enveloping layer, nothing for a plain span.

    [B] is what a bound is. In a text of the data model every span has
    an interval, a span list being non-empty with the start of its first
    component and the end of its last one: a bound is an integer. A text
    that [excerpt] builds may hold a span list without components, and
    such a span list has no interval: there a bound is an integer or
    [None]. *)
#[warnings="-register-all"]
Inductive span_of (B : Type) : Type := mkSpan {
  span_key : nat;
  span_start : B;
  span_end : B;
  span_attrs : gmap string string;
  span_parent : option nat;
  span_items : list (span_of B)
}.

Arguments mkSpan {B} _ _ _ _ _ _.
Arguments span_key {B} _.
Arguments span_start {B} _.
Arguments span_end {B} _.
Arguments span_attrs {B} _.
Arguments span_parent {B} _.
Arguments span_items {B} _.

Record layer_of (B : Type) : Type := mkLayer {
  name : string;
  attributes : list string;
  parent : option string;
  enveloping : option string;
  ambiguous : bool;
  _base : option string;
  spans : list (span_of B)
}.

Arguments mkLayer {B} _ _ _ _ _ _ _.
Arguments name {B} _.
Arguments attributes {B} _.
Arguments parent {B} _.
Arguments enveloping {B} _.
Arguments ambiguous {B} _.
Arguments _base {B} _.
Arguments spans {B} _.

(** A text with its layers, in the order of [list_layers()]. *)
Record text_of (B : Type) : Type := mkText {
  text : string;
  layers : list (layer_of B)
}.

Arguments mkText {B} _ _.
Arguments text {B} _.
Arguments layers {B} _.

(** What [excerpt] is given. *)
Abbreviation Span := (span_of Z).
Abbreviation Layer := (layer_of Z).
Abbreviation Text := (text_of Z).

(** What [excerpt] builds. *)
Abbreviation NewSpan := (span_of (option Z)).
Abbreviation NewLayer := (layer_of (option Z)).
Abbreviation NewText := (text_of (option Z)).

Definition list_layers {B} (t : text_of B) : list (layer_of B) := layers t.

(** Truth value of [layer.parent] and [layer.enveloping]: [None] and the
    empty string are false. *)
Definition truthy (o : option string) : bool :=
  match o with
  | Some s => negb (String.eqb s "")
  | None => false
  end.

(** [getattr(span, attr)] *)
Definition getattr {B} (span : span_of B) (attr : string)
    : Py.result string :=
  match span_attrs span !! attr with
  | Some v => Py.ret v
  | None => Py.raise (Py.AttributeError attr)
  end.

(** [setattr(span, attr, v)] *)
Definition setattr {B} (span : span_of B) (attr v : string) : span_of B :=
  mkSpan (span_key span) (span_start span) (span_end span)
         (<[attr := v]> (span_attrs span)) (span_parent span)
         (span_items span).

(** [for attr in attributes: setattr(new_span, attr, getattr(src, attr))] *)
Fixpoint copy_attributes {B C} (attrs : list string) (src : span_of B)
    (new_span : span_of C) : Py.result (span_of C) :=
  match attrs with
  | [] => Py.ret new_span
  | attr :: rest =>
      Py.bind (getattr src attr)
        (fun v => copy_attributes rest src (setattr new_span attr v))
  end.

(** The same loop where the source is the local variable [sp], which is
    unbound until some [for sp in span] has run: reading it then raises
    [UnboundLocalError]. *)
Definition copy_attributes_from_sp {B C} (attrs : list string)
    (sp : option (span_of B)) (new_span : span_of C)
    : Py.result (span_of C) :=
  match attrs with
  | [] => Py.ret new_span
  | _ :: _ =>
      match sp with
      | None => Py.raise (Py.UnboundLocalError "sp")
      | Some src => copy_attributes attrs src new_span
      end
  end.

(** The test on the bounds of a span: [None] stands for [continue],
    otherwise the values of [span_start] and [span_end] afterwards. *)
Definition window (trim_overlapping : bool) (start end_ : Z)
    (span_start span_end : Z) : option (Z * Z) :=
  if trim_overlapping then
    let span_start := Z.max span_start start in
    let span_end := Z.min span_end end_ in
    if span_start >=? span_end then None else Some (span_start, span_end)
  else if (span_start <? start) || (end_ <? span_end) then None
  else Some (span_start, span_end).

(** Modelled from the spec: [Layer.add_span], which puts the span at the
    end of the spans of the layer. *)
Definition add_span {B} (new_spans : list (span_of B))
    (new_span : span_of B) : list (span_of B) :=
  new_spans ++ [new_span].

(** Modelled from the spec: [Span.mark], the span of the attached layer
    that belongs to [span_parent]: same bounds, [span_parent] as its
    parent. [key] is the identity given to the new object. *)
Definition mark {B} (span_parent : span_of B) (key : nat) : span_of B :=
  mkSpan key (span_start span_parent) (span_end span_parent) ∅
         (Some (span_key span_parent)) [].

(** Modelled from the spec: a new [SpanList] with the given components;
    its start is the start of the first component and its end the end of
    the last one. Without a component it has neither. *)
Definition SpanList (key : nat) (components : list NewSpan) : NewSpan :=
  mkSpan key
         (match components with
          | [] => None
          | c :: _ => span_start c
          end)
         (match last components with
          | None => None
          | Some c => span_end c
          end)
         ∅ None components.

(** What [excerpt] carries from one layer to the next: the dictionary
    [map_spans], the local variable [sp] ([None] while unbound) and the
    layers put into [new_text] so far. *)
Record state : Type := mkState {
  map_spans : gmap nat NewSpan;
  sp : option Span;
  new_layers : list NewLayer
}.

(** [for sp in span], in the branch of an ambiguous layer with a parent;
    [span_parent.mark] has put the new span into the new layer before
    its attributes are set, on the same object. *)
Fixpoint annotation_loop (attrs : list string) (span_parent : NewSpan)
    (todo : list Span) (new_spans : list NewSpan)
    (map_spans : gmap nat NewSpan) (sp : option Span)
    : Py.result (list NewSpan * gmap nat NewSpan * option Span) :=
  match todo with
  | [] => Py.ret (new_spans, map_spans, sp)
  | sp' :: rest =>
      Py.bind (copy_attributes attrs sp' (mark span_parent (span_key sp')))
        (fun new_span =>
           annotation_loop attrs span_parent rest
             (add_span new_spans new_span)
             (<[span_key sp' := new_span]> map_spans) (Some sp'))
  end.

(** [for span in layer.spans], ambiguous layer with a parent. *)
Fixpoint attached_loop (attrs : list string) (todo : list Span)
    (new_spans : list NewSpan) (map_spans : gmap nat NewSpan)
    (sp : option Span)
    : Py.result (list NewSpan * gmap nat NewSpan * option Span) :=
  match todo with
  | [] => Py.ret (new_spans, map_spans, sp)
  | span :: rest =>
      match span_parent span ≫= (map_spans !!.) with
      | Some span_parent =>
          Py.bind (annotation_loop attrs span_parent (span_items span)
                     new_spans map_spans sp)
            (fun '(new_spans, map_spans, sp) =>
               attached_loop attrs rest new_spans map_spans sp)
      | None => attached_loop attrs rest new_spans map_spans sp
      end
  end.

(** [for s in span: ...], the components that have a new span. *)
Definition regroup (map_spans : gmap nat NewSpan) (components : list Span)
    : list NewSpan :=
  omap (fun s => map_spans !! span_key s) components.

(** [for span in layer.spans], unambiguous enveloping layer. *)
Fixpoint enveloping_loop (start end_ : Z) (trim_overlapping : bool)
    (attrs : list string) (sp : option Span) (todo : list Span)
    (new_spans : list NewSpan) (map_spans : gmap nat NewSpan)
    : Py.result (list NewSpan * gmap nat NewSpan) :=
  match todo with
  | [] => Py.ret (new_spans, map_spans)
  | span :: rest =>
      match window trim_overlapping start end_
              (span_start span) (span_end span) with
      | None =>
          enveloping_loop start end_ trim_overlapping attrs sp rest
            new_spans map_spans
      | Some _ =>
          Py.bind
            (copy_attributes_from_sp attrs sp
               (SpanList (span_key span)
                  (regroup map_spans (span_items span))))
            (fun new_span =>
               enveloping_loop start end_ trim_overlapping attrs sp rest
                 (add_span new_spans new_span)
                 (<[span_key span := new_span]> map_spans))
      end
  end.

(** [for span in layer.spans], unambiguous plain layer. *)
Fixpoint plain_loop (start end_ : Z) (trim_overlapping : bool)
    (attrs : list string) (todo : list Span) (new_spans : list NewSpan)
    (map_spans : gmap nat NewSpan)
    : Py.result (list NewSpan * gmap nat NewSpan) :=
  match todo with
  | [] => Py.ret (new_spans, map_spans)
  | span :: rest =>
      match window trim_overlapping start end_
              (span_start span) (span_end span) with
      | None =>
          plain_loop start end_ trim_overlapping attrs rest new_spans
            map_spans
      | Some (span_start, span_end) =>
          Py.bind
            (copy_attributes attrs span
               (mkSpan (span_key span) (Some (span_start - start))
                  (Some (span_end - start)) ∅ None []))
            (fun new_span =>
               plain_loop start end_ trim_overlapping attrs rest
                 (add_span new_spans new_span)
                 (<[span_key span := new_span]> map_spans))
      end
  end.

(** The new layer with the spans it has got in the end. *)
Definition new_layer (layer : Layer) (new_spans : list NewSpan)
    : NewLayer :=
  mkLayer (name layer) (attributes layer) (parent layer) (enveloping layer)
          (ambiguous layer) (_base layer) new_spans.

(** The body of [for layer in text.list_layers()] for a layer that is
    kept. *)
Definition excerpt_layer (start end_ : Z) (trim_overlapping : bool)
    (layer : Layer) (st : state) : Py.result state :=
  if truthy (parent layer) then
    if ambiguous layer then
      Py.bind (attached_loop (attributes layer) (spans layer) []
                 (map_spans st) (sp st))
        (fun '(new_spans, map_spans, sp) =>
           Py.ret (mkState map_spans sp
                     (new_layers st ++ [new_layer layer new_spans])))
    else
      Py.raise (Py.NotImplementedError
                  ("not ambiguous layer with parent: " ++ name layer))
  else if truthy (enveloping layer) then
    if ambiguous layer then
      Py.raise (Py.NotImplementedError
                  ("ambiguous enveloping layer: " ++ name layer))
    else
      Py.bind (enveloping_loop start end_ trim_overlapping
                 (attributes layer) (sp st) (spans layer) [] (map_spans st))
        (fun '(new_spans, map_spans) =>
           Py.ret (mkState map_spans (sp st)
                     (new_layers st ++ [new_layer layer new_spans])))
  else
    if ambiguous layer then
      Py.raise (Py.NotImplementedError ("ambiguous layer: " ++ name layer))
    else
      Py.bind (plain_loop start end_ trim_overlapping (attributes layer)
                 (spans layer) [] (map_spans st))
        (fun '(new_spans, map_spans) =>
           Py.ret (mkState map_spans (sp st)
                     (new_layers st ++ [new_layer layer new_spans]))).

(** [layers_to_keep is None or layer_name in layers_to_keep] *)
Definition kept {B} (layers_to_keep : option (list string))
    (layer : layer_of B) : bool :=
  match layers_to_keep with
  | None => true
  | Some names => Py.str_in (name layer) names
  end.

(** [for layer in text.list_layers()] *)
Fixpoint excerpt_layers (start end_ : Z)
    (layers_to_keep : option (list string)) (trim_overlapping : bool)
    (todo : list Layer) (st : state) : Py.result state :=
  match todo with
  | [] => Py.ret st
  | layer :: rest =>
      if kept layers_to_keep layer then
        Py.bind (excerpt_layer start end_ trim_overlapping layer st)
          (excerpt_layers start end_ layers_to_keep trim_overlapping rest)
      else
        excerpt_layers start end_ layers_to_keep trim_overlapping rest st
  end.

Definition excerpt (text_ : Text) (start end_ : Z)
    (layers_to_keep : option (list string)) (trim_overlapping : bool)
    : Py.result NewText :=
  Py.bind (excerpt_layers start end_ layers_to_keep trim_overlapping
             (list_layers text_) (mkState ∅ None []))
    (fun st => Py.ret (mkText (Py.slice (text text_) start end_)
                              (new_layers st))).

(** *** The branch of an ambiguous attached layer, in closed form *)

(** The span given back for the annotation [sp'] of a span whose parent
    has the new span [span_parent]: the interval of [span_parent], and
    of the values of [sp'] those of the declared attributes. *)
Definition reemitted (attrs : list string) (span_parent : NewSpan)
    (sp' : Span) : NewSpan :=
  mkSpan (span_key sp') (span_start span_parent) (span_end span_parent)
         (filter (fun kv => kv.1 ∈ attrs) (span_attrs sp'))
         (Some (span_key span_parent)) [].


(** Every annotation has a value for every declared attribute. *)
Definition annotations_complete (layer : Layer) : Prop :=
  Forall (fun span =>
            Forall (fun sp' =>
                      Forall (fun attr => is_Some (span_attrs sp' !! attr))
                             (attributes layer))
                   (span_items span))
         (spans layer).



(** *** layers_to_keep_default and split_by *)

(** What stops [split_by]: an exception of [excerpt], a layer name that
    the text does not have, or a node that the graph does not have. *)
Inductive split_error : Type :=
| ExcerptError (e : Py.exn)
| KeyError (layer_name : string)
| NetworkXError (node : string).

(** The edges added to the graph for one layer: to the enveloped layer,
    or else to the parent and back. *)
Definition layer_edges (layer_object : Layer) : list (string * string) :=
  if truthy (enveloping layer_object) then
    match enveloping layer_object with
    | Some enveloped => [(name layer_object, enveloped)]
    | None => []
    end
  else if truthy (parent layer_object) then
    match parent layer_object with
    | Some p => [(name layer_object, p); (p, name layer_object)]
    | None => []
    end
  else [].

Definition graph_edges (text_ : Text) : list (string * string) :=
  flat_map layer_edges (layers text_).

(** The nodes one edge away from a node of [nodes]. *)
Definition successors (edges : list (string * string)) (nodes : gset string)
    : gset string :=
  list_to_set
    (map snd (List.filter (fun e => bool_decide (e.1 ∈ nodes)) edges)).

Fixpoint reach (n : nat) (edges : list (string * string))
    (nodes : gset string) : gset string :=
  match n with
  | O => nodes
  | S n => reach n edges (nodes ∪ successors edges nodes)
  end.

(** Taken from the documentation of networkx: [nx.descendants(G, source)]
    is the set of the nodes that can be reached from [source], without
    [source], and fails when [source] is not a node of the graph. After
    as many rounds as there are edges nothing new is reached. *)
Definition descendants (edges : list (string * string)) (source : string)
    : split_error + gset string :=
  if bool_decide (source ∈ map fst edges ++ map snd edges) then
    inr (reach (length edges) edges {[ source ]} ∖ {[ source ]})
  else inl (NetworkXError source).

Definition layers_to_keep_default (text_ : Text) (layer : string)
    : split_error + gset string :=
  match descendants (graph_edges text_) layer with
  | inl e => inl e
  | inr nodes => inr (nodes ∪ {[ layer ]})
  end.

(** [text[layer_name]] *)
Definition get_layer (text_ : Text) (layer_name : string) : option Layer :=
  List.find (fun l => String.eqb (name l) layer_name) (layers text_).

(** The loop of [split_by] over the bounds of the spans. *)
Fixpoint split_loop (text_ : Text) (layers_to_keep : list string)
    (bounds : list (Z * Z)) : split_error + list NewText :=
  match bounds with
  | [] => inr []
  | (a, b) :: rest =>
      match excerpt text_ a b (Some layers_to_keep) false with
      | inl e => inl (ExcerptError e)
      | inr excerpt_text =>
          match split_loop text_ layers_to_keep rest with
          | inl e => inl e
          | inr result => inr (excerpt_text :: result)
          end
      end
  end.

(** [layers_to_keep] is a tuple of names, or [None] for the default,
    a set, whose members are taken in the order of [elements]. *)
Definition split_by (text_ : Text) (layer_name : string)
    (layers_to_keep : option (list string))
    : split_error + list NewText :=
  match
    match layers_to_keep with
    | Some names => inr names
    | None =>
        match layers_to_keep_default text_ layer_name with
        | inl e => inl e
        | inr nodes => inr (elements nodes)
        end
    end
  with
  | inl e => inl e
  | inr names =>
      match get_layer text_ layer_name with
      | None => inl (KeyError layer_name)
      | Some layer =>
          split_loop text_ names
            (map (fun element => (span_start element, span_end element))
                 (spans layer))
      end
  end.

Definition split_by_sentences (text_ : Text)
    : split_error + list NewText :=
  split_by text_ "sentences" None.

(** *** Words for the properties of excerpts *)

(** What a layer is apart from its spans. *)
Definition shape {B} (layer : layer_of B)
    : string * list string * option string * option string * bool
      * option string :=
  (name layer, attributes layer, parent layer, enveloping layer,
   ambiguous layer, _base layer).



(** Every span has a value for every attribute of the list. *)
Definition spans_complete (attrs : list string) (spans : list Span) : Prop :=
  Forall (fun span =>
            Forall (fun attr => is_Some (span_attrs span !! attr)) attrs)
         spans.

(** The layers that [excerpt] takes: an ambiguous attached layer, an
    unambiguous enveloping layer without attributes, an unambiguous
    plain layer; the attribute values it copies are there. *)
Definition supported (layer : Layer) : Prop :=
  if truthy (parent layer) then
    ambiguous layer = true /\ annotations_complete layer
  else if truthy (enveloping layer) then
    ambiguous layer = false /\ attributes layer = []
  else
    ambiguous layer = false
    /\ spans_complete (attributes layer) (spans layer).



End Splitting.

(** ** Conflict resolution *)

Module ConflictResolver.

(** Modelled from the spec: [resolve_conflicts] of
    [estnltk.layer_operations], which the tagger imports and whose code
    is not among the sources. Among overlapping spans the survivors are
    chosen by length, the longer one under [MAX] and the shorter one
    under [MIN]; when the lengths are equal the smaller value of the
    priority attribute wins, if one is given; of two overlapping spans
    that still tie, both stay when [keep_equal] is set, and only the one
    met first otherwise. *)

Record Span : Type := mkSpan {
  span_start : Z;
  span_end : Z;
  span_attrs : gmap string Z
}.

#[global] Instance Span_Interval : Interval Span :=
  {| start := span_start; end_ := span_end |}.

Record Layer : Type := mkLayer {
  name : string;
  ambiguous : bool;
  spans : list Span
}.

Inductive strategy : Type := MAX | MIN.

Definition overlaps (a b : Span) : bool :=
  (span_start a <? span_end b) && (span_start b <? span_end a).

Definition span_length (a : Span) : Z := span_end a - span_start a.

(** The value of the priority attribute, when there is one. *)
Definition priority (priority_attribute : option string) (a : Span)
    : option Z :=
  priority_attribute ≫= (span_attrs a !!.).

(** [a] is chosen over [b]. *)
Definition preferred (conflict_resolving_strategy : strategy)
    (priority_attribute : option string) (a b : Span) : bool :=
  match span_length a ?= span_length b with
  | Gt => match conflict_resolving_strategy with
          | MAX => true
          | MIN => false
          end
  | Lt => match conflict_resolving_strategy with
          | MAX => false
          | MIN => true
          end
  | Eq => match priority priority_attribute a,
                priority priority_attribute b with
          | Some p, Some q => p <? q
          | _, _ => false
          end
  end.

(** Neither is chosen over the other. *)
Definition tie (conflict_resolving_strategy : strategy)
    (priority_attribute : option string) (a b : Span) : bool :=
  negb (preferred conflict_resolving_strategy priority_attribute a b)
  && negb (preferred conflict_resolving_strategy priority_attribute b a).

(** [span] gives way to [other], which overlaps it; [met_before] tells
    whether [other] comes before [span] in the layer. *)
Definition gives_way (conflict_resolving_strategy : strategy)
    (priority_attribute : option string) (keep_equal : bool)
    (met_before : bool) (span other : Span) : bool :=
  overlaps other span
  && (preferred conflict_resolving_strategy priority_attribute other span
      || (met_before && negb keep_equal
          && tie conflict_resolving_strategy priority_attribute other span)).

(** The survivors among [todo], given the spans [seen] that come before
    them in the layer. *)
Fixpoint survivors (conflict_resolving_strategy : strategy)
    (priority_attribute : option string) (keep_equal : bool)
    (seen todo : list Span) : list Span :=
  match todo with
  | [] => []
  | span :: rest =>
      let rest' :=
        survivors conflict_resolving_strategy priority_attribute keep_equal
          (seen ++ [span]) rest in
      if existsb (gives_way conflict_resolving_strategy priority_attribute
                    keep_equal true span) seen
         || existsb (gives_way conflict_resolving_strategy
                       priority_attribute keep_equal false span) rest
      then rest'
      else span :: rest'
  end.

Definition resolve_conflicts (layer : Layer)
    (conflict_resolving_strategy : strategy)
    (priority_attribute : option string) (keep_equal : bool) : Layer :=
  mkLayer (name layer) (ambiguous layer)
    (survivors conflict_resolving_strategy priority_attribute keep_equal []
       (spans layer)).

End ConflictResolver.

(** ** Gaps *)

Module GapTagger.

(** Modelled from the spec: [GapTagger] of [estnltk.taggers], of which
    the sources hold the test only. The spans of the input layers are
    merged into one list sorted by [(start, end)]; the walk starts at 0
    and gives, before each covered span and after the last one, the
    interval that is left uncovered, when it is not empty. With [trim],
    a gap is narrowed to where the trimmed text lies in it and dropped
    when nothing is left; with [decorator], the gap carries the
    attributes computed from its text. *)

Record Span : Type := mkSpan {
  span_start : Z;
  span_end : Z;
  span_attrs : gmap string Z
}.

#[global] Instance Span_Interval : Interval Span :=
  {| start := span_start; end_ := span_end |}.

Fixpoint insert_sorted (span : Span) (sorted : list Span) : list Span :=
  match sorted with
  | [] => [span]
  | x :: rest =>
      if span_leb span x then span :: x :: rest
      else x :: insert_sorted span rest
  end.

Definition merge_layers (input_layers : list (list Span)) : list Span :=
  fold_right insert_sorted [] (concat input_layers).

(** The uncovered intervals from [cursor] on. *)
Fixpoint find_gaps (cursor : Z) (covered : list Span) (text_length : Z)
    : list (Z * Z) :=
  match covered with
  | [] => if cursor <? text_length then [(cursor, text_length)] else []
  | span :: rest =>
      (if cursor <? span_start span then [(cursor, span_start span)]
       else [])
      ++ find_gaps (Z.max cursor (span_end span)) rest text_length
  end.

(** [s.find(sub)], counted from [i]. *)
Fixpoint find (sub s : string) (i : Z) : option Z :=
  if String.prefix sub s then Some i
  else match s with
       | EmptyString => None
       | String _ s' => find sub s' (i + 1)
       end.

(** The bounds of a gap after trimming; [None] when nothing is left. *)
Definition trim_gap (trim : option (string -> string)) (raw_text : string)
    (gap : Z * Z) : option (Z * Z) :=
  match trim with
  | None => Some gap
  | Some f =>
      let t := f (Py.slice raw_text gap.1 gap.2) in
      match find t (Py.slice raw_text gap.1 gap.2) gap.1 with
      | Some a =>
          let b := a + Z.of_nat (String.length t) in
          if a <? b then Some (a, b) else None
      | None => None
      end
  end.

Definition decorate (decorator : option (string -> gmap string Z))
    (raw_text : string) (gap : Z * Z) : Span :=
  mkSpan gap.1 gap.2
    (match decorator with
     | Some f => f (Py.slice raw_text gap.1 gap.2)
     | None => ∅
     end).

(** The spans of the output layer. *)
Definition make_layer (raw_text : string) (input_layers : list (list Span))
    (trim : option (string -> string))
    (decorator : option (string -> gmap string Z)) : list Span :=
  map (decorate decorator raw_text)
    (omap (trim_gap trim raw_text)
       (find_gaps 0 (merge_layers input_layers)
          (Z.of_nat (String.length raw_text)))).

End GapTagger.

(** ** storage/postgres/db.py *)

Module Postgres.

(** The pieces psycopg2 composes a query of.  A [Literal] is kept by the
    text that [str] gives for the value it wraps. *)
#[warnings="-register-all"]
Inductive Composable : Type :=
| SQL (string_ : string)
| Identifier (string_ : string)
| Literal (wrapped : string)
| Composed (seq : list Composable).

Definition DEFAULT : Composable := SQL "DEFAULT".

(** [joiner.join(seq)]: the elements of [seq] with [joiner] between
    them. *)
Definition join (joiner : Composable) (seq : list Composable) : Composable :=
  Composed
    match seq with
    | [] => []
    | first :: rest => first :: flat_map (fun i => [joiner; i]) rest
    end.

Fixpoint get_query_length (q : Composable) : Z :=
  match q with
  | Composed seq =>
      (fix total (result : Z) (seq : list Composable) {struct seq} : Z :=
         match seq with
         | [] => result
         | r :: seq' => total (result + get_query_length r) seq'
         end) 0 seq
  | SQL string_ | Identifier string_ => Z.of_nat (String.length string_)
  | Literal wrapped => Z.of_nat (String.length wrapped)
  end.

(** *** buffered_layer_insert *)

(** [SQL('({})').format(SQL(', ').join(values))] *)
Definition row_of (values : list Composable) : Composable :=
  Composed [SQL "("; join (SQL ", ") values; SQL ")"].

(** [SQL('INSERT INTO {} ({}) VALUES {} RETURNING id;').format(...)] *)
Definition insert_query (table_identifier column_identifiers : Composable)
    (buffer : list Composable) : Composable :=
  Composed [SQL "INSERT INTO "; table_identifier; SQL " (";
            column_identifiers; SQL ") VALUES "; join (SQL ", ") buffer;
            SQL " RETURNING id;"].

(** The rows waiting, the running estimate kept on the collection, and
    the statements the cursor has executed so far, oldest first. *)
Record insert_state : Type := mkInsert {
  buffer : list Composable;
  _buffered_insert_query_length : Z;
  executed : list Composable
}.

Definition _flush_layer_insert_buffer
    (table_identifier column_identifiers : Composable)
    (st : insert_state) : insert_state :=
  if (length (buffer st) =? 0)%nat then st
  else
    mkInsert []
      (get_query_length column_identifiers)
      (executed st
         ++ [insert_query table_identifier column_identifiers (buffer st)]).

(** The function that [buffered_layer_insert] yields. *)
Definition buffered_insert (table_identifier column_identifiers : Composable)
    (buffer_size query_length_limit : Z) (st : insert_state)
    (values : list Composable) : insert_state :=
  let q := row_of values in
  let st :=
    mkInsert (buffer st ++ [q])
      (_buffered_insert_query_length st + get_query_length q)
      (executed st) in
  if (buffer_size <=? Z.of_nat (length (buffer st)))
     || (query_length_limit <=? _buffered_insert_query_length st)
  then _flush_layer_insert_buffer table_identifier column_identifiers st
  else st.

Definition column_identifiers_of (columns : list string) : Composable :=
  join (SQL ", ") (map Identifier columns).

(** The context manager around a body that calls the yielded function
    once for each element of [body], in that order; the database takes
    every statement. *)
Definition buffered_layer_insert (table_identifier : Composable)
    (columns : list string) (buffer_size query_length_limit : Z)
    (body : list (list Composable)) : insert_state :=
  let column_identifiers := column_identifiers_of columns in
  let st :=
    fold_left
      (buffered_insert table_identifier column_identifiers
         buffer_size query_length_limit)
      body
      (mkInsert [] (get_query_length column_identifiers) []) in
  _flush_layer_insert_buffer table_identifier column_identifiers st.

(** *** select: the layers to fetch *)

(** One entry of [self._structure]. *)
Record layer_struct : Type := mkStruct {
  detached : bool;
  attributes : list string;
  ambiguous : bool;
  parent : option string;
  enveloping : option string;
  _base : option string;
  meta : option (list string)
}.

(** What stops [select] before it queries: a requested layer that the
    collection does not have, a dependency that the structure does not
    list, a structure that is [None], or too deep a recursion. *)
Inductive select_error : Type :=
| PgCollectionException (layer : string)
| KeyError (layer : string)
| TypeError
| RecursionError.

(** [include_dep(layer)] with room for [depth] nested calls. *)
Fixpoint include_dep (depth : nat) (_structure : gmap string layer_struct)
    (layer : option string) (layers_extended : list string)
    : select_error + list string :=
  match depth with
  | O => inl RecursionError
  | S depth =>
      match layer with
      | None => inr layers_extended
      | Some layer =>
          match _structure !! layer with
          | None => inl (KeyError layer)
          | Some struct =>
              if negb (detached struct) then inr layers_extended
              else
                match include_dep depth _structure (parent struct)
                        layers_extended with
                | inl e => inl e
                | inr layers_extended =>
                    match include_dep depth _structure (enveloping struct)
                            layers_extended with
                    | inl e => inl e
                    | inr layers_extended =>
                        inr (if bool_decide (layer ∈ layers_extended)
                             then layers_extended
                             else layers_extended ++ [layer])
                    end
                end
          end
      end
  end.

(** The loop over the requested layers. *)
Fixpoint include_layers (depth : nat) (_structure : gmap string layer_struct)
    (layers : list string) (layers_extended : list string)
    : select_error + list string :=
  match layers with
  | [] => inr layers_extended
  | layer :: layers =>
      match _structure !! layer with
      | None => inl (PgCollectionException layer)
      | Some _ =>
          match include_dep depth _structure (Some layer) layers_extended with
          | inl e => inl e
          | inr layers_extended =>
              include_layers depth _structure layers layers_extended
          end
      end
  end.

(** The value of [layers_extended] when [select] reaches its query. *)
Definition layers_extended (depth : nat)
    (_structure : option (gmap string layer_struct))
    (layers : option (list string)) : select_error + list string :=
  match layers with
  | None | Some [] => inr []
  | Some layers =>
      match _structure with
      | None => inl TypeError
      | Some _structure => include_layers depth _structure layers []
      end
  end.

(** *** Words for the properties of storage *)

Definition total_length (seq : list Composable) : Z :=
  fold_right (fun r n => get_query_length r + n) 0 seq.

(** The detached layers that a layer's entry names. *)
Definition dependency (_structure : gmap string layer_struct)
    (layer dep : string) : Prop :=
  exists struct dep_struct,
    _structure !! layer = Some struct
    /\ (parent struct = Some dep \/ enveloping struct = Some dep)
    /\ _structure !! dep = Some dep_struct
    /\ detached dep_struct = true.

Definition is_detached (_structure : gmap string layer_struct)
    (layer : string) : Prop :=
  exists struct, _structure !! layer = Some struct /\ detached struct = true.

(** A batch of rows keeps to the bounds of the buffer: at most
    [buffer_size] rows (one row at least goes through), and the estimate
    stays under the limit until the last row comes in. *)
Definition within_limits (column_identifiers : Composable)
    (buffer_size query_length_limit : Z) (batch : list Composable) : Prop :=
  Z.of_nat (length batch) <= Z.max 1 buffer_size
  /\ ((2 <= length batch)%nat ->
      get_query_length column_identifiers + total_length (removelast batch)
      < query_length_limit).

(** What holds between two calls of the yielded function, after the rows
    of [done] have come in and the statements for [batches] have gone
    out. *)
Definition between_calls (table_identifier column_identifiers : Composable)
    (buffer_size query_length_limit : Z) (st : insert_state)
    (batches : list (list Composable)) (done : list (list Composable))
    : Prop :=
  executed st
  = map (insert_query table_identifier column_identifiers) batches
  /\ concat batches ++ buffer st = map row_of done
  /\ Forall (fun batch => batch <> []) batches
  /\ Forall (within_limits column_identifiers buffer_size query_length_limit)
       batches
  /\ _buffered_insert_query_length st
     = get_query_length column_identifiers + total_length (buffer st)
  /\ (buffer st <> [] ->
      Z.of_nat (length (buffer st)) < buffer_size
      /\ _buffered_insert_query_length st < query_length_limit)
  /\ ((2 <= length (buffer st))%nat ->
      get_query_length column_identifiers
      + total_length (removelast (buffer st))
      < query_length_limit).

(** Every dependency of a listed layer is listed before it. *)
Definition dependencies_first (_structure : gmap string layer_struct)
    (layers : list string) : Prop :=
  forall i layer dep,
    layers !! i = Some layer ->
    dependency _structure layer dep ->
    exists j, (j < i)%nat /\ layers !! j = Some dep.

(** No layer twice, detached layers only, dependencies first. *)
Definition listed_well (_structure : gmap string layer_struct)
    (layers : list string) : Prop :=
  NoDup layers
  /\ Forall (is_detached _structure) layers
  /\ dependencies_first _structure layers.

(** A dependency named by an entry is in the structure and, when
    detached, of lower rank than the layer itself. *)
Definition dependency_ranked (rank : string -> nat)
    (_structure : gmap string layer_struct) (layer : string)
    (dep : option string) : bool :=
  match dep with
  | None => true
  | Some dep =>
      match _structure !! dep with
      | None => false
      | Some dep_struct =>
          negb (detached dep_struct) || (rank dep <? rank layer)%nat
      end
  end.

Definition ranked (rank : string -> nat)
    (_structure : gmap string layer_struct) : Prop :=
  map_Forall
    (fun layer struct =>
       detached struct = true ->
       dependency_ranked rank _structure layer (parent struct) = true
       /\ dependency_ranked rank _structure layer (enveloping struct) = true)
    _structure.

(** A layer is in the structure and within reach of the recursion: one
    call for a layer that is not detached, two calls more than its rank
    for one that is. *)
Definition within_depth (rank : string -> nat)
    (_structure : gmap string layer_struct) (depth : nat) (layer : string)
    : bool :=
  match _structure !! layer with
  | None => false
  | Some struct =>
      if detached struct then (rank layer + 2 <=? depth)%nat
      else (1 <=? depth)%nat
  end.

End Postgres.

(** ** Sample configurations and inputs *)

Module Samples.

Import Tagger.

Definition newline : ascii := ascii_of_nat 10.

(** The default of [do_not_join_on_strings]: one blank line. *)
Definition paragraph_break : string :=
  String newline (String newline EmptyString).

Definition is_ascii_letter (c : ascii) : bool :=
  let n := nat_of_ascii c in
  ((65 <=? n) && (n <=? 90) || (97 <=? n) && (n <=? 122))%nat.

(** A tagger with the given custom abbreviations, the default separators,
    hyphenation switched on, no ignored words and a normaliser that leaves
    every token as it is. *)
Definition tagger (abbreviations : list string) : CompoundTokenTagger :=
  {| custom_abbreviations := abbreviations;
     do_not_join_on_strings := [paragraph_break];
     tag_hyphenations := true;
     ignored_words := [];
     LETTERS := is_ascii_letter;
     MorphAnalyzedToken_normal := fun _ => None |}.

(** A document: the text ["ab cd"] with a plain layer of two tokens, an
    ambiguous layer attached to the tokens that gives two readings of the
    first token and one of the second, and an enveloping layer with one
    sentence over both tokens. *)
Definition token (key : nat) (a b : Z) : Splitting.Span :=
  Splitting.mkSpan key a b ∅ None [].

Definition reading (key : nat) (a b : Z) (lemma : string) : Splitting.Span :=
  Splitting.mkSpan key a b {[ "lemma"%string := lemma ]} None [].

Definition tokens_layer : Splitting.Layer :=
  Splitting.mkLayer "tokens" [] None None false None
    [token 1 0 2; token 2 3 5].

Definition morph_layer (ambiguous : bool) : Splitting.Layer :=
  Splitting.mkLayer "morph" ["lemma"%string] (Some "tokens"%string) None
    ambiguous None
    [Splitting.mkSpan 11 0 2 ∅ (Some 1%nat)
       [reading 12 0 2 "ab"; reading 13 0 2 "a"];
     Splitting.mkSpan 14 3 5 ∅ (Some 2%nat) [reading 15 3 5 "cd"]].

Definition sentences_layer (attrs : list string) : Splitting.Layer :=
  Splitting.mkLayer "sentences" attrs None (Some "tokens"%string) false None
    [Splitting.mkSpan 21 0 5 {[ "kind"%string := "plain"%string ]} None
       [token 1 0 2; token 2 3 5]].

Definition readings_layer : Splitting.Layer :=
  Splitting.mkLayer "readings" ["lemma"%string] None None true None
    [Splitting.mkSpan 31 0 2 ∅ None
       [reading 32 0 2 "ab"; reading 33 0 2 "a"]].

Definition document (layers : list Splitting.Layer) : Splitting.Text :=
  Splitting.mkText "ab cd" layers.

(** A token as [excerpt] builds it. *)
Definition new_token (key : nat) (a b : Z) : Splitting.NewSpan :=
  Splitting.mkSpan key (Some a) (Some b) ∅ None [].


(** ["5-st"]: the tokens, the custom abbreviation [st] that the sweep
    has queued, and a hint of the second level for the case ending. *)
Definition ending_tokens : list Tagger.Span :=
  [Tagger.mkSpan 0 1; Tagger.mkSpan 1 2; Tagger.mkSpan 2 4].

Definition ending_queue : list Tagger.EnvelopingSpan :=
  [Tagger.mkEnvelopingSpan [Tagger.mkSpan 2 4]
     ["non_ending_abbreviation"%string] None].

Definition ending_hint : Tagger.BoundaryHint :=
  Tagger.mkBoundaryHint 0 4 (Some "case_ending"%string) None true true.

(** ["abc"]: the tokens, a compound over the last two of them, and a
    hint of the second level over the first two. *)
Definition overlap_tokens : list Tagger.Span :=
  [Tagger.mkSpan 0 1; Tagger.mkSpan 1 2; Tagger.mkSpan 2 3].

Definition overlap_queue : list Tagger.EnvelopingSpan :=
  [Tagger.mkEnvelopingSpan [Tagger.mkSpan 1 2; Tagger.mkSpan 2 3]
     ["hyphenation"%string] None].

Definition overlap_hint : Tagger.BoundaryHint :=
  Tagger.mkBoundaryHint 0 2 (Some "numeric"%string) None true true.

(** ["xa"]: a compound over the one-character token ["x"] whose
    normalization is ["xyx"], and a hint over both tokens. *)
Definition echo_tokens : list Tagger.Span :=
  [Tagger.mkSpan 0 1; Tagger.mkSpan 1 2].

Definition echo_queue : list Tagger.EnvelopingSpan :=
  [Tagger.mkEnvelopingSpan [Tagger.mkSpan 0 1] ["numeric"%string]
     (Some "xyx"%string)].

Definition echo_hint : Tagger.BoundaryHint :=
  Tagger.mkBoundaryHint 0 2 (Some "case_ending"%string) None true true.

(** The text and the two layers of [test_gap_tagger.py]. *)
Definition gaps_text : string :=
  String (ascii_of_nat 220) "ks kaks kolm neli viis kuus seitse.".

Definition layer_1 : list GapTagger.Span :=
  [GapTagger.mkSpan 4 8 ∅; GapTagger.mkSpan 9 13 ∅;
   GapTagger.mkSpan 24 28 ∅].

Definition layer_2 : list GapTagger.Span :=
  [GapTagger.mkSpan 4 8 ∅; GapTagger.mkSpan 9 18 ∅;
   GapTagger.mkSpan 35 36 ∅].

(** [t.strip()], for blanks. *)
Fixpoint lstrip (t : string) : string :=
  match t with
  | String " " t' => lstrip t'
  | _ => t
  end.

Definition strip (t : string) : string :=
  String.rev (lstrip (String.rev (lstrip t))).

(** [{'gap_length': len(t)}] *)
Definition gap_length (t : string) : gmap string Z :=
  {[ "gap_length"%string := Z.of_nat (String.length t) ]}.

(** A collection with one attached and three detached layers. *)
Definition structure : gmap string Postgres.layer_struct :=
  {[ "words"%string :=
       Postgres.mkStruct false ["normalized_form"%string] true
         None None (Some "words"%string) None;
     "sentences"%string :=
       Postgres.mkStruct true [] false
         None (Some "words"%string) (Some "words"%string) None;
     "paragraphs"%string :=
       Postgres.mkStruct true [] false
         None (Some "sentences"%string) (Some "words"%string) None;
     "morph"%string :=
       Postgres.mkStruct true ["lemma"%string] true
         (Some "words"%string) None (Some "words"%string) None ]}.

Definition structure_rank (layer : string) : nat :=
  if String.eqb layer "paragraphs" then 1%nat else 0%nat.

(** Three rows for the columns of a layer table. *)
Definition layer_columns : list string :=
  ["id"%string; "text_id"%string; "data"%string].

Definition layer_rows : list (list Postgres.Composable) :=
  [ [Postgres.DEFAULT; Postgres.Literal "0"; Postgres.Literal "{}"];
    [Postgres.DEFAULT; Postgres.Literal "1"; Postgres.Literal "{}"];
    [Postgres.DEFAULT; Postgres.Literal "2"; Postgres.Literal "{}"] ].

(** Two detached layers, each the parent of the other. *)
Definition circle : gmap string Postgres.layer_struct :=
  {[ "a"%string :=
       Postgres.mkStruct true [] false (Some "b"%string) None None None;
     "b"%string :=
       Postgres.mkStruct true [] false (Some "a"%string) None None None ]}.

End Samples.

(** * Properties *)

(** ** Sorted insertion *)

Section InsertSpan.

Context {A : Type} `{Interval A}.

Lemma span_le_trans (a b c : A) : span_le a b -> span_le b c -> span_le a c.
Proof. unfold span_le. lia. Qed.

#[local] Instance span_le_Transitive : Transitive (@span_le A _).
Proof. intros a b c. apply span_le_trans. Qed.

Lemma span_leb_spec (a b : A) : span_leb a b = true <-> span_le a b.
Proof. unfold span_leb, span_le. lia. Qed.

(** Once a duplicate has been seen, a discarding insertion changes
    nothing any more. *)
Lemma insert_loop_seen (span : A) (spans : list A) :
  Tagger.insert_loop span true true spans = spans.
Proof.
  induction spans as [|x rest IH]; simpl; [reflexivity|].
  rewrite andb_false_r. simpl. now rewrite IH.
Qed.

(** The loop only ever adds [span], at one place. *)
Lemma insert_loop_shape (span : A) (d dup : bool) (spans : list A) :
  Tagger.insert_loop span d dup spans = spans
  \/ exists l1 l2, spans = l1 ++ l2
                   /\ Tagger.insert_loop span d dup spans = l1 ++ span :: l2.
Proof.
  revert dup. induction spans as [|x rest IH]; intros dup; simpl.
  - destruct (Tagger.may_insert d dup).
    + right. exists [], []. split; reflexivity.
    + left. reflexivity.
  - destruct (_ && _).
    + right. exists [], (x :: rest). split; reflexivity.
    + destruct (IH (dup || ((start span =? start x) && (end_ span =? end_ x))))
        as [-> | (l1 & l2 & -> & ->)].
      * left. reflexivity.
      * right. exists (x :: l1), l2. split; reflexivity.
  Qed.

(** Without [discard_duplicate] the span always goes in. *)
Lemma insert_loop_keep (span : A) (dup : bool) (spans : list A) :
  exists l1 l2, spans = l1 ++ l2
                /\ Tagger.insert_loop span false dup spans = l1 ++ span :: l2.
Proof.
  revert dup. induction spans as [|x rest IH]; intros dup; simpl.
  - exists [], []. split; reflexivity.
  - unfold Tagger.may_insert at 1. simpl. rewrite andb_true_r.
    destruct (end_ span <=? start x).
    + exists [], (x :: rest). split; reflexivity.
    + destruct (IH (dup || ((start span =? start x) && (end_ span =? end_ x))))
        as (l1 & l2 & -> & ->).
      exists (x :: l1), l2. split; reflexivity.
Qed.

(** With [discard_duplicate], a span that has no twin in the list goes
    in as well. *)
Lemma insert_loop_fresh (span : A) (spans : list A) :
  Forall (fun t => ~ same_interval span t) spans ->
  exists l1 l2, spans = l1 ++ l2
                /\ Tagger.insert_loop span true false spans = l1 ++ span :: l2.
Proof.
  induction 1 as [|x rest Hx _ IH]; simpl.
  - exists [], []. split; reflexivity.
  - assert ((start span =? start x) && (end_ span =? end_ x) = false) as ->.
    { apply andb_false_iff. unfold same_interval in Hx. lia. }
    unfold Tagger.may_insert. simpl. rewrite andb_true_r.
    destruct (end_ span <=? start x).
    + exists [], (x :: rest). split; reflexivity.
    + destruct IH as (l1 & l2 & -> & ->).
      exists (x :: l1), l2. split; reflexivity.
Qed.

(** With [discard_duplicate], a twin in a sorted list of well-formed
    spans is always met before the place of insertion. *)
Lemma insert_loop_twin (span : A) (dup : bool) (spans : list A) :
  StronglySorted span_le spans ->
  Forall well_formed spans ->
  Exists (same_interval span) spans ->
  Tagger.insert_loop span true dup spans = spans.
Proof.
  intros Hs Hw. revert dup.
  induction Hs as [|x rest Hs IH Hx]; intros dup Hex.
  - inversion Hex.
  - simpl. inversion Hw as [|? ? Hwx Hwrest]; subst.
    destruct ((start span =? start x) && (end_ span =? end_ x)) eqn:Etwin.
    + rewrite orb_true_r. unfold Tagger.may_insert. simpl.
      rewrite andb_false_r. now rewrite insert_loop_seen.
    + rewrite orb_false_r.
      assert (Exists (same_interval span) rest) as Hrest.
      { inversion Hex as [? ? Hsame|]; subst; [|assumption].
        unfold same_interval in Hsame.
        apply andb_false_iff in Etwin. lia. }
      destruct (end_ span <=? start x) eqn:Ele.
      * exfalso. apply Exists_exists in Hrest as (t & Hin & Hsame).
        rewrite Forall_forall in Hx. specialize (Hx t Hin).
        rewrite Forall_forall in Hwrest. specialize (Hwrest t Hin).
        unfold span_le in Hx. unfold same_interval in Hsame.
        unfold well_formed in Hwx, Hwrest.
        apply andb_false_iff in Etwin. lia.
      * simpl. now rewrite IH.
Qed.

(** The order is kept as soon as every span that starts before the end
    of the new one also comes before it in the order. *)
Lemma insert_loop_sorted (span : A) (d dup : bool) (spans : list A) :
  StronglySorted span_le spans ->
  Forall well_formed spans ->
  well_formed span ->
  Forall (fun t => start t < end_ span -> span_le t span) spans ->
  StronglySorted span_le (Tagger.insert_loop span d dup spans).
Proof.
  intros Hs Hw Hwspan. revert dup.
  induction Hs as [|x rest Hs IH Hx]; intros dup Hbefore; simpl.
  - destruct (Tagger.may_insert d dup); repeat constructor.
  - inversion Hw as [|? ? Hwx Hwrest]; subst.
    inversion Hbefore as [|? ? Hbx Hbrest]; subst.
    destruct (end_ span <=? start x) eqn:Ele; simpl.
    + assert (span_le span x) as Hsx.
      { unfold span_le, well_formed in *. lia. }
      destruct (Tagger.may_insert _ _) eqn:Emay.
      * constructor; [constructor; assumption|].
        constructor; [assumption|].
        eapply Forall_impl; [exact Hx|].
        intros t Ht. eapply span_le_trans; eassumption.
      * unfold Tagger.may_insert in Emay.
        destruct d; simpl in Emay; [|discriminate].
        apply negb_false_iff in Emay. rewrite Emay, insert_loop_seen.
        constructor; assumption.
    + constructor; [now apply IH|].
      assert (span_le x span) as Hxs by (apply Hbx; lia).
      destruct (insert_loop_shape span d
                  (dup || ((start span =? start x) && (end_ span =? end_ x)))
                  rest) as [-> | (l1 & l2 & -> & ->)]; [assumption|].
      apply Forall_app in Hx as [H1 H2].
      apply Forall_app. split; [assumption|].
      constructor; assumption.
Qed.

Lemma Sorted_span_le_strong (spans : list A) :
  Sorted span_le spans -> StronglySorted span_le spans.
Proof. apply Sorted_StronglySorted. exact span_le_Transitive. Qed.

(** The loop passes every span that starts before the new one ends, and
    the new span is put at the end. *)
Lemma insert_loop_appended (span : A) (d dup : bool) (spans : list A) :
  Forall (fun t => start t < end_ span) spans ->
  d = false
  \/ (dup = false /\ Forall (fun t => ~ same_interval span t) spans) ->
  Tagger.insert_loop span d dup spans = spans ++ [span].
Proof.
  intros Hlate. revert dup.
  induction Hlate as [|x rest Hx _ IH]; intros dup Hin; simpl.
  - destruct Hin as [-> | [-> _]]; [reflexivity | now destruct d].
  - assert ((end_ span <=? start x) = false) as ->
      by (apply Z.leb_gt; lia).
    simpl. f_equal. apply IH.
    destruct Hin as [-> | [-> Hfresh]]; [now left|]. right.
    inversion Hfresh as [|? ? Hnot Hrest]; subst.
    split; [|exact Hrest]. simpl.
    destruct (start span =? start x) eqn:Hs; [|reflexivity].
    destruct (end_ span =? end_ x) eqn:He; [|reflexivity].
    exfalso. apply Hnot. unfold same_interval. lia.
Qed.

(** In a sorted list every span comes before the last one. *)
Lemma StronglySorted_last (spans : list A) (y : A) :
  StronglySorted span_le (spans ++ [y]) ->
  Forall (fun x => span_le x y) spans.
Proof.
  induction spans as [|x rest IH]; simpl; intros Hs; [constructor|].
  inversion Hs as [|? ? Hrest Hall]; subst.
  constructor; [|now apply IH].
  rewrite Forall_forall in Hall. apply Hall.
  apply elem_of_app. right. now left.
Qed.

End InsertSpan.

(** A span that overlaps no span of the list, twins apart, comes after
    every span of the list that starts before it ends. *)
Lemma disjoint_before {A : Type} `{Interval A} (span : A) (spans : list A) :
  Forall well_formed spans ->
  well_formed span ->
  Forall (fun t => disjoint t span \/ same_interval span t) spans ->
  Forall (fun t => start t < end_ span -> span_le t span) spans.
Proof.
  intros Hw Hwspan Hd.
  rewrite Forall_forall in *. intros t Ht Hlt.
  specialize (Hw t Ht). specialize (Hd t Ht).
  unfold disjoint, same_interval, span_le, well_formed in *. lia.
Qed.

(** Where the order is kept. Take a list of well-formed spans sorted
    ascending by [(start, end)] and a well-formed span [s]. If every span
    of the list that starts before [s] ends comes before [s] in that
    order (so, whenever [s] overlaps no other span of the list), the
    list that [_insert_span] gives is sorted again. [s] is put in, at one
    place, when [discard_duplicate] is false or no span with the same
    [(start, end)] is present; and with [discard_duplicate] a span with
    the same [(start, end)] in the list leaves the list as it was. *)
Lemma insert_span_sorted {A : Type} `{Interval A} (span : A)
    (spans : list A) (discard_duplicate : bool) :
  Sorted span_le spans ->
  Forall well_formed spans ->
  well_formed span ->
  (Forall (fun t => start t < end_ span -> span_le t span) spans ->
   Sorted span_le (Tagger._insert_span span spans discard_duplicate))
  /\ (Forall (fun t => disjoint t span \/ same_interval span t) spans ->
      Sorted span_le (Tagger._insert_span span spans discard_duplicate))
  /\ (discard_duplicate = false
      \/ Forall (fun t => ~ same_interval span t) spans ->
      exists l1 l2,
        spans = l1 ++ l2
        /\ Tagger._insert_span span spans discard_duplicate
           = l1 ++ span :: l2)
  /\ (discard_duplicate = true ->
      Exists (same_interval span) spans ->
      Tagger._insert_span span spans discard_duplicate = spans).
Proof.
  intros Hs Hw Hwspan.
  apply Sorted_span_le_strong in Hs.
  unfold Tagger._insert_span. repeat split.
  - intros Hbefore.
    apply StronglySorted_Sorted. now apply insert_loop_sorted.
  - intros Hdisjoint.
    apply StronglySorted_Sorted. apply insert_loop_sorted; try assumption.
    now apply disjoint_before.
  - intros [-> | Hfresh].
    + apply insert_loop_keep.
    + destruct discard_duplicate.
      * now apply insert_loop_fresh.
      * apply insert_loop_keep.
  - intros -> Htwin. now apply insert_loop_twin.
Qed.

Lemma insert_span_sorted_witness :
  let spans := [Tagger.mkSpan 0 2; Tagger.mkSpan 5 6] in
  let span := Tagger.mkSpan 3 4 in
  Sorted span_le (Tagger._insert_span span spans true)
  /\ Tagger._insert_span span spans true
     = [Tagger.mkSpan 0 2; Tagger.mkSpan 3 4; Tagger.mkSpan 5 6]
  /\ Tagger._insert_span span (Tagger._insert_span span spans true) true
     = Tagger._insert_span span spans true.
Proof.
  intros spans span.
  assert (Sorted span_le spans) as Hs
    by (repeat constructor; unfold span_le; cbn; lia).
  assert (Forall well_formed spans) as Hw
    by (repeat constructor; unfold well_formed; cbn; lia).
  assert (well_formed span) as Hwspan by (unfold well_formed; cbn; lia).
  destruct (insert_span_sorted span spans true Hs Hw Hwspan)
    as (Hsorted & _ & _ & _).
  split; [|split; [reflexivity|]].
  - apply Hsorted.
    repeat (constructor; [unfold span_le; cbn; lia|]). constructor.
  - apply (insert_span_sorted span (Tagger._insert_span span spans true)
             true).
    + apply Hsorted.
      repeat (constructor; [unfold span_le; cbn; lia|]). constructor.
    + repeat constructor; unfold well_formed; cbn; lia.
    + exact Hwspan.
    + reflexivity.
    + right. left. split; reflexivity.
Defined.

(** C3, on the code. A span that ends after the start of every span of
    the list is put at the end of the list, when [discard_duplicate] is
    false or no span of the list has the same [(start, end)]; the list
    that [_insert_span] gives is then not sorted as soon as one of the
    spans of the list does not come before the new one in the order of
    [(start, end)]. The docstring has the list remain sorted for every
    span. *)
Theorem insert_span_appended {A : Type} `{Interval A} (span x : A)
    (spans : list A) (discard_duplicate : bool) :
  Forall (fun t => start t < end_ span) spans ->
  discard_duplicate = false
  \/ Forall (fun t => ~ same_interval span t) spans ->
  In x spans ->
  ~ span_le x span ->
  Tagger._insert_span span spans discard_duplicate = spans ++ [span]
  /\ ~ Sorted span_le (Tagger._insert_span span spans discard_duplicate).
Proof.
  intros Hlate Hin Hx Hnot.
  assert (Tagger._insert_span span spans discard_duplicate
          = spans ++ [span]) as Happended.
  { unfold Tagger._insert_span. apply insert_loop_appended; [exact Hlate|].
    destruct Hin as [-> | Hfresh]; [now left | now right]. }
  split; [exact Happended|].
  rewrite Happended. intros Hsorted.
  apply Sorted_span_le_strong, StronglySorted_last in Hsorted.
  rewrite Forall_forall in Hsorted. apply Hnot, Hsorted.
  now apply list_elem_of_In.
Qed.

Lemma insert_span_appended_witness :
  Sorted span_le [Tagger.mkSpan 1 3]
  /\ Tagger._insert_span (Tagger.mkSpan 0 2) [Tagger.mkSpan 1 3] false
     = [Tagger.mkSpan 1 3] ++ [Tagger.mkSpan 0 2]
  /\ ~ Sorted span_le
         (Tagger._insert_span (Tagger.mkSpan 0 2) [Tagger.mkSpan 1 3]
            false).
Proof.
  split; [repeat constructor|].
  apply (insert_span_appended (Tagger.mkSpan 0 2) (Tagger.mkSpan 1 3)
           [Tagger.mkSpan 1 3] false).
  - repeat constructor.
  - left. reflexivity.
  - left. reflexivity.
  - unfold span_le. cbn. lia.
Defined.

(** The tagger itself makes such a call. In ["abc"], with the tokens
    [(1,2)] and [(2,3)] joined into a compound by the sweep, a hint of
    the second level over [(0,2)] joins the tokens [(0,1)] and [(1,2)];
    the new compound overlaps the one in the queue, is put after it, and
    [_apply_2nd_level_compounding] returns a queue that is not in
    ascending order. *)
Example second_level_unsorted_queue :
  Tagger._apply_2nd_level_compounding 10 (Samples.tagger []) "abc"
    Samples.overlap_tokens [Samples.overlap_hint] Samples.overlap_queue
  = Tagger.Returns
      [Tagger.mkEnvelopingSpan [Tagger.mkSpan 1 2; Tagger.mkSpan 2 3]
         ["hyphenation"%string] None;
       Tagger.mkEnvelopingSpan [Tagger.mkSpan 0 1; Tagger.mkSpan 1 2]
         ["numeric"%string] None]
  /\ ~ span_le
        (Tagger.mkEnvelopingSpan [Tagger.mkSpan 1 2; Tagger.mkSpan 2 3]
           ["hyphenation"%string] None)
        (Tagger.mkEnvelopingSpan [Tagger.mkSpan 0 1; Tagger.mkSpan 1 2]
           ["numeric"%string] None).
Proof.
  split; [vm_compute; reflexivity|].
  unfold span_le. cbn. lia.
Qed.

(** With [discard_duplicate] left out as well: [(3,7)] goes after
    [(5,6)], which it overlaps, and the list is no longer in ascending
    order. *)
Example insert_span_overlap_unsorted :
  Sorted span_le [Tagger.mkSpan 5 6]
  /\ Tagger._insert_span (Tagger.mkSpan 3 7) [Tagger.mkSpan 5 6] false
     = [Tagger.mkSpan 5 6; Tagger.mkSpan 3 7]
  /\ ~ Sorted span_le
         (Tagger._insert_span (Tagger.mkSpan 3 7) [Tagger.mkSpan 5 6] false).
Proof.
  split; [repeat constructor|]. split; [reflexivity|].
  intros Hs.
  change (Sorted span_le [Tagger.mkSpan 5 6; Tagger.mkSpan 3 7]) in Hs.
  inversion Hs as [|? ? _ Hhd]; subst.
  inversion Hhd as [|? ? Hle]; subst.
  unfold span_le in Hle. simpl in Hle. lia.
Qed.

(** ** The covered-spans query *)

(** C8 (as amended). With both boundary flags loose no branch of the
    query applies: the call returns the empty list, for every range and
    every list of spans, and raises nothing. *)
Theorem get_covered_tokens_both_loose {A : Type} `{Interval A}
    (range_start range_end : Z) (spans : list A) :
  Tagger._get_covered_tokens range_start range_end false false spans = [].
Proof.
  unfold Tagger._get_covered_tokens.
  induction spans as [|x rest IH]; simpl; [reflexivity | exact IH].
Qed.

(** C8, as first stated, fails: the call with both flags loose returns,
    and what it returns is "keep nothing", even for a span that lies
    inside the range and is kept under each of the three other modes. *)
Lemma get_covered_tokens_both_loose_returns :
  Tagger._get_covered_tokens 0 10 false false [Tagger.mkSpan 1 2] = []
  /\ Tagger._get_covered_tokens 0 10 true true [Tagger.mkSpan 1 2]
     = [Tagger.mkSpan 1 2]
  /\ Tagger._get_covered_tokens 0 10 true false [Tagger.mkSpan 1 2]
     = [Tagger.mkSpan 1 2]
  /\ Tagger._get_covered_tokens 0 10 false true [Tagger.mkSpan 1 2]
     = [Tagger.mkSpan 1 2].
Proof. repeat split; reflexivity. Qed.

(** ** The token sweep *)

Section Sweep.

Import Tagger.

(** *** Hyphenation *)

(** C7 (as amended). The run leaves ['-'] for ['second'] exactly when the
    token after the hyphen starts where the hyphen ended; the text of
    that token is not looked at, so a second ["-"] advances the run just
    as any other token does. *)
Theorem hyphen_to_second (raw_text : string) (hyphenation_start : nat)
    (last_end : option Z) (i : nat) (token_span : Span) :
  fst (hyphenation_transition raw_text status_hyphen hyphenation_start
         last_end i token_span) = status_second
  <-> last_end = Some (span_start token_span).
Proof.
  unfold hyphenation_transition, adjacent.
  destruct last_end as [e|]; simpl.
  - destruct (e =? span_start token_span) eqn:E; simpl.
    + apply Z.eqb_eq in E. subst. split; reflexivity || auto.
    + apply Z.eqb_neq in E. split; [discriminate|].
      intros [= ->]. contradiction.
  - split; discriminate.
Qed.

(** C7, as first stated, fails: in ["a--b"] the second hyphen follows the
    first one without a gap, and after it the run is in ['second']; the
    sweep then closes the run over ["a--"]. *)
Lemma hyphen_after_hyphen_advances :
  let raw_text := "a--b"%string in
  let tokens := [mkSpan 0 1; mkSpan 1 2; mkSpan 2 3; mkSpan 3 4] in
  text raw_text (mkSpan 1 2) = "-"%string
  /\ text raw_text (mkSpan 2 3) = "-"%string
  /\ hyphenation_transition raw_text status_hyphen 0 (Some 2) 2 (mkSpan 2 3)
     = (status_second, 0%nat)
  /\ hyphenation_status_
       (sweep_from (Samples.tagger []) raw_text tokens ∅
          (mkSweep [] status_None 0%nat None) 0%nat (take 3 tokens))
     = status_second
  /\ token_sweep (Samples.tagger []) raw_text tokens []
     = inr (mkSweep
              [mkEnvelopingSpan [mkSpan 0 1; mkSpan 1 2; mkSpan 2 3]
                 ["hyphenation"%string] None]
              status_None 3%nat (Some 4)).
Proof. repeat split; vm_compute; reflexivity. Qed.

(** *** Custom abbreviations *)

Lemma list_slice_one {B : Type} (xs : list B) (i : nat) (x : B) :
  xs !! i = Some x -> Py.list_slice xs i (i + 1) = [x].
Proof.
  intros Hx. unfold Py.list_slice.
  replace (i + 1 - i)%nat with 1%nat by lia.
  rewrite (drop_S _ _ _ Hx). reflexivity.
Qed.

(** C6, on the code. When the abbreviation and the token after it are
    the last two tokens of the layer, the candidate holds the
    abbreviation alone, whatever the text of the last token is, a ["."]
    included. *)
Theorem custom_abbreviation_before_last_token (self : CompoundTokenTagger)
    (raw_text : string) (tokens : list Span) (token_id : nat)
    (token_span : Span) :
  tokens !! token_id = Some token_span ->
  length tokens = S (S token_id) ->
  Py.str_in (text raw_text token_span) (custom_abbreviations self) = true ->
  discard self raw_text (span_start token_span) (span_end token_span)
  = false ->
  _try_to_add_custom_abbreviation self raw_text tokens token_id []
  = [mkEnvelopingSpan [token_span] ["non_ending_abbreviation"%string] None].
Proof.
  intros Htok Hlen Habbr Hdisc.
  unfold _try_to_add_custom_abbreviation.
  rewrite Htok, Habbr, Hlen.
  assert ((Z.of_nat token_id + 1 <? Z.of_nat (S (S token_id)) - 1) = false)
    as -> by (apply Z.ltb_ge; lia).
  simpl String.eqb. cbv iota.
  rewrite (list_slice_one _ _ _ Htok).
  cbn. rewrite Hdisc. reflexivity.
Qed.

Lemma custom_abbreviation_before_last_token_witness :
  text "Dr." (mkSpan 2 3) = "."%string
  /\ _try_to_add_custom_abbreviation (Samples.tagger ["Dr"%string]) "Dr."
       [mkSpan 0 2; mkSpan 2 3] 0 []
     = [mkEnvelopingSpan [mkSpan 0 2] ["non_ending_abbreviation"%string]
          None].
Proof.
  split; [reflexivity|].
  apply (custom_abbreviation_before_last_token
           (Samples.tagger ["Dr"%string]) "Dr." [mkSpan 0 2; mkSpan 2 3]
           0 (mkSpan 0 2)); reflexivity.
Defined.

(** When one more token follows, the same abbreviation and period are
    joined. *)
Example custom_abbreviation_before_inner_period :
  _try_to_add_custom_abbreviation (Samples.tagger ["Dr"%string]) "Dr. X"
    [mkSpan 0 2; mkSpan 2 3; mkSpan 4 5] 0 []
  = [mkEnvelopingSpan [mkSpan 0 2; mkSpan 2 3]
       ["non_ending_abbreviation"%string] (Some "Dr."%string)].
Proof. reflexivity. Qed.

(** *** Tokenization hints *)

#[local] Instance precedes_Transitive : Transitive precedes.
Proof. intros a b c. unfold precedes. lia. Qed.

(** No later token ends at the end of the hint: the index found so far
    is what the scan gives. *)
Lemma scan_end_token_miss (hint_end : Z) (toks : list Span) (j : nat)
    (found : option nat) :
  Forall (fun t => span_end t <> hint_end) toks ->
  scan_end_token hint_end toks j found = found.
Proof.
  intros Hmiss. revert j.
  induction Hmiss as [|t rest Ht _ IH]; intros j; simpl; [reflexivity|].
  apply Z.eqb_neq in Ht. rewrite Ht.
  destruct (hint_end <? span_start t); [reflexivity | apply IH].
Qed.

(** The scan goes through tokens that start no later than the end of
    the hint, and stops at the last token that ends there. *)
Lemma scan_end_token_hit (hint_end : Z) (pre post : list Span) (tok : Span)
    (j : nat) (found : option nat) :
  Forall (fun t => span_start t <= hint_end) pre ->
  span_end tok = hint_end ->
  Forall (fun t => span_end t <> hint_end) post ->
  scan_end_token hint_end (pre ++ tok :: post) j found
  = Some (j + length pre)%nat.
Proof.
  intros Hpre Htok Hpost. revert j found.
  induction Hpre as [|t pre Ht _ IH]; intros j found; simpl.
  - apply Z.eqb_eq in Htok. rewrite Htok.
    rewrite scan_end_token_miss by assumption. f_equal. lia.
  - destruct (span_end t =? hint_end).
    + rewrite IH. f_equal. lia.
    + assert ((hint_end <? span_start t) = false) as ->
        by (apply Z.ltb_ge; lia).
      rewrite IH. f_equal. lia.
Qed.

(** In an ordered tokens layer the scan from token [i] finds the token
    [j >= i] that ends where the hint ends. *)
Lemma scan_end_token_ordered (tokens : list Span) (i j : nat)
    (tok_j : Span) :
  Sorted precedes tokens ->
  (i <= j)%nat ->
  tokens !! j = Some tok_j ->
  scan_end_token (span_end tok_j) (drop i tokens) i None = Some j.
Proof.
  intros Hs Hij Hj.
  apply Sorted_StronglySorted in Hs; [|exact precedes_Transitive].
  assert (drop i tokens !! (j - i)%nat = Some tok_j) as Hj'.
  { rewrite lookup_drop. rewrite <- Hj. f_equal. lia. }
  pose proof (take_drop_middle _ _ _ Hj') as Hsplit.
  pose proof (lookup_lt_Some _ _ _ Hj') as Hlen.
  rewrite <- (take_drop i tokens) in Hs.
  apply StronglySorted_app_1_r in Hs.
  rewrite <- Hsplit in Hs |- *.
  apply StronglySorted_app in Hs as (Hcross & _ & Hs2).
  apply StronglySorted_cons in Hs2 as [Hafter _].
  rewrite scan_end_token_hit with (hint_end := span_end tok_j).
  - f_equal. rewrite length_take. lia.
  - apply Forall_forall. intros t Ht.
    assert (precedes t tok_j) as Hp
      by (apply Hcross; [exact Ht | apply list_elem_of_here]).
    unfold precedes in Hp. lia.
  - reflexivity.
  - eapply Forall_impl; [exact Hafter|].
    intros t Hp. unfold precedes in Hp. lia.
Qed.

(** C5 (as amended). Take a hint stored under the start of token [i].
    If, in an ordered tokens layer, a token [j >= i] other than the first
    token of the layer ends where the hint ends, the candidate over the
    tokens [i..j] with the type and the normalized value of the hint is
    put at the end of the queue, unless custom abbreviations are in use
    and the candidate starts inside the last queued one, in which case
    the queue stays as it is. If no token from [i] on ends where the hint
    ends, the queue stays as it is. *)
Theorem hint_candidate (self : CompoundTokenTagger) (tokens : list Span)
    (tokenization_hints : gmap Z end_node) (i : nat) (token_span : Span)
    (node : end_node) (queue : list EnvelopingSpan) :
  tokens !! i = Some token_span ->
  tokenization_hints !! span_start token_span = Some node ->
  (forall j tok_j,
      Sorted precedes tokens ->
      (i <= j)%nat -> j <> 0%nat ->
      tokens !! j = Some tok_j ->
      span_end tok_j = node_end node ->
      let spl := hint_compound tokens i j node in
      spans spl = Py.list_slice tokens i (j + 1)
      /\ start spl = span_start token_span
      /\ type spl = match node_pattern_type node with
                    | Some t => [t]
                    | None => ["tokenization_hint"%string]
                    end
      /\ normalized spl = match node_normalized node with
                          | Some n => n
                          | None => None
                          end
      /\ apply_tokenization_hint self tokens tokenization_hints i
           token_span queue
         = match custom_abbreviations self, last queue with
           | _ :: _, Some last_compound =>
               if (start last_compound <=? span_start token_span)
                  && (span_start token_span <? end_ last_compound)
               then queue
               else queue ++ [spl]
           | _, _ => queue ++ [spl]
           end)
  /\ ((forall j tok_j,
         (i <= j)%nat -> tokens !! j = Some tok_j ->
         span_end tok_j <> node_end node) ->
      apply_tokenization_hint self tokens tokenization_hints i token_span
        queue
      = queue).
Proof.
  intros Hi Hnode. split.
  - intros j tok_j Hs Hij Hj0 Hj Hend spl.
    assert (start spl = span_start token_span) as Hstart.
    { subst spl. unfold hint_compound, Py.list_slice. cbn.
      rewrite (drop_S _ _ _ Hi).
      replace (j + 1 - i)%nat with (S (j - i)) by lia. reflexivity. }
    repeat split; try reflexivity; try exact Hstart.
    unfold apply_tokenization_hint. rewrite Hnode, <- Hend.
    rewrite (scan_end_token_ordered tokens i j tok_j Hs Hij Hj).
    destruct j as [|j]; [contradiction|]. cbn [truthy_index].
    fold spl. rewrite Hstart.
    destruct (custom_abbreviations self); [reflexivity|].
    destruct (last queue); [|reflexivity].
    destruct (_ && _); reflexivity.
  - intros Hmiss. unfold apply_tokenization_hint. rewrite Hnode.
    rewrite scan_end_token_miss; [reflexivity|].
    apply Forall_forall. intros t Ht.
    apply list_elem_of_lookup in Ht as [k Hk].
    rewrite lookup_drop in Hk.
    apply (Hmiss (i + k)%nat t); [lia | exact Hk].
Qed.

Lemma hint_candidate_witness :
  apply_tokenization_hint (Samples.tagger [])
    [mkSpan 0 2; mkSpan 2 3; mkSpan 4 5]
    {[ 0 := mkEndNode 3 (Some "abbreviation"%string)
              (Some (Some "Dr."%string)) ]}
    0 (mkSpan 0 2) []
  = [mkEnvelopingSpan [mkSpan 0 2; mkSpan 2 3] ["abbreviation"%string]
       (Some "Dr."%string)].
Proof.
  destruct (hint_candidate (Samples.tagger [])
              [mkSpan 0 2; mkSpan 2 3; mkSpan 4 5]
              {[ 0 := mkEndNode 3 (Some "abbreviation"%string)
                        (Some (Some "Dr."%string)) ]}
              0 (mkSpan 0 2)
              (mkEndNode 3 (Some "abbreviation"%string)
                 (Some (Some "Dr."%string)))
              [] eq_refl (lookup_singleton_eq _ _)) as [Hqueued _].
  destruct (Hqueued 1%nat (mkSpan 2 3)) as (_ & _ & _ & _ & ->).
  - repeat constructor; unfold precedes; cbn; lia.
  - lia.
  - lia.
  - reflexivity.
  - reflexivity.
  - reflexivity.
Defined.

(** C5, as first stated, fails: in ["Dr. X"] with the custom abbreviation
    ["Dr"], the hint over [[0,3)] starts at token 0 and token 1 ends where
    the hint ends, yet the hint's candidate is not queued, because it
    starts inside the custom abbreviation queued just before. *)
Lemma hint_inside_custom_abbreviation :
  let raw_text := "Dr. X"%string in
  let tokens := [mkSpan 0 2; mkSpan 2 3; mkSpan 4 5] in
  let hint := mkHintSpan 0 3 (Some "abbreviation"%string)
                (Some (Some "Dr."%string)) in
  let custom := mkEnvelopingSpan [mkSpan 0 2; mkSpan 2 3]
                  ["non_ending_abbreviation"%string] (Some "Dr."%string) in
  tokens !! 1%nat = Some (mkSpan 2 3)
  /\ span_end (mkSpan 2 3) = hint_end hint
  /\ apply_tokenization_hint (Samples.tagger ["Dr"%string]) tokens
       {[ 0 := mkEndNode 3 (Some "abbreviation"%string)
                 (Some (Some "Dr."%string)) ]}
       0 (mkSpan 0 2) [custom]
     = [custom]
  /\ token_sweep (Samples.tagger ["Dr"%string]) raw_text tokens [hint]
     = inr (mkSweep [custom] status_None 2%nat (Some 5)).
Proof. repeat split; vm_compute; reflexivity. Qed.

(** A hint that ends with the first token of the layer gives no
    candidate either: the index 0 found by the scan counts as false. *)
Example hint_ending_at_first_token :
  token_sweep (Samples.tagger []) "jne" [mkSpan 0 3]
    [mkHintSpan 0 3 (Some "abbreviation"%string) None]
  = inr (mkSweep [] status_None 0%nat (Some 3)).
Proof. vm_compute. reflexivity. Qed.

End Sweep.

(** ** Excerpts *)

Section Excerpt.

Import Splitting.

Variables (start end_ : Z) (layers_to_keep : option (list string))
          (trim_overlapping : bool).

(** The loop over the layers, cut at one layer. *)
Lemma excerpt_layers_middle (pre post : list Layer) (layer : Layer)
    (st : state) :
  excerpt_layers start end_ layers_to_keep trim_overlapping
    (pre ++ layer :: post) st
  = Py.bind (excerpt_layers start end_ layers_to_keep trim_overlapping pre st)
      (fun st' =>
         if kept layers_to_keep layer then
           Py.bind (excerpt_layer start end_ trim_overlapping layer st')
                   (excerpt_layers start end_ layers_to_keep
                      trim_overlapping post)
         else
           excerpt_layers start end_ layers_to_keep trim_overlapping post
             st').
Proof.
  revert st. induction pre as [|l pre IH]; intros st; simpl.
  - reflexivity.
  - destruct (kept layers_to_keep l); [|apply IH].
    destruct (excerpt_layer start end_ trim_overlapping l st) as [e|st'];
      simpl; [reflexivity | apply IH].
Qed.

(** When a kept layer raises, [excerpt] raises the error of the first
    layer that fails. *)
Lemma excerpt_raises_at (text_ : Text) (pre post : list Layer)
    (layer : Layer) (e : Py.exn) :
  list_layers text_ = pre ++ layer :: post ->
  kept layers_to_keep layer = true ->
  (forall st, excerpt_layer start end_ trim_overlapping layer st = inl e) ->
  excerpt text_ start end_ layers_to_keep trim_overlapping
  = match excerpt_layers start end_ layers_to_keep trim_overlapping pre
            (mkState ∅ None []) with
    | inl e' => inl e'
    | inr _ => inl e
    end.
Proof.
  intros Hlayers Hkept Hraise. unfold excerpt.
  rewrite Hlayers, excerpt_layers_middle, Hkept.
  destruct (excerpt_layers start end_ layers_to_keep trim_overlapping pre
            (mkState ∅ None [])) as [e'|st]; simpl; [reflexivity|].
  now rewrite Hraise.
Qed.

(** *** Plain layers *)

(** C9 (as amended). When the layers that are kept (all of them by
    default, otherwise those named in [layers_to_keep]) include an
    ambiguous plain layer, [excerpt] gives no excerpt: it raises
    [NotImplementedError] for that layer, unless a kept layer before it
    has raised already. *)
Theorem excerpt_ambiguous_plain_layer (text_ : Text) (pre post : list Layer)
    (layer : Layer) :
  list_layers text_ = pre ++ layer :: post ->
  kept layers_to_keep layer = true ->
  truthy (parent layer) = false ->
  truthy (enveloping layer) = false ->
  ambiguous layer = true ->
  (exists e,
      excerpt text_ start end_ layers_to_keep trim_overlapping = inl e)
  /\ excerpt text_ start end_ layers_to_keep trim_overlapping
     = match excerpt_layers start end_ layers_to_keep trim_overlapping pre
               (mkState ∅ None []) with
       | inl e => inl e
       | inr _ =>
           inl (Py.NotImplementedError ("ambiguous layer: " ++ name layer))
       end.
Proof.
  intros Hlayers Hkept Hparent Henv Hamb.
  assert (excerpt text_ start end_ layers_to_keep trim_overlapping
          = match excerpt_layers start end_ layers_to_keep trim_overlapping
                    pre (mkState ∅ None []) with
            | inl e => inl e
            | inr _ =>
                inl (Py.NotImplementedError
                       ("ambiguous layer: " ++ name layer))
            end) as Heq.
  { apply (excerpt_raises_at text_ pre post layer); try assumption.
    intros st. unfold excerpt_layer.
    now rewrite Hparent, Henv, Hamb. }
  split; [|exact Heq].
  rewrite Heq. destruct (excerpt_layers _ _ _ _ pre _); eauto.
Qed.

(** *** Enveloping layers *)

(** Only the branch of an ambiguous attached layer binds [sp]. *)
Lemma excerpt_layer_keeps_sp (layer : Layer) (st st' : state) :
  truthy (parent layer) && ambiguous layer = false ->
  excerpt_layer start end_ trim_overlapping layer st = inr st' ->
  sp st' = sp st.
Proof.
  unfold excerpt_layer. intros Hshape.
  destruct (truthy (parent layer)), (ambiguous layer); simpl in Hshape;
    try discriminate.
  - destruct (truthy (enveloping layer)); discriminate.
  - destruct (truthy (enveloping layer)).
    + destruct (enveloping_loop _ _ _ _ _ _ _ _) as [e|[? ?]]; simpl;
        [discriminate|]. now intros [= <-].
    + destruct (plain_loop _ _ _ _ _ _ _) as [e|[? ?]]; simpl;
        [discriminate|]. now intros [= <-].
Qed.

Lemma excerpt_layers_keep_sp (todo : list Layer) (st st' : state) :
  Forall (fun l => kept layers_to_keep l && truthy (parent l) && ambiguous l
                   = false) todo ->
  excerpt_layers start end_ layers_to_keep trim_overlapping todo st
  = inr st' ->
  sp st' = sp st.
Proof.
  intros Hshape. revert st.
  induction Hshape as [|l rest Hl _ IH]; intros st; simpl.
  - now intros [= <-].
  - destruct (kept layers_to_keep l) eqn:Hkept; [|apply IH].
    destruct (excerpt_layer start end_ trim_overlapping l st) as [e|st1]
      eqn:Hone; simpl; [discriminate|].
    intros Hrest. rewrite (IH _ Hrest).
    apply (excerpt_layer_keeps_sp l); [|exact Hone].
    simpl in Hl. exact Hl.
Qed.

(** With [sp] unbound and an attribute to copy, the first span that
    passes the window raises. *)
Lemma enveloping_loop_unbound (attrs : list string) (todo : list Span)
    (new_spans : list NewSpan) (map_spans : gmap nat NewSpan) :
  attrs <> [] ->
  Exists (fun span => window trim_overlapping start end_
                        (span_start span) (span_end span) <> None) todo ->
  enveloping_loop start end_ trim_overlapping attrs None todo new_spans
    map_spans
  = inl (Py.UnboundLocalError "sp").
Proof.
  intros Hattrs Hex. destruct attrs as [|attr attrs]; [contradiction|].
  induction Hex as [span rest Hpass | span rest _ IH]; simpl.
  - destruct (window _ _ _ _ _); [reflexivity | contradiction].
  - destruct (window _ _ _ _ _); [reflexivity | exact IH].
Qed.

(** C10 (as amended). When the kept layers include an unambiguous
    enveloping layer with at least one declared attribute, one of whose
    spans passes the test on the window, and no kept layer before it is
    an ambiguous attached layer, the copy of the attributes reads [sp]
    while it is unbound and [excerpt] gives no excerpt: it raises
    [UnboundLocalError], unless a kept layer before has raised already. *)
Theorem excerpt_enveloping_attributes (text_ : Text) (pre post : list Layer)
    (layer : Layer) :
  list_layers text_ = pre ++ layer :: post ->
  kept layers_to_keep layer = true ->
  truthy (parent layer) = false ->
  truthy (enveloping layer) = true ->
  ambiguous layer = false ->
  attributes layer <> [] ->
  Exists (fun span => window trim_overlapping start end_
                        (span_start span) (span_end span) <> None)
         (spans layer) ->
  Forall (fun l => kept layers_to_keep l && truthy (parent l) && ambiguous l
                   = false) pre ->
  (exists e,
      excerpt text_ start end_ layers_to_keep trim_overlapping = inl e)
  /\ excerpt text_ start end_ layers_to_keep trim_overlapping
     = match excerpt_layers start end_ layers_to_keep trim_overlapping pre
               (mkState ∅ None []) with
       | inl e => inl e
       | inr _ => inl (Py.UnboundLocalError "sp")
       end.
Proof.
  intros Hlayers Hkept Hparent Henv Hamb Hattrs Hpass Hpre.
  assert (excerpt text_ start end_ layers_to_keep trim_overlapping
          = match excerpt_layers start end_ layers_to_keep trim_overlapping
                    pre (mkState ∅ None []) with
            | inl e => inl e
            | inr _ => inl (Py.UnboundLocalError "sp")
            end) as Heq.
  { unfold excerpt. rewrite Hlayers, excerpt_layers_middle, Hkept.
    destruct (excerpt_layers start end_ layers_to_keep trim_overlapping pre
                (mkState ∅ None [])) as [e|st] eqn:Hrun; simpl;
      [reflexivity|].
    pose proof (excerpt_layers_keep_sp pre _ _ Hpre Hrun) as Hsp.
    simpl in Hsp. unfold excerpt_layer.
    rewrite Hparent, Henv, Hamb, Hsp.
    now rewrite enveloping_loop_unbound. }
  split; [|exact Heq].
  rewrite Heq. destruct (excerpt_layers _ _ _ _ pre _); eauto.
Qed.

(** *** Attached layers *)

(** When the source has a value for every attribute, the copy succeeds
    and changes nothing but the attributes copied. *)
Lemma copy_attributes_complete {B C} (attrs : list string)
    (src : span_of B) (new_span : span_of C) :
  Forall (fun attr => is_Some (span_attrs src !! attr)) attrs ->
  exists m,
    copy_attributes attrs src new_span
    = inr (mkSpan (span_key new_span) (span_start new_span)
             (span_end new_span) m (span_parent new_span)
             (span_items new_span))
    /\ forall attr,
         m !! attr = if decide (attr ∈ attrs) then span_attrs src !! attr
                     else span_attrs new_span !! attr.
Proof.
  intros Hall. revert new_span.
  induction Hall as [|attr rest [v Hv] _ IH]; intros new_span; simpl.
  - exists (span_attrs new_span). split; [now destruct new_span|].
    intros attr. destruct (decide (attr ∈ [])) as [Hin|]; [|reflexivity].
    inversion Hin.
  - unfold getattr. rewrite Hv. simpl.
    destruct (IH (setattr new_span attr v)) as (m & -> & Hm).
    exists m. split; [reflexivity|].
    intros a. rewrite Hm. simpl.
    destruct (decide (a ∈ rest)) as [Hin|Hout].
    + rewrite decide_True by (apply elem_of_cons; auto). reflexivity.
    + destruct (decide (a = attr)) as [->|Hne].
      * rewrite decide_True by (apply elem_of_cons; auto).
        now rewrite lookup_insert_eq.
      * rewrite decide_False by (rewrite elem_of_cons; tauto).
        now rewrite lookup_insert_ne.
Qed.

(** The span marked on the parent, once the attributes are copied. *)
Lemma copy_attributes_mark (attrs : list string) (span_parent : NewSpan)
    (sp' : Span) :
  Forall (fun attr => is_Some (span_attrs sp' !! attr)) attrs ->
  copy_attributes attrs sp' (mark span_parent (span_key sp'))
  = inr (reemitted attrs span_parent sp').
Proof.
  intros Hall.
  destruct (copy_attributes_complete attrs sp'
              (mark span_parent (span_key sp')) Hall) as (m & -> & Hm).
  unfold reemitted. simpl. do 2 f_equal.
  apply map_eq. intros attr. rewrite Hm. simpl.
  destruct (decide (attr ∈ attrs)) as [Hin|Hout].
  - destruct (span_attrs sp' !! attr) as [v|] eqn:Hv.
    + symmetry. apply map_lookup_filter_Some. split; [exact Hv | exact Hin].
    + symmetry. apply map_lookup_filter_None. left. exact Hv.
  - rewrite lookup_empty. symmetry. apply map_lookup_filter_None. right.
    intros v _. exact Hout.
Qed.

Lemma annotation_loop_complete (attrs : list string)
    (span_parent : NewSpan) (todo : list Span) (new_spans : list NewSpan)
    (m : gmap nat NewSpan) (sp0 : option Span) :
  Forall (fun sp' =>
            Forall (fun attr => is_Some (span_attrs sp' !! attr)) attrs)
         todo ->
  exists m' sp1,
    annotation_loop attrs span_parent todo new_spans m sp0
    = inr (new_spans ++ map (reemitted attrs span_parent) todo, m', sp1)
    /\ forall k, ~ In k (map span_key todo) -> m' !! k = m !! k.
Proof.
  intros Hall. revert new_spans m sp0.
  induction Hall as [|sp' rest Hsp' _ IH]; intros new_spans m sp0; simpl.
  - exists m, sp0. rewrite app_nil_r. split; [reflexivity | auto].
  - rewrite (copy_attributes_mark attrs span_parent sp' Hsp'). simpl.
    destruct (IH (add_span new_spans (reemitted attrs span_parent sp'))
                 (<[span_key sp' := reemitted attrs span_parent sp']> m)
                 (Some sp')) as (m' & sp1 & -> & Hm').
    exists m', sp1. unfold add_span. rewrite <- app_assoc. simpl.
    split; [reflexivity|].
    intros k Hk. rewrite Hm' by tauto.
    apply lookup_insert_ne. tauto.
Qed.



End Excerpt.

Section ExcerptSamples.

Import Splitting Samples.



Lemma excerpt_ambiguous_plain_layer_witness :
  excerpt (document [tokens_layer; readings_layer]) 0 5 None false
  = inl (Py.NotImplementedError "ambiguous layer: readings").
Proof.
  destruct (excerpt_ambiguous_plain_layer 0 5 None false
              (document [tokens_layer; readings_layer]) [tokens_layer] []
              readings_layer eq_refl eq_refl eq_refl eq_refl eq_refl)
    as [_ ->].
  vm_compute. reflexivity.
Defined.

(** C9, as first stated, fails: the document has an ambiguous plain
    layer, which [layers_to_keep] leaves out, and [excerpt] returns the
    new text. *)
Lemma excerpt_ambiguous_plain_layer_left_out :
  In readings_layer (list_layers (document [tokens_layer; readings_layer]))
  /\ parent readings_layer = None
  /\ enveloping readings_layer = None
  /\ ambiguous readings_layer = true
  /\ excerpt (document [tokens_layer; readings_layer]) 0 5
       (Some ["tokens"%string]) false
     = inr (mkText "ab cd"
              [mkLayer "tokens" [] None None false None
                 [new_token 1 0 2; new_token 2 3 5]]).
Proof.
  split; [right; left; reflexivity|].
  repeat split; vm_compute; reflexivity.
Qed.

Lemma excerpt_enveloping_attributes_witness :
  excerpt (document [tokens_layer; sentences_layer ["kind"%string]]) 0 5
    None false
  = inl (Py.UnboundLocalError "sp").
Proof.
  destruct (excerpt_enveloping_attributes 0 5 None false
              (document [tokens_layer; sentences_layer ["kind"%string]])
              [tokens_layer] [] (sentences_layer ["kind"%string])
              eq_refl eq_refl eq_refl eq_refl eq_refl) as [_ ->].
  - discriminate.
  - left. vm_compute. discriminate.
  - repeat constructor.
  - vm_compute. reflexivity.
Defined.

(** C10, as first stated, fails: the sentence crosses the end of the
    window [[0,2)], no span of the enveloping layer is rebuilt, [sp] is
    never read and [excerpt] returns the new text. *)
Lemma excerpt_enveloping_nothing_rebuilt :
  excerpt (document [tokens_layer; sentences_layer ["kind"%string]]) 0 2
    None false
  = inr (mkText "ab"
           [mkLayer "tokens" [] None None false None [new_token 1 0 2];
            mkLayer "sentences" ["kind"%string] None (Some "tokens"%string)
              false None []]).
Proof. vm_compute. reflexivity. Qed.

(** Once an ambiguous attached layer has bound [sp], the values given to
    a rebuilt enveloping span are those of the last annotation seen, not
    those of the enveloping span. *)
Example excerpt_enveloping_attributes_of_sp :
  excerpt (document [tokens_layer; morph_layer true;
                     sentences_layer ["lemma"%string]]) 3 5 None true
  = inr (mkText "cd"
           [mkLayer "tokens" [] None None false None [new_token 2 0 2];
            mkLayer "morph" ["lemma"%string] (Some "tokens"%string) None
              true None
              [mkSpan 15 (Some 0) (Some 2)
                 {[ "lemma"%string := "cd"%string ]} (Some 2%nat) []];
            mkLayer "sentences" ["lemma"%string] None
              (Some "tokens"%string) false None
              [mkSpan 21 (Some 0) (Some 2)
                 {[ "lemma"%string := "cd"%string ]} None
                 [new_token 2 0 2]]]).
Proof. vm_compute. reflexivity. Qed.

End ExcerptSamples.

(** ** Conflict resolution *)

Section ResolveConflicts.

Import ConflictResolver.

Variables (conflict_resolving_strategy : strategy)
          (priority_attribute : option string) (keep_equal : bool).

(** The survivors are spans of the list. *)
Lemma survivors_incl (seen todo : list Span) (x : Span) :
  In x (survivors conflict_resolving_strategy priority_attribute keep_equal
          seen todo) ->
  In x todo.
Proof.
  revert seen. induction todo as [|span rest IH]; intros seen; simpl.
  - auto.
  - destruct (_ || _); simpl.
    + intros Hx. right. exact (IH _ Hx).
    + intros [Hx|Hx]; [left; exact Hx | right; exact (IH _ Hx)].
Qed.

Lemma existsb_incl {B : Type} (f : B -> bool) (small big : list B) :
  (forall x, In x small -> In x big) ->
  existsb f big = false -> existsb f small = false.
Proof.
  intros Hincl Hbig.
  destruct (existsb f small) eqn:Hsmall; [|reflexivity].
  apply existsb_exists in Hsmall as (x & Hx & Hfx).
  rewrite <- Hbig. symmetry. apply existsb_exists.
  exists x. split; [now apply Hincl | exact Hfx].
Qed.

(** A second pass over the survivors, with no more spans before them
    than the first pass had, drops nothing. *)
Lemma survivors_fixed (seen seen' todo : list Span) :
  (forall x, In x seen' -> In x seen) ->
  survivors conflict_resolving_strategy priority_attribute keep_equal seen'
    (survivors conflict_resolving_strategy priority_attribute keep_equal
       seen todo)
  = survivors conflict_resolving_strategy priority_attribute keep_equal
      seen todo.
Proof.
  revert seen seen'.
  induction todo as [|span rest IH]; intros seen seen' Hincl; simpl.
  - reflexivity.
  - destruct (existsb _ seen || existsb _ rest) eqn:Hdrop.
    + apply IH. intros x Hx. apply in_or_app. left. now apply Hincl.
    + apply orb_false_iff in Hdrop as [Hseen Hrest]. simpl.
      rewrite (existsb_incl _ seen' seen Hincl Hseen).
      rewrite (existsb_incl _ _ rest (survivors_incl _ rest) Hrest).
      simpl. f_equal. apply IH.
      intros x Hx. apply in_app_or in Hx as [Hx|Hx]; apply in_or_app;
        [left; now apply Hincl | right; exact Hx].
Qed.

(** C2. Resolving the conflicts of a layer that comes out of
    [resolve_conflicts] gives the same layer again, for every strategy,
    priority attribute and value of [keep_equal]. *)
Theorem resolve_conflicts_idempotent (layer : Layer) :
  resolve_conflicts
    (resolve_conflicts layer conflict_resolving_strategy priority_attribute
       keep_equal)
    conflict_resolving_strategy priority_attribute keep_equal
  = resolve_conflicts layer conflict_resolving_strategy priority_attribute
      keep_equal.
Proof.
  unfold resolve_conflicts. simpl. f_equal.
  apply survivors_fixed. auto.
Qed.

End ResolveConflicts.

(** ** Gaps *)

(** C4. On the text and the two layers of the test, the gaps are
    [(0,4)], [(8,9)], [(18,24)] and [(28,35)], and no others; each one
    ends before the next one starts. *)
Theorem gap_tagger_scenario :
  GapTagger.make_layer Samples.gaps_text [Samples.layer_1; Samples.layer_2]
    None None
  = [GapTagger.mkSpan 0 4 ∅; GapTagger.mkSpan 8 9 ∅;
     GapTagger.mkSpan 18 24 ∅; GapTagger.mkSpan 28 35 ∅]
  /\ StronglySorted (fun a b => end_ a <= start b)
       (GapTagger.make_layer Samples.gaps_text
          [Samples.layer_1; Samples.layer_2] None None)
  /\ Sorted span_le
       (GapTagger.make_layer Samples.gaps_text
          [Samples.layer_1; Samples.layer_2] None None).
Proof.
  assert (GapTagger.make_layer Samples.gaps_text
            [Samples.layer_1; Samples.layer_2] None None
          = [GapTagger.mkSpan 0 4 ∅; GapTagger.mkSpan 8 9 ∅;
             GapTagger.mkSpan 18 24 ∅; GapTagger.mkSpan 28 35 ∅]) as ->
    by (vm_compute; reflexivity).
  split; [reflexivity|]. split.
  - repeat constructor; cbn; lia.
  - repeat constructor; unfold span_le; cbn; lia.
Qed.

(** The second test, with [trim] and [decorator]. *)
Example gap_tagger_trimmed :
  GapTagger.make_layer Samples.gaps_text [Samples.layer_1; Samples.layer_2]
    (Some Samples.strip) (Some Samples.gap_length)
  = [GapTagger.mkSpan 0 3 {[ "gap_length"%string := 3 ]};
     GapTagger.mkSpan 19 23 {[ "gap_length"%string := 4 ]};
     GapTagger.mkSpan 29 35 {[ "gap_length"%string := 6 ]}].
Proof. vm_compute. reflexivity. Qed.

(** * Further properties *)

(** ** Filters of the second pass *)

Section Filters.

Context {A B : Type} `{Interval A} `{Interval B}.

(** What [_remove_overlapped_spans] keeps is a part of the list, in
    the order of the list, and none of it lies within one of the
    compound spans; what it drops does lie within one of them. *)
Lemma remove_overlapped_spans_kept (compound_token_spans : list A)
    (regular_spans : list B) :
  sublist (Tagger._remove_overlapped_spans compound_token_spans regular_spans)
          regular_spans
  /\ (forall x c,
        In x (Tagger._remove_overlapped_spans compound_token_spans
                regular_spans) ->
        In c compound_token_spans ->
        ~ (start c <= start x /\ end_ x <= end_ c))
  /\ (forall x,
        In x regular_spans ->
        ~ In x (Tagger._remove_overlapped_spans compound_token_spans
                  regular_spans) ->
        exists c, In c compound_token_spans
                  /\ start c <= start x /\ end_ x <= end_ c).
Proof.
  unfold Tagger._remove_overlapped_spans. split; [|split].
  - induction regular_spans as [|x rest IH]; simpl; [constructor|].
    destruct (negb _); [now apply sublist_skip | now apply sublist_cons].
  - intros x c Hx Hc [Hs He].
    apply filter_In in Hx as [_ Hx]. apply negb_true_iff in Hx.
    assert (existsb
              (fun c0 => (start c0 <=? start x) && (end_ x <=? end_ c0))
              compound_token_spans = true) as Hex.
    { apply existsb_exists. exists c. split; [exact Hc | lia]. }
    congruence.
  - intros x Hx Hout.
    destruct (existsb
                (fun c0 => (start c0 <=? start x) && (end_ x <=? end_ c0))
                compound_token_spans) eqn:Hex.
    + apply existsb_exists in Hex as (c & Hc & Hin).
      exists c. split; [exact Hc | lia].
    + exfalso. apply Hout. apply filter_In. split; [exact Hx|].
      now rewrite Hex.
Qed.

End Filters.

Section Covered.

Context {A : Type} `{Interval A}.

(** X1. For well-formed spans the strict query is the narrowest: a span
    returned with both flags strict is returned as well when only the
    left or only the right flag is strict. *)
Theorem get_covered_tokens_strict_narrowest (range_start range_end : Z)
    (spans : list A) (x : A) :
  Forall well_formed spans ->
  In x (Tagger._get_covered_tokens range_start range_end true true spans) ->
  In x (Tagger._get_covered_tokens range_start range_end true false spans)
  /\ In x (Tagger._get_covered_tokens range_start range_end false true
             spans)
  /\ range_start <= start x /\ end_ x <= range_end.
Proof.
  intros Hw Hx. unfold Tagger._get_covered_tokens in *.
  apply filter_In in Hx as [Hin Hc].
  rewrite Forall_forall in Hw.
  assert (well_formed x) as Hwx by (apply Hw; now apply list_elem_of_In).
  unfold Tagger.covers in Hc. simpl in Hc. unfold well_formed in Hwx.
  repeat split; try lia; apply filter_In; (split; [exact Hin|]);
    unfold Tagger.covers; simpl; lia.
Qed.

End Covered.

Lemma get_covered_tokens_strict_narrowest_witness :
  In (Tagger.mkSpan 2 3)
     (Tagger._get_covered_tokens 2 5 true false
        [Tagger.mkSpan 0 2; Tagger.mkSpan 2 3; Tagger.mkSpan 4 6])
  /\ In (Tagger.mkSpan 2 3)
        (Tagger._get_covered_tokens 2 5 false true
           [Tagger.mkSpan 0 2; Tagger.mkSpan 2 3; Tagger.mkSpan 4 6])
  /\ 2 <= start (Tagger.mkSpan 2 3) /\ end_ (Tagger.mkSpan 2 3) <= 5.
Proof.
  apply (get_covered_tokens_strict_narrowest 2 5
           [Tagger.mkSpan 0 2; Tagger.mkSpan 2 3; Tagger.mkSpan 4 6]
           (Tagger.mkSpan 2 3)).
  - repeat constructor; unfold well_formed; cbn; lia.
  - vm_compute. left. reflexivity.
Defined.

(** ** The index of tokenization hints *)

Section Hints.

Import Tagger.

Variables (self : CompoundTokenTagger) (raw_text : string).

Lemma collect_hints_sound_from (span_list : list HintSpan)
    (index0 index : gmap Z end_node) :
  collect_hints self raw_text span_list index0 = inr index ->
  forall k node,
    index !! k = Some node ->
    index0 !! k = Some node
    \/ exists sp, In sp span_list /\ hint_start sp = k /\ node = node_of sp
                  /\ accepted self raw_text sp = true.
Proof.
  revert index0.
  induction span_list as [|sp rest IH]; intros index0; simpl.
  - intros [= <-] k node Hk. left. exact Hk.
  - destruct (is_negative sp) eqn:Hneg.
    + intros Hrun k node Hk.
      destruct (IH _ Hrun k node Hk) as [Hold | (sp' & Hin & Hrest)];
        [left; exact Hold | right; exists sp'; split; [right|]; assumption].
    + destruct (index0 !! hint_start sp) eqn:Hfree; [discriminate|].
      destruct (discard self raw_text (hint_start sp) (hint_end sp))
        eqn:Hdisc; intros Hrun k node Hk.
      * destruct (IH _ Hrun k node Hk) as [Hold | (sp' & Hin & Hrest)];
          [left; exact Hold
          | right; exists sp'; split; [right|]; assumption].
      * destruct (IH _ Hrun k node Hk) as [Hold | (sp' & Hin & Hrest)].
        -- destruct (decide (hint_start sp = k)) as [<-|Hne].
           ++ rewrite lookup_insert_eq in Hold. injection Hold as <-.
              right. exists sp. unfold accepted. rewrite Hneg, Hdisc.
              repeat split. left. reflexivity.
           ++ rewrite lookup_insert_ne in Hold by exact Hne.
              left. exact Hold.
        -- right. exists sp'. split; [right|]; assumption.
Qed.

(** X2. Every entry of the index that stage 1 returns was made for a
    hint that starts at its key, is not a negative pattern and has none
    of the disallowed separators inside; the entry holds the end, the
    pattern type and the normalized value of that hint. *)
Theorem collect_hints_sound (span_list : list HintSpan)
    (index : gmap Z end_node) (k : Z) (node : end_node) :
  collect_hints self raw_text span_list ∅ = inr index ->
  index !! k = Some node ->
  exists sp, In sp span_list /\ hint_start sp = k /\ node = node_of sp
             /\ is_negative sp = false
             /\ discard self raw_text k (node_end node) = false.
Proof.
  intros Hrun Hk.
  destruct (collect_hints_sound_from span_list ∅ index Hrun k node Hk)
    as [Hempty | (sp & Hin & Hstart & Hnode & Hacc)].
  - rewrite lookup_empty in Hempty. discriminate.
  - exists sp. unfold accepted in Hacc.
    apply andb_true_iff in Hacc as [Hneg Hdisc].
    apply negb_true_iff in Hneg, Hdisc.
    subst k node. simpl. auto.
Qed.

(** An entry once made stays, and a later hint that is not negative and
    starts at its key stops the collection. *)
Lemma collect_hints_taken (span_list : list HintSpan)
    (index0 : gmap Z end_node) (sp : HintSpan) :
  In sp span_list ->
  is_negative sp = false ->
  is_Some (index0 !! hint_start sp) ->
  collect_hints self raw_text span_list index0
  = inl (Py.Exception "(!) Unexpected overlapping tokenization hints: ").
Proof.
  revert index0.
  induction span_list as [|sp' rest IH]; intros index0 Hin Hneg Htaken;
    [inversion Hin|].
  simpl. destruct Hin as [-> | Hin].
  - rewrite Hneg. destruct Htaken as [node ->]. reflexivity.
  - destruct (is_negative sp'); [now apply IH|].
    destruct (index0 !! hint_start sp') eqn:Hfree; [reflexivity|].
    destruct (discard self raw_text (hint_start sp') (hint_end sp'));
      [now apply IH|].
    apply IH; try assumption.
    destruct (decide (hint_start sp' = hint_start sp)) as [->|Hne].
    + rewrite lookup_insert_eq. eauto.
    + now rewrite lookup_insert_ne.
Qed.

(** X3. Two hints with the same start, neither of them negative, stop
    stage 1 with an exception as soon as the first of them has no
    separator inside, whatever the second one covers and whatever the
    other hints are. *)
Theorem collect_hints_duplicate_start (l1 l2 l3 : list HintSpan)
    (sp1 sp2 : HintSpan) :
  is_negative sp1 = false ->
  is_negative sp2 = false ->
  hint_start sp1 = hint_start sp2 ->
  discard self raw_text (hint_start sp1) (hint_end sp1) = false ->
  collect_hints self raw_text (l1 ++ sp1 :: l2 ++ sp2 :: l3) ∅
  = inl (Py.Exception "(!) Unexpected overlapping tokenization hints: ").
Proof.
  intros Hneg1 Hneg2 Hsame Hdisc.
  generalize (∅ : gmap Z end_node) as index0.
  induction l1 as [|sp rest IH]; intros index0; simpl.
  - rewrite Hneg1.
    destruct (index0 !! hint_start sp1); [reflexivity|].
    rewrite Hdisc. apply (collect_hints_taken _ _ sp2).
    + apply in_or_app. right. left. reflexivity.
    + exact Hneg2.
    + rewrite <- Hsame, lookup_insert_eq. eauto.
  - destruct (is_negative sp); [apply IH|].
    destruct (index0 !! hint_start sp); [reflexivity|].
    destruct (discard self raw_text (hint_start sp) (hint_end sp));
      apply IH.
Qed.

(** X4. When the hints that are not negative start at different
    positions, stage 1 raises nothing, and the index it returns holds
    every hint that is not negative and has no separator inside, under
    its start. *)
Theorem collect_hints_distinct_starts (span_list : list HintSpan) :
  NoDup (map hint_start
           (List.filter (fun sp => negb (is_negative sp)) span_list)) ->
  exists index,
    collect_hints self raw_text span_list ∅ = inr index
    /\ forall sp, In sp span_list -> accepted self raw_text sp = true ->
                  index !! hint_start sp = Some (node_of sp).
Proof.
  assert (forall index0,
             NoDup (map hint_start
                      (List.filter (fun sp => negb (is_negative sp))
                         span_list)) ->
             (forall sp, In sp span_list -> is_negative sp = false ->
                         index0 !! hint_start sp = None) ->
             exists index,
               collect_hints self raw_text span_list index0 = inr index
               /\ (forall k, (forall sp, In sp span_list ->
                                         is_negative sp = false ->
                                         hint_start sp <> k) ->
                             index !! k = index0 !! k)
               /\ forall sp, In sp span_list ->
                             accepted self raw_text sp = true ->
                             index !! hint_start sp = Some (node_of sp))
    as Hgen.
  { induction span_list as [|sp rest IH]; intros index0 Hnodup Hfree; simpl.
    - exists index0. repeat split; auto. intros sp [].
    - destruct (is_negative sp) eqn:Hneg; simpl in Hnodup.
      + rewrite Hneg in Hnodup. simpl in Hnodup.
        destruct (IH index0 Hnodup) as (index & Hrun & Hother & Hall).
        { intros sp' Hin. apply Hfree. right. exact Hin. }
        exists index. split; [exact Hrun|]. split.
        * intros k Hk. apply Hother. intros sp' Hin. apply Hk.
          right. exact Hin.
        * intros sp' [<- | Hin] Hacc.
          -- unfold accepted in Hacc. rewrite Hneg in Hacc. discriminate.
          -- now apply Hall.
      + rewrite Hneg in Hnodup. simpl in Hnodup.
        apply NoDup_cons in Hnodup as [Hfresh Hnodup].
        assert (forall sp', In sp' rest -> is_negative sp' = false ->
                            hint_start sp' <> hint_start sp) as Hapart.
        { intros sp' Hin Hneg' Heq. apply Hfresh.
          apply list_elem_of_In. rewrite <- Heq. apply in_map.
          apply filter_In. split; [exact Hin | now rewrite Hneg']. }
        rewrite (Hfree sp (or_introl eq_refl) Hneg).
        destruct (discard self raw_text (hint_start sp) (hint_end sp))
          eqn:Hdisc.
        * destruct (IH index0 Hnodup) as (index & Hrun & Hother & Hall).
          { intros sp' Hin. apply Hfree. right. exact Hin. }
          exists index. split; [exact Hrun|]. split.
          -- intros k Hk. apply Hother. intros sp' Hin. apply Hk.
             right. exact Hin.
          -- intros sp' [<- | Hin] Hacc.
             ++ unfold accepted in Hacc. rewrite Hdisc in Hacc.
                rewrite andb_false_r in Hacc. discriminate.
             ++ now apply Hall.
        * destruct (IH (<[hint_start sp := node_of sp]> index0) Hnodup)
            as (index & Hrun & Hother & Hall).
          { intros sp' Hin Hneg'. rewrite lookup_insert_ne.
            - apply Hfree; [right; exact Hin | exact Hneg'].
            - intros Heq. now apply (Hapart sp' Hin Hneg'). }
          exists index. split; [exact Hrun|]. split.
          -- intros k Hk. rewrite Hother.
             ++ apply lookup_insert_ne. apply Hk; [left; reflexivity|].
                exact Hneg.
             ++ intros sp' Hin. apply Hk. right. exact Hin.
          -- intros sp' [<- | Hin] Hacc.
             ++ rewrite Hother; [apply lookup_insert_eq|].
                intros sp' Hin Hneg'. now apply Hapart.
             ++ now apply Hall. }
  intros Hnodup.
  destruct (Hgen ∅ Hnodup) as (index & Hrun & _ & Hall).
  { intros sp _ _. apply lookup_empty. }
  exists index. split; assumption.
Qed.

End Hints.

Section HintsSamples.

Import Tagger.

Lemma collect_hints_sound_witness :
  exists sp,
    In sp [mkHintSpan 0 3 (Some "abbreviation"%string) None]
    /\ hint_start sp = 0
    /\ mkEndNode 3 (Some "abbreviation"%string) None = node_of sp
    /\ is_negative sp = false
    /\ discard (Samples.tagger []) "Dr. X" 0
         (node_end (mkEndNode 3 (Some "abbreviation"%string) None))
       = false.
Proof.
  apply (collect_hints_sound (Samples.tagger []) "Dr. X"
           [mkHintSpan 0 3 (Some "abbreviation"%string) None]
           {[ 0 := mkEndNode 3 (Some "abbreviation"%string) None ]}).
  - vm_compute. reflexivity.
  - apply lookup_singleton_eq.
Defined.

Lemma collect_hints_duplicate_start_witness :
  collect_hints (Samples.tagger []) "Dr. X"
    [mkHintSpan 0 3 (Some "abbreviation"%string) None;
     mkHintSpan 0 2 None None] ∅
  = inl (Py.Exception "(!) Unexpected overlapping tokenization hints: ").
Proof.
  apply (collect_hints_duplicate_start (Samples.tagger []) "Dr. X" [] [] []
           (mkHintSpan 0 3 (Some "abbreviation"%string) None)
           (mkHintSpan 0 2 None None)); reflexivity.
Defined.

Lemma collect_hints_distinct_starts_witness :
  exists index,
    collect_hints (Samples.tagger []) "Dr. X"
      [mkHintSpan 0 3 (Some "abbreviation"%string) None;
       mkHintSpan 4 5 None None] ∅
    = inr index
    /\ forall sp,
         In sp [mkHintSpan 0 3 (Some "abbreviation"%string) None;
                mkHintSpan 4 5 None None] ->
         accepted (Samples.tagger []) "Dr. X" sp = true ->
         index !! hint_start sp = Some (node_of sp).
Proof.
  apply (collect_hints_distinct_starts (Samples.tagger []) "Dr. X"
           [mkHintSpan 0 3 (Some "abbreviation"%string) None;
            mkHintSpan 4 5 None None]).
  cbn. repeat constructor; intros Hin;
    repeat (apply elem_of_cons in Hin as [Hin|Hin]; [discriminate|]);
    inversion Hin.
Defined.

End HintsSamples.

(** ** Hints and separators *)

Section HintCompounds.

Import Tagger.

(** What the scan returns is what it had or the index of a token that
    ends where the hint ends. *)
Lemma scan_end_token_sound (hint_end : Z) (toks : list Span) (j0 : nat)
    (found : option nat) (j : nat) :
  scan_end_token hint_end toks j0 found = Some j ->
  found = Some j
  \/ exists t, (j0 <= j)%nat /\ toks !! (j - j0)%nat = Some t
               /\ span_end t = hint_end.
Proof.
  revert j0 found.
  induction toks as [|tok rest IH]; intros j0 found; simpl.
  - intros ->. left. reflexivity.
  - destruct (span_end tok =? hint_end) eqn:Hend.
    + intros Hrun. destruct (IH _ _ Hrun) as [[= <-] | (t & Hle & Ht & He)].
      * right. exists tok. replace (j0 - j0)%nat with 0%nat by lia.
        split; [lia|]. split; [reflexivity | lia].
      * right. exists t. split; [lia|].
        replace (j - j0)%nat with (S (j - S j0)) by lia. split; assumption.
    + destruct (hint_end <? span_start tok); [intros ->; now left|].
      intros Hrun. destruct (IH _ _ Hrun) as [-> | (t & Hle & Ht & He)];
        [now left|].
      right. exists t. split; [lia|].
      replace (j - j0)%nat with (S (j - S j0)) by lia. split; assumption.
Qed.

(** The bounds of the compound over the tokens [i..j]. *)
Lemma hint_compound_bounds (tokens : list Span) (i j : nat)
    (tok_i tok_j : Span) (node : end_node) :
  (i <= j)%nat ->
  tokens !! i = Some tok_i ->
  tokens !! j = Some tok_j ->
  start (hint_compound tokens i j node) = span_start tok_i
  /\ end_ (hint_compound tokens i j node) = span_end tok_j.
Proof.
  intros Hij Hi Hj. unfold hint_compound, Py.list_slice. cbn. split.
  - rewrite (drop_S _ _ _ Hi).
    replace (j + 1 - i)%nat with (S (j - i)) by lia. reflexivity.
  - assert (drop i tokens !! (j - i)%nat = Some tok_j) as Hj'.
    { rewrite lookup_drop, <- Hj. f_equal. lia. }
    replace (j + 1 - i)%nat with (S (j - i)) by lia.
    rewrite (take_S_r _ _ _ Hj'), last_snoc. reflexivity.
Qed.

(** X5. The compound tokens that the hints add keep to the separators:
    with the index that stage 1 made, whatever the hint of a token adds
    to the queue has none of the disallowed separators inside. *)
Theorem hint_compounds_keep_separators (self : CompoundTokenTagger)
    (raw_text : string) (hints : list HintSpan)
    (tokenization_hints : gmap Z end_node) (tokens : list Span) (i : nat)
    (token_span : Span) (queue : list EnvelopingSpan) :
  collect_hints self raw_text hints ∅ = inr tokenization_hints ->
  tokens !! i = Some token_span ->
  apply_tokenization_hint self tokens tokenization_hints i token_span queue
  = queue
  \/ exists spl,
      apply_tokenization_hint self tokens tokenization_hints i token_span
        queue
      = queue ++ [spl]
      /\ start spl = span_start token_span
      /\ discard self raw_text (start spl) (end_ spl) = false.
Proof.
  intros Hrun Hi. unfold apply_tokenization_hint.
  destruct (tokenization_hints !! span_start token_span) as [node|] eqn:Hk;
    [|now left].
  destruct (scan_end_token (node_end node) (drop i tokens) i None)
    as [[|j]|] eqn:Hscan; simpl; try now left.
  destruct (scan_end_token_sound _ _ _ _ _ Hscan)
    as [[=] | (t & Hle & Ht & Hend)].
  rewrite lookup_drop in Ht.
  replace (i + (S j - i))%nat with (S j) in Ht by lia.
  destruct (hint_compound_bounds tokens i (S j) token_span t node Hle Hi Ht)
    as [Hstart Hstop].
  assert (discard self raw_text (span_start token_span) (node_end node)
          = false) as Hdisc.
  { destruct (collect_hints_sound_from self raw_text hints ∅
                tokenization_hints Hrun _ node Hk)
      as [Hempty | (sp & _ & <- & -> & Hacc)].
    - rewrite lookup_empty in Hempty. discriminate.
    - unfold accepted in Hacc. apply andb_true_iff in Hacc as [_ Hacc].
      now apply negb_true_iff in Hacc. }
  assert (exists spl,
             queue ++ [hint_compound tokens i (S j) node] = queue ++ [spl]
             /\ start spl = span_start token_span
             /\ discard self raw_text (start spl) (end_ spl) = false)
    as Hadded.
  { exists (hint_compound tokens i (S j) node).
    split; [reflexivity|]. split; [exact Hstart|].
    rewrite Hstart, Hstop, Hend. exact Hdisc. }
  destruct (custom_abbreviations self); [now right|].
  destruct (last queue); [|now right].
  destruct (negb _); [now right | now left].
Qed.

End HintCompounds.

Lemma hint_compounds_keep_separators_witness :
  exists spl,
    Tagger.apply_tokenization_hint (Samples.tagger [])
      [Tagger.mkSpan 0 2; Tagger.mkSpan 2 3; Tagger.mkSpan 4 5]
      {[ 0 := Tagger.mkEndNode 3 (Some "abbreviation"%string) None ]}
      0 (Tagger.mkSpan 0 2) []
    = [] ++ [spl]
    /\ start spl = 0
    /\ Tagger.discard (Samples.tagger []) "Dr. X" (start spl) (end_ spl)
       = false.
Proof.
  destruct (hint_compounds_keep_separators (Samples.tagger []) "Dr. X"
              [Tagger.mkHintSpan 0 3 (Some "abbreviation"%string) None]
              {[ 0 := Tagger.mkEndNode 3 (Some "abbreviation"%string) None ]}
              [Tagger.mkSpan 0 2; Tagger.mkSpan 2 3; Tagger.mkSpan 4 5]
              0 (Tagger.mkSpan 0 2) [])
    as [Hsame | Hadded].
  - vm_compute. reflexivity.
  - reflexivity.
  - vm_compute in Hsame. discriminate.
  - exact Hadded.
Defined.

(** ** Runs of hyphenated tokens *)

Section Runs.

Import Tagger.

Variables (self : CompoundTokenTagger) (raw_text : string)
          (tokens : list Span) (tokenization_hints : gmap Z end_node).

Lemma sweep_step_run_inv (st : sweep_state) (i : nat) (token_span : Span) :
  tag_hyphenations self = true ->
  run_inv st i ->
  run_inv (sweep_step self raw_text tokens tokenization_hints st i
             token_span) (S i).
Proof.
  intros Htag Hinv. unfold sweep_step. rewrite Htag.
  unfold run_inv in *. unfold hyphenation_transition, adjacent.
  destruct (hyphenation_status_ st); simpl.
  - destruct Hinv as [[-> Hlast] | Hstart].
    + rewrite Hlast. simpl. right. lia.
    + destruct (last_end_ st) as [e|]; simpl; [|right; lia].
      destruct ((e =? span_start token_span)
                && String.eqb (text raw_text token_span) "-"); simpl;
        [lia | right; lia].
  - destruct (match last_end_ st with
              | Some e => e =? span_start token_span
              | None => false
              end); simpl; [lia|].
    assert ((hyphenation_start_ st + 1 <? i)%nat = true) as ->
      by (apply Nat.ltb_lt; lia).
    simpl. right. lia.
  - destruct (match last_end_ st with
              | Some e => e =? span_start token_span
              | None => false
              end && String.eqb (text raw_text token_span) "-"); simpl;
      [lia|].
    assert ((hyphenation_start_ st + 1 <? i)%nat = true) as ->
      by (apply Nat.ltb_lt; lia).
    simpl. right. lia.
  - contradiction.
Qed.

Lemma sweep_from_run_inv (st : sweep_state) (i : nat) (todo : list Span) :
  tag_hyphenations self = true ->
  run_inv st i ->
  run_inv (sweep_from self raw_text tokens tokenization_hints st i todo)
          (i + length todo).
Proof.
  intros Htag. revert st i.
  induction todo as [|tok rest IH]; intros st i Hinv; simpl.
  - now rewrite Nat.add_0_r.
  - replace (i + S (length rest))%nat with (S i + length rest)%nat by lia.
    apply IH. now apply sweep_step_run_inv.
Qed.

Lemma sweep_from_status_off (st : sweep_state) (i : nat) (todo : list Span) :
  tag_hyphenations self = false ->
  hyphenation_status_
    (sweep_from self raw_text tokens tokenization_hints st i todo)
  = hyphenation_status_ st.
Proof.
  intros Htag. revert st i.
  induction todo as [|tok rest IH]; intros st i; simpl; [reflexivity|].
  rewrite IH. unfold sweep_step. now rewrite Htag.
Qed.

(** X6. The state ['end'] never outlives the turn of the loop in which
    the run ends: after any number of tokens of the sweep, the run is
    in [None], ['-'] or ['second'], whatever the hints, the custom
    abbreviations and the setting of [tag_hyphenations]. *)
Theorem sweep_never_rests_in_end (n : nat) :
  In (hyphenation_status_
        (sweep_from self raw_text tokens tokenization_hints
           (mkSweep [] status_None 0%nat None) 0%nat (take n tokens)))
     [status_None; status_hyphen; status_second].
Proof.
  destruct (tag_hyphenations self) eqn:Htag.
  - pose proof (sweep_from_run_inv (mkSweep [] status_None 0%nat None) 0%nat
                  (take n tokens) Htag) as Hinv.
    unfold run_inv at 2 in Hinv.
    destruct (hyphenation_status_ _); simpl; try tauto.
    exfalso. apply Hinv. simpl. left. split; reflexivity.
  - rewrite sweep_from_status_off by exact Htag. simpl. tauto.
Qed.

End Runs.

Section InnerRuns.

Import Tagger.

Variables (self : CompoundTokenTagger) (raw_text : string)
          (tokens : list Span).

Hypothesis no_custom_abbreviations : custom_abbreviations self = [].

Lemma sweep_step_inner_runs (st : sweep_state) (i : nat)
    (token_span : Span) :
  (i < length tokens)%nat ->
  Forall (inner_run tokens) (compound_tokens_lists st) ->
  Forall (inner_run tokens)
    (compound_tokens_lists
       (sweep_step self raw_text tokens ∅ st i token_span)).
Proof.
  intros Hi Hqueue. unfold sweep_step.
  rewrite no_custom_abbreviations.
  unfold apply_tokenization_hint. rewrite lookup_empty.
  destruct (tag_hyphenations self); simpl; [|exact Hqueue].
  destruct (hyphenation_transition raw_text (hyphenation_status_ st)
              (hyphenation_start_ st) (last_end_ st) i token_span)
    as [status hyphenation_start].
  destruct status; simpl; try exact Hqueue.
  destruct (hyphenation_start + 1 <? i)%nat eqn:Hlong; simpl;
    [|exact Hqueue].
  apply Nat.ltb_lt in Hlong. unfold close_run.
  destruct (_letter_pattern_search self _); [|exact Hqueue].
  apply Forall_app. split; [exact Hqueue|].
  constructor; [|constructor].
  exists hyphenation_start, i. repeat split; assumption.
Qed.

Lemma sweep_from_inner_runs (st : sweep_state) (i : nat) (todo : list Span) :
  (i + length todo <= length tokens)%nat ->
  Forall (inner_run tokens) (compound_tokens_lists st) ->
  Forall (inner_run tokens)
    (compound_tokens_lists (sweep_from self raw_text tokens ∅ st i todo)).
Proof.
  revert st i.
  induction todo as [|tok rest IH]; intros st i Hlen Hqueue; simpl;
    [exact Hqueue|].
  simpl in Hlen. apply IH; [lia|].
  apply sweep_step_inner_runs; [lia | exact Hqueue].
Qed.

(** X7. Without hints and custom abbreviations, all that the sweep
    queues are runs of hyphenated tokens, and each of them is made of at
    least two tokens in a row and stops before the last token of the
    layer: a run that is still open when the tokens end is not
    queued. *)
Theorem sweep_queues_inner_runs :
  exists st,
    token_sweep self raw_text tokens [] = inr st
    /\ Forall (inner_run tokens) (compound_tokens_lists st).
Proof.
  unfold token_sweep. simpl. eexists. split; [reflexivity|].
  apply sweep_from_inner_runs; [simpl; lia | constructor].
Qed.

End InnerRuns.

Lemma sweep_queues_inner_runs_witness :
  exists st,
    Tagger.token_sweep (Samples.tagger []) "a-b c-d"
      [Tagger.mkSpan 0 1; Tagger.mkSpan 1 2; Tagger.mkSpan 2 3;
       Tagger.mkSpan 4 5; Tagger.mkSpan 5 6; Tagger.mkSpan 6 7] []
    = inr st
    /\ Forall
         (Tagger.inner_run
            [Tagger.mkSpan 0 1; Tagger.mkSpan 1 2; Tagger.mkSpan 2 3;
             Tagger.mkSpan 4 5; Tagger.mkSpan 5 6; Tagger.mkSpan 6 7])
         (Tagger.compound_tokens_lists st).
Proof.
  apply (sweep_queues_inner_runs (Samples.tagger []) "a-b c-d"
           [Tagger.mkSpan 0 1; Tagger.mkSpan 1 2; Tagger.mkSpan 2 3;
            Tagger.mkSpan 4 5; Tagger.mkSpan 5 6; Tagger.mkSpan 6 7]).
  reflexivity.
Defined.

(** In ["a-b c-d"] the first run is queued and the second, which the
    end of the tokens cuts short, is not. *)
Example sweep_open_run_at_end :
  Tagger.compound_tokens_lists
    <$> (match Tagger.token_sweep (Samples.tagger []) "a-b c-d"
                 [Tagger.mkSpan 0 1; Tagger.mkSpan 1 2; Tagger.mkSpan 2 3;
                  Tagger.mkSpan 4 5; Tagger.mkSpan 5 6; Tagger.mkSpan 6 7]
                 [] with
         | inr st => Some st
         | inl _ => None
         end)
  = Some [Tagger.mkEnvelopingSpan
            [Tagger.mkSpan 0 1; Tagger.mkSpan 1 2; Tagger.mkSpan 2 3]
            ["hyphenation"%string] None].
Proof. vm_compute. reflexivity. Qed.

(** ** Custom abbreviations and the queue *)

Section CustomAbbreviation.

Import Tagger.

(** X8. A call of [_try_to_add_custom_abbreviation] leaves the queue as
    it is, or puts one compound at its end, or puts one compound in the
    place of its last element; the candidates before the last one are
    never touched. The compound it puts in starts with the token, is of
    type [non_ending_abbreviation] and has none of the disallowed
    separators inside. *)
Theorem custom_abbreviation_touches_last_only (self : CompoundTokenTagger)
    (raw_text : string) (tokens : list Span) (token_id : nat)
    (token_span : Span) (queue : list EnvelopingSpan) :
  tokens !! token_id = Some token_span ->
  _try_to_add_custom_abbreviation self raw_text tokens token_id queue = queue
  \/ exists spl,
      (_try_to_add_custom_abbreviation self raw_text tokens token_id queue
       = queue ++ [spl]
       \/ _try_to_add_custom_abbreviation self raw_text tokens token_id queue
          = removelast queue ++ [spl])
      /\ start spl = span_start token_span
      /\ type spl = ["non_ending_abbreviation"%string]
      /\ discard self raw_text (start spl) (end_ spl) = false.
Proof.
  intros Htok. unfold _try_to_add_custom_abbreviation. rewrite Htok.
  destruct (Py.str_in _ _); [|now left].
  set (next_token := if Z.of_nat token_id + 1 <? Z.of_nat (length tokens) - 1
                     then _ else _).
  set (spl := if String.eqb next_token "." then _ else _).
  assert (start spl = span_start token_span
          /\ type spl = ["non_ending_abbreviation"%string]) as [Hstart Htype].
  { subst spl. unfold Py.list_slice.
    destruct (String.eqb next_token "."); cbn;
      rewrite (drop_S _ _ _ Htok);
      [replace (token_id + 2 - token_id)%nat with 2%nat by lia
      |replace (token_id + 1 - token_id)%nat with 1%nat by lia];
      split; reflexivity. }
  destruct (discard self raw_text (start spl) (end_ spl)) eqn:Hdisc;
    [now left|].
  destruct (last queue) as [last_compound|].
  - destruct (_ && _); [now left|].
    destruct (_ && _); [right; exists spl; auto 6|].
    destruct (_ && _); [now left | right; exists spl; auto 6].
  - right. exists spl. auto 6.
Qed.

End CustomAbbreviation.

Lemma custom_abbreviation_touches_last_only_witness :
  exists spl,
    (Tagger._try_to_add_custom_abbreviation (Samples.tagger ["Dr"%string])
       "Dr. X" [Tagger.mkSpan 0 2; Tagger.mkSpan 2 3; Tagger.mkSpan 4 5] 0 []
     = [] ++ [spl]
     \/ Tagger._try_to_add_custom_abbreviation
          (Samples.tagger ["Dr"%string]) "Dr. X"
          [Tagger.mkSpan 0 2; Tagger.mkSpan 2 3; Tagger.mkSpan 4 5] 0 []
        = removelast [] ++ [spl])
    /\ start spl = 0
    /\ Tagger.type spl = ["non_ending_abbreviation"%string]
    /\ Tagger.discard (Samples.tagger ["Dr"%string]) "Dr. X" (start spl)
         (end_ spl) = false.
Proof.
  destruct (custom_abbreviation_touches_last_only
              (Samples.tagger ["Dr"%string]) "Dr. X"
              [Tagger.mkSpan 0 2; Tagger.mkSpan 2 3; Tagger.mkSpan 4 5] 0
              (Tagger.mkSpan 0 2) [] eq_refl) as [Hsame | Hput].
  - vm_compute in Hsame. discriminate.
  - exact Hput.
Defined.

(** ** The second level of compounding *)

Section SecondLevel.

Import Tagger.

(** *** Types of a merged compound *)

Lemma str_in_remove_first (x y : string) (xs : list string) :
  x <> y ->
  Py.str_in y xs = true ->
  Py.str_in y (remove_first x xs) = true.
Proof.
  intros Hne. unfold Py.str_in.
  induction xs as [|z rest IH]; simpl; [discriminate|].
  destruct (String.eqb x z) eqn:Hxz.
  - apply String.eqb_eq in Hxz. subst z.
    assert (String.eqb y x = false) as ->
      by (apply String.eqb_neq; congruence).
    simpl. auto.
  - simpl. destruct (String.eqb y z); simpl; auto.
Qed.

Lemma str_in_nonempty (y : string) (xs : list string) :
  Py.str_in y xs = true -> xs <> [].
Proof. destruct xs; [discriminate | discriminate]. Qed.

Lemma In_remove_first (x y : string) (xs : list string) :
  x <> y -> In y xs -> In y (remove_first x xs).
Proof.
  intros Hne. induction xs as [|z rest IH]; simpl; [auto|].
  destruct (String.eqb x z) eqn:Hxz.
  - apply String.eqb_eq in Hxz. subst z. intros [Hy | Hy]; congruence.
  - intros [Hy | Hy]; [left; exact Hy | right; auto].
Qed.

Lemma remove_first_incl (x y : string) (xs : list string) :
  In y (remove_first x xs) -> In y xs.
Proof.
  induction xs as [|z rest IH]; simpl; [auto|].
  destruct (String.eqb x z); simpl; [auto|].
  intros [Hy | Hy]; auto.
Qed.

(** X9. A compound that [_create_new_spanlist] returns always has a
    type: [tokenization_hint] when neither the merged compounds nor the
    joining span bring one, and otherwise types they brought; the two
    repairs never remove the last one, since [case_ending] and
    [hyphenation] outlive them. *)
Theorem create_new_spanlist_types (fuel : nat) (self : CompoundTokenTagger)
    (raw_text : string) (compound_token_spans : list EnvelopingSpan)
    (regular_spans : list Span) (joining_span : BoundaryHint)
    (spl : EnvelopingSpan) :
  _create_new_spanlist fuel self raw_text compound_token_spans regular_spans
    joining_span = Returns spl ->
  type spl <> []
  /\ (all_types_of compound_token_spans joining_span = [] ->
      type spl = ["tokenization_hint"%string])
  /\ (forall t, In t (type spl) ->
                all_types_of compound_token_spans joining_span <> [] ->
                In t (all_types_of compound_token_spans joining_span))
  /\ (forall t, t = "case_ending"%string \/ t = "hyphenation"%string ->
                In t (all_types_of compound_token_spans joining_span) ->
                In t (type spl)).
Proof.
  unfold _create_new_spanlist.
  destruct (normalized_str_of _ _ _ _) as [normalized_str| |]; simpl;
    try discriminate.
  generalize (all_types_of compound_token_spans joining_span) as all_types.
  generalize (gather_tokens compound_token_spans regular_spans)
    as all_covered_tokens.
  intros all_covered_tokens all_types.
  destruct all_types as [|t0 rest] eqn:Htypes.
  - intros [= <-]. simpl. repeat split; try discriminate; auto.
  - assert (all_types <> []) as Hne0 by (rewrite Htypes; discriminate).
    rewrite <- Htypes. clear Htypes.
    unfold repair_case_ending.
    assert (forall types1,
               (types1 = all_types
                \/ (types1 = remove_first "non_ending_abbreviation" all_types
                    /\ Py.str_in "case_ending" all_types = true)) ->
               and_then (repair_sign self raw_text all_covered_tokens types1)
                 (fun all_types0 =>
                    Returns (mkEnvelopingSpan all_covered_tokens all_types0
                               normalized_str)) = Returns spl ->
               type spl <> []
               /\ (all_types = [] -> type spl = ["tokenization_hint"%string])
               /\ (forall t, In t (type spl) -> all_types <> [] ->
                             In t all_types)
               /\ (forall t, t = "case_ending"%string
                             \/ t = "hyphenation"%string ->
                             In t all_types -> In t (type spl))) as Hsecond.
    { intros types1 Hfirst.
      assert (types1 <> []) as Hne1.
      { destruct Hfirst as [-> | [-> Hcase]]; [exact Hne0|].
        apply (str_in_nonempty "case_ending").
        now apply str_in_remove_first. }
      assert (forall t, In t types1 -> In t all_types) as Hincl1.
      { intros t Ht. destruct Hfirst as [-> | [-> _]]; [exact Ht|].
        now apply remove_first_incl in Ht. }
      assert (forall t, t = "case_ending"%string \/ t = "hyphenation"%string ->
                        In t all_types -> In t types1) as Hkeep1.
      { intros t Ht Hin. destruct Hfirst as [-> | [-> _]]; [exact Hin|].
        apply In_remove_first; [|exact Hin].
        destruct Ht as [-> | ->]; discriminate. }
      assert (forall t, In t types1 -> In t types1) as Hid by auto.
      unfold repair_sign.
      destruct (Py.str_in "sign" types1 && Py.str_in "hyphenation" types1)
        eqn:Hsign.
      - apply andb_true_iff in Hsign as [_ Hhyph].
        destruct (covered_range all_covered_tokens) as [[s e]| |]; simpl;
          try discriminate.
        destruct (Py.slice raw_text s e) as [|c rest']; simpl;
          [discriminate|].
        destruct (LETTERS self c); simpl; intros [= <-]; simpl.
        + split.
          { apply (str_in_nonempty "hyphenation").
            now apply str_in_remove_first. }
          split; [intros Hnil; contradiction|]. split.
          { intros t Ht _. apply Hincl1. now apply remove_first_incl in Ht. }
          { intros t Ht Hin. apply In_remove_first; [|now apply Hkeep1].
            destruct Ht as [-> | ->]; discriminate. }
        + repeat split; auto. intros Hnil; contradiction.
      - simpl. intros [= <-]. simpl.
        repeat split; auto. intros Hnil; contradiction. }
    destruct (Py.str_in "non_ending_abbreviation" all_types
              && Py.str_in "case_ending" all_types) eqn:Hcase.
    + apply andb_true_iff in Hcase as [_ Hcase].
      destruct (covered_range all_covered_tokens) as [[s e]| |]; simpl;
        try discriminate.
      destruct (endswith (Py.slice raw_text s e) "st"); simpl;
        apply Hsecond; auto.
    + simpl. apply Hsecond. auto.
Qed.

(** *** The stitching loop *)

(** X10. The stitching loop ends, within [end_index - i] turns, when
    every normalization ends more than one position after it starts. *)
Theorem stitch_ends (raw_text : string)
    (all_normalizations : gmap Z (string * Z)) (end_index : Z) :
  (forall k norm stop,
      all_normalizations !! k = Some (norm, stop) -> k + 1 < stop) ->
  forall fuel i normalized last_was_single_symbol,
    (Z.to_nat (end_index - i) <= fuel)%nat ->
    exists parts,
      stitch fuel raw_text all_normalizations end_index i normalized
        last_was_single_symbol = Returns parts.
Proof.
  intros Hlong fuel.
  induction fuel as [|fuel IH]; intros i normalized single Hfuel.
  - simpl. assert ((i <? end_index) = false) as -> by lia. eauto.
  - simpl. destruct (i <? end_index) eqn:Hlt; [|eauto].
    destruct (all_normalizations !! (i - 1)) as [[norm stop]|] eqn:Hprev.
    + pose proof (Hlong _ _ _ Hprev) as Hstop.
      destruct (last normalized) as [last_norm|].
      * destruct (negb single && _ && _).
        -- apply IH. lia.
        -- destruct (all_normalizations !! i) as [[norm' stop']|] eqn:Hat.
           ++ pose proof (Hlong _ _ _ Hat). apply IH. lia.
           ++ apply IH. lia.
      * destruct (all_normalizations !! i) as [[norm' stop']|] eqn:Hat.
        -- pose proof (Hlong _ _ _ Hat). apply IH. lia.
        -- apply IH. lia.
    + destruct (last normalized);
        (destruct (all_normalizations !! i) as [[norm' stop']|] eqn:Hat;
         [pose proof (Hlong _ _ _ Hat); apply IH; lia | apply IH; lia]).
Qed.

(** Once the loop stands right after a one-character normalization whose
    text begins with that character, and what was added last ends with
    it, every turn adds the rest of that text and stays there. *)
Lemma stitch_stuck (raw_text : string)
    (all_normalizations : gmap Z (string * Z)) (end_index k : Z)
    (norm : string) :
  all_normalizations !! k = Some (norm, k + 1) ->
  k + 1 < end_index ->
  startswith norm (Py.slice raw_text k (k + 1)) = true ->
  endswith (tail_of norm) (Py.slice raw_text k (k + 1)) = true ->
  forall fuel normalized last_norm,
    last normalized = Some last_norm ->
    endswith last_norm (Py.slice raw_text k (k + 1)) = true ->
    stitch fuel raw_text all_normalizations end_index (k + 1) normalized
      false = Runs_on.
Proof.
  intros Hk Hend Hstarts Hends fuel.
  induction fuel as [|fuel IH]; intros normalized last_norm Hlast Hlastends;
    simpl.
  - assert ((k + 1 <? end_index) = true) as -> by lia. reflexivity.
  - assert ((k + 1 <? end_index) = true) as -> by lia.
    replace (k + 1 - 1) with k by lia.
    rewrite Hk, Hlast, Hlastends, Hstarts. simpl.
    apply (IH _ (tail_of norm)); [apply last_snoc | exact Hends].
Qed.

(** X11. The stitching loop never ends when the covered range begins
    with a one-character span whose normalization begins and ends with
    that character, and still ends with it once its first character is
    dropped, as soon as the range goes on after that span: whatever the
    number of turns allowed, no result is reached. *)
Theorem stitch_runs_on (raw_text : string)
    (all_normalizations : gmap Z (string * Z)) (end_index k : Z)
    (norm : string) (fuel : nat) :
  all_normalizations !! k = Some (norm, k + 1) ->
  k + 1 < end_index ->
  startswith norm (Py.slice raw_text k (k + 1)) = true ->
  endswith norm (Py.slice raw_text k (k + 1)) = true ->
  endswith (tail_of norm) (Py.slice raw_text k (k + 1)) = true ->
  stitch fuel raw_text all_normalizations end_index k [] true = Runs_on.
Proof.
  intros Hk Hend Hstarts Hends Htail.
  destruct fuel as [|fuel]; simpl.
  - assert ((k <? end_index) = true) as -> by lia. reflexivity.
  - assert ((k <? end_index) = true) as -> by lia.
    destruct (all_normalizations !! (k - 1)) as [[norm' stop']|];
      rewrite Hk;
      apply (stitch_stuck raw_text all_normalizations end_index k norm Hk
               Hend Hstarts Htail fuel [norm] norm eq_refl Hends).
Qed.

(** *** Hints that cover nothing *)

Lemma get_covered_tokens_loose {A : Type} `{Interval A} (a b : Z)
    (xs : list A) :
  _get_covered_tokens a b false false xs = [].
Proof.
  unfold _get_covered_tokens.
  induction xs as [|x rest IH]; simpl; [reflexivity | exact IH].
Qed.

(** X12. A hint of the second level whose flags are both loose joins
    nothing: whatever the tokens and the queue, the queue comes back as
    it was, and so it does after any list of such hints. *)
Theorem second_level_loose_hints (fuel : nat) (self : CompoundTokenTagger)
    (raw_text : string) (tokens : list Span) (span_list : list BoundaryHint)
    (compound_tokens_lists : list EnvelopingSpan) :
  Forall (fun sp => left_strict sp = false /\ right_strict sp = false)
         span_list ->
  _apply_2nd_level_compounding fuel self raw_text tokens span_list
    compound_tokens_lists
  = Returns compound_tokens_lists.
Proof.
  induction 1 as [|sp rest [Hleft Hright] _ IH]; simpl; [reflexivity|].
  unfold join_by_hint. rewrite Hleft, Hright.
  rewrite !get_covered_tokens_loose. simpl. exact IH.
Qed.

(** *** The tokens of a merged compound *)

Lemma same_interval_eq (x y : Span) : same_interval x y -> x = y.
Proof.
  destruct x, y. unfold same_interval. cbn. intros [-> ->]. reflexivity.
Qed.

Lemma twin_or_fresh (x : Span) (acc : list Span) :
  In x acc \/ Forall (fun t => ~ same_interval x t) acc.
Proof.
  induction acc as [|t rest [Hin | Hfresh]].
  - right. constructor.
  - left. right. exact Hin.
  - destruct (Z.eq_dec (start x) (start t)) as [Hs|Hs];
      [destruct (Z.eq_dec (end_ x) (end_ t)) as [He|He]|].
    + left. left. symmetry. apply same_interval_eq. split; assumption.
    + right. constructor; [|exact Hfresh]. intros [_ He']. contradiction.
    + right. constructor; [|exact Hfresh]. intros [Hs' _]. contradiction.
Qed.

Lemma gather_fold (inputs acc : list Span) :
  (forall y, In y acc \/ In y inputs -> well_formed y) ->
  (forall y z, In y acc \/ In y inputs -> In z acc \/ In z inputs ->
               disjoint y z \/ y = z) ->
  StronglySorted span_le acc ->
  NoDup acc ->
  StronglySorted span_le
    (fold_left (fun all span => _insert_span span all true) inputs acc)
  /\ NoDup (fold_left (fun all span => _insert_span span all true) inputs acc)
  /\ forall x,
       In x (fold_left (fun all span => _insert_span span all true) inputs
               acc)
       <-> In x acc \/ In x inputs.
Proof.
  revert acc.
  induction inputs as [|x rest IH]; intros acc Hwf Hpair Hsorted Hnodup;
    simpl.
  - repeat split; try assumption; tauto.
  - assert (Forall well_formed acc) as Hwacc
      by (apply Forall_forall; intros y Hy; apply Hwf; left;
          now apply list_elem_of_In).
    assert (well_formed x) as Hwx by (apply Hwf; right; left; reflexivity).
    destruct (twin_or_fresh x acc) as [Hin | Hfresh].
    + assert (_insert_span x acc true = acc) as ->.
      { unfold _insert_span. apply insert_loop_twin; try assumption.
        apply Exists_exists. exists x.
        split; [now apply list_elem_of_In | split; reflexivity]. }
      destruct (IH acc) as (Hs & Hn & Hmem); try assumption.
      * intros y [Hy | Hy]; apply Hwf; [left | right; right]; exact Hy.
      * intros y z Hy Hz. apply Hpair.
        -- destruct Hy as [Hy | Hy]; [left | right; right]; exact Hy.
        -- destruct Hz as [Hz | Hz]; [left | right; right]; exact Hz.
      * split; [exact Hs|]. split; [exact Hn|].
        intros y. rewrite Hmem. split.
        -- intros [Hy | Hy]; [left | right; right]; exact Hy.
        -- intros [Hy | [<- | Hy]]; [left | left | right]; assumption.
    + destruct (insert_loop_fresh x acc Hfresh) as (l1 & l2 & Hacc & Hins).
      assert (forall y, In y (_insert_span x acc true)
                        <-> In y acc \/ y = x) as Hmem1.
      { intros y. unfold _insert_span. rewrite Hins, Hacc.
        rewrite !in_app_iff. simpl. intuition (subst; auto). }
      assert (~ In x acc) as Hnew.
      { intros Hin. rewrite Forall_forall in Hfresh.
        apply (Hfresh x); [now apply list_elem_of_In | split; reflexivity]. }
      destruct (IH (_insert_span x acc true)) as (Hs & Hn & Hmem).
      * intros y [Hy | Hy]; apply Hwf.
        -- apply Hmem1 in Hy as [Hy | ->]; [left; exact Hy|].
           right. left. reflexivity.
        -- right. right. exact Hy.
      * intros y z Hy Hz. apply Hpair.
        -- destruct Hy as [Hy | Hy]; [|right; right; exact Hy].
           apply Hmem1 in Hy as [Hy | ->]; [left; exact Hy|].
           right. left. reflexivity.
        -- destruct Hz as [Hz | Hz]; [|right; right; exact Hz].
           apply Hmem1 in Hz as [Hz | ->]; [left; exact Hz|].
           right. left. reflexivity.
      * unfold _insert_span. apply insert_loop_sorted; try assumption.
        apply disjoint_before; try assumption.
        apply Forall_forall. intros t Ht. apply list_elem_of_In in Ht.
        destruct (Hpair t x (or_introl Ht) (or_intror (or_introl eq_refl)))
          as [Hd | ->]; [left; exact Hd | right; split; reflexivity].
      * unfold _insert_span. rewrite Hins, <- Permutation_middle, <- Hacc.
        apply NoDup_cons. split; [|exact Hnodup].
        intros Hin. apply Hnew. now apply list_elem_of_In.
      * split; [exact Hs|]. split; [exact Hn|].
        intros y. rewrite Hmem, Hmem1. split.
        -- intros [[Hy | ->] | Hy];
             [left | right; left | right; right]; auto.
        -- intros [Hy | [<- | Hy]]; [left; left | left; right | right]; auto.
Qed.

Lemma create_new_spanlist_spans (fuel : nat) (self : CompoundTokenTagger)
    (raw_text : string) (compound_token_spans : list EnvelopingSpan)
    (regular_spans : list Span) (joining_span : BoundaryHint)
    (spl : EnvelopingSpan) :
  _create_new_spanlist fuel self raw_text compound_token_spans regular_spans
    joining_span = Returns spl ->
  spans spl = gather_tokens compound_token_spans regular_spans.
Proof.
  unfold _create_new_spanlist.
  destruct (normalized_str_of _ _ _ _) as [normalized_str| |]; simpl;
    try discriminate.
  destruct (all_types_of compound_token_spans joining_span).
  - now intros [= <-].
  - destruct (repair_case_ending _ _ _) as [types1| |]; simpl;
      try discriminate.
    destruct (repair_sign _ _ _ _) as [types2| |]; simpl; try discriminate.
    now intros [= <-].
Qed.

(** X13. When the tokens that go into a merged compound (those of the
    compound tokens and the regular ones) are well formed and any two of
    them are the same or do not overlap, the compound that
    [_create_new_spanlist] returns holds exactly these tokens, each of
    them once, in ascending order. *)
Theorem create_new_spanlist_tokens (fuel : nat) (self : CompoundTokenTagger)
    (raw_text : string) (compound_token_spans : list EnvelopingSpan)
    (regular_spans : list Span) (joining_span : BoundaryHint)
    (spl : EnvelopingSpan) :
  (forall y, In y (flat_map spans compound_token_spans ++ regular_spans) ->
             well_formed y) ->
  (forall y z,
      In y (flat_map spans compound_token_spans ++ regular_spans) ->
      In z (flat_map spans compound_token_spans ++ regular_spans) ->
      disjoint y z \/ y = z) ->
  _create_new_spanlist fuel self raw_text compound_token_spans regular_spans
    joining_span = Returns spl ->
  Sorted span_le (spans spl)
  /\ NoDup (spans spl)
  /\ forall x,
       In x (spans spl)
       <-> In x (flat_map spans compound_token_spans ++ regular_spans).
Proof.
  intros Hwf Hpair Hret.
  rewrite (create_new_spanlist_spans _ _ _ _ _ _ _ Hret).
  unfold gather_tokens.
  destruct (gather_fold
              (flat_map spans compound_token_spans ++ regular_spans) [])
    as (Hs & Hn & Hmem).
  - intros y [[] | Hy]. now apply Hwf.
  - intros y z [[] | Hy] [[] | Hz]. now apply Hpair.
  - constructor.
  - constructor.
  - split; [now apply StronglySorted_Sorted|]. split; [exact Hn|].
    intros x. rewrite Hmem. simpl. tauto.
Qed.

End SecondLevel.

Section SecondLevelSamples.

Import Tagger Samples.

Lemma ending_compound :
  _create_new_spanlist 10 (tagger []) "5-st" ending_queue
    [mkSpan 0 1; mkSpan 1 2] ending_hint
  = Returns (mkEnvelopingSpan ending_tokens ["case_ending"%string] None).
Proof. vm_compute. reflexivity. Qed.

Lemma create_new_spanlist_types_witness :
  type (mkEnvelopingSpan ending_tokens ["case_ending"%string] None) <> []
  /\ In "case_ending"%string
        (type (mkEnvelopingSpan ending_tokens ["case_ending"%string] None)).
Proof.
  destruct (create_new_spanlist_types 10 (tagger []) "5-st" ending_queue
              [mkSpan 0 1; mkSpan 1 2] ending_hint _ ending_compound)
    as (Hne & _ & _ & Hkeep).
  split; [exact Hne|].
  apply Hkeep; [left; reflexivity|].
  vm_compute. right. left. reflexivity.
Defined.

Lemma create_new_spanlist_tokens_witness :
  Sorted span_le
    (spans (mkEnvelopingSpan ending_tokens ["case_ending"%string] None))
  /\ NoDup
       (spans (mkEnvelopingSpan ending_tokens ["case_ending"%string] None))
  /\ forall x,
       In x (spans (mkEnvelopingSpan ending_tokens ["case_ending"%string]
                      None))
       <-> In x (flat_map spans ending_queue ++ [mkSpan 0 1; mkSpan 1 2]).
Proof.
  apply (create_new_spanlist_tokens 10 (tagger []) "5-st" ending_queue
           [mkSpan 0 1; mkSpan 1 2] ending_hint).
  - intros y Hy. cbn in Hy.
    destruct Hy as [<- | [<- | [<- | []]]]; unfold well_formed; cbn; lia.
  - intros y z Hy Hz. cbn in Hy, Hz.
    destruct Hy as [<- | [<- | [<- | []]]];
      destruct Hz as [<- | [<- | [<- | []]]];
      (right; reflexivity) || (left; unfold disjoint; cbn; lia).
  - exact ending_compound.
Defined.

Lemma stitch_ends_witness :
  exists parts,
    stitch 5 "Dr. X" {[ 0 := ("Dr."%string, 3) ]} 5 0 [] true
    = Returns parts.
Proof.
  apply (stitch_ends "Dr. X" {[ 0 := ("Dr."%string, 3) ]} 5).
  - intros k norm stop Hk.
    apply lookup_singleton_Some in Hk as [<- [= <- <-]]. lia.
  - cbn. lia.
Defined.

(** The parts of ["Dr. X"] with ["Dr."] normalized as a whole. *)
Example stitch_dr :
  stitch 5 "Dr. X" {[ 0 := ("Dr."%string, 3) ]} 5 0 [] true
  = Returns ["Dr."%string; " "%string; "X"%string].
Proof. vm_compute. reflexivity. Qed.

Lemma stitch_runs_on_witness :
  stitch 1000 "xa" {[ 0 := ("xyx"%string, 1) ]} 2 0 [] true = Runs_on.
Proof.
  apply (stitch_runs_on "xa" {[ 0 := ("xyx"%string, 1) ]} 2 0 "xyx" 1000).
  - apply lookup_singleton_eq.
  - lia.
  - reflexivity.
  - reflexivity.
  - reflexivity.
Defined.

(** The same through [_apply_2nd_level_compounding]: with the compound
    over ["x"] normalized to ["xyx"] in the queue, the hint over ["xa"]
    gives no result, however many turns the loop is allowed. *)
Example second_level_runs_on (fuel : nat) :
  _apply_2nd_level_compounding fuel (tagger []) "xa" echo_tokens
    [echo_hint] echo_queue
  = Runs_on.
Proof.
  assert (_create_new_spanlist fuel (tagger []) "xa" echo_queue [mkSpan 1 2]
            echo_hint = Runs_on) as Hcreate.
  { unfold _create_new_spanlist, normalized_str_of.
    assert (all_normalizations_of echo_queue echo_hint
            = {[ 0 := ("xyx"%string, 1) ]}) as -> by reflexivity.
    destruct (decide (_ = ∅)) as [Hempty | _].
    - apply (f_equal (fun m => m !! 0)) in Hempty.
      rewrite lookup_singleton_eq, lookup_empty in Hempty. discriminate.
    - assert (covered_range (gather_tokens echo_queue [mkSpan 1 2])
              = Returns (0, 2)) as -> by reflexivity.
      simpl and_then at 2.
      assert (stitch fuel "xa" {[ 0 := ("xyx"%string, 1) ]} 2 0 [] true
              = Runs_on) as ->; [|reflexivity].
      destruct fuel as [|fuel]; [reflexivity|].
      apply (stitch_stuck "xa" _ 2 0 "xyx" (lookup_singleton_eq _ _)
               ltac:(lia) eq_refl eq_refl fuel ["xyx"%string] "xyx" eq_refl
               eq_refl). }
  simpl. unfold join_by_hint.
  assert (_get_covered_tokens (joining_start echo_hint)
            (joining_end echo_hint) (left_strict echo_hint)
            (right_strict echo_hint) echo_queue = echo_queue) as ->
    by reflexivity.
  assert (_remove_overlapped_spans echo_queue
            (_get_covered_tokens (joining_start echo_hint)
               (joining_end echo_hint) (left_strict echo_hint)
               (right_strict echo_hint) echo_tokens)
          = [mkSpan 1 2]) as -> by reflexivity.
  rewrite Hcreate. reflexivity.
Qed.

Lemma second_level_loose_hints_witness :
  _apply_2nd_level_compounding 10 (tagger []) "5-st" ending_tokens
    [mkBoundaryHint 0 4 (Some "case_ending"%string) None false false]
    ending_queue
  = Returns ending_queue.
Proof.
  apply (second_level_loose_hints 10 (tagger []) "5-st" ending_tokens
           [mkBoundaryHint 0 4 (Some "case_ending"%string) None false false]
           ending_queue).
  repeat constructor.
Defined.

End SecondLevelSamples.

(** ** What an excerpt holds *)

Section ExcerptShape.

Import Splitting.

Variables (start end_ : Z) (layers_to_keep : option (list string))
          (trim_overlapping : bool).

(** A layer that goes through adds one layer of the same shape. *)
Lemma excerpt_layer_adds (layer : Layer) (st st' : state) :
  excerpt_layer start end_ trim_overlapping layer st = inr st' ->
  exists new_spans,
    new_layers st' = new_layers st ++ [new_layer layer new_spans].
Proof.
  unfold excerpt_layer.
  destruct (truthy (parent layer)), (ambiguous layer); try discriminate.
  - destruct (attached_loop _ _ _ _ _) as [e|[[new_spans m] sp1]]; simpl;
      [discriminate|]. intros [= <-]. simpl. eauto.
  - destruct (truthy (enveloping layer)); discriminate.
  - destruct (truthy (enveloping layer)).
    + destruct (enveloping_loop _ _ _ _ _ _ _ _) as [e|[new_spans m]]; simpl;
        [discriminate|]. intros [= <-]. simpl. eauto.
    + destruct (plain_loop _ _ _ _ _ _ _) as [e|[new_spans m]]; simpl;
        [discriminate|]. intros [= <-]. simpl. eauto.
Qed.

Lemma excerpt_layers_shapes (todo : list Layer) (st st' : state) :
  excerpt_layers start end_ layers_to_keep trim_overlapping todo st
  = inr st' ->
  map shape (new_layers st')
  = map shape (new_layers st)
    ++ map shape (List.filter (kept layers_to_keep) todo).
Proof.
  revert st.
  induction todo as [|layer rest IH]; intros st; simpl.
  - intros [= <-]. now rewrite app_nil_r.
  - destruct (kept layers_to_keep layer); [|apply IH].
    destruct (excerpt_layer start end_ trim_overlapping layer st)
      as [e|st1] eqn:Hone; simpl; [discriminate|].
    intros Hrest. rewrite (IH _ Hrest).
    destruct (excerpt_layer_adds _ _ _ Hone) as [new_spans ->].
    rewrite map_app, <- app_assoc. reflexivity.
Qed.

(** X14. When [excerpt] returns, the new text is the text of the window
    and its layers are the layers that were kept, in their order, each
    with its name, attributes, parent, enveloped layer, ambiguity and
    base: only the spans change. *)
Theorem excerpt_keeps_shapes (text_ : Text) (new_text : NewText) :
  excerpt text_ start end_ layers_to_keep trim_overlapping = inr new_text ->
  text new_text = Py.slice (text text_) start end_
  /\ map shape (layers new_text)
     = map shape (List.filter (kept layers_to_keep) (list_layers text_)).
Proof.
  unfold excerpt.
  destruct (excerpt_layers _ _ _ _ _ _) as [e|st] eqn:Hrun; simpl;
    [discriminate|].
  intros [= <-]. simpl. split; [reflexivity|].
  now rewrite (excerpt_layers_shapes _ _ _ Hrun).
Qed.

End ExcerptShape.

Lemma excerpt_keeps_shapes_witness :
  Splitting.text
    (Splitting.mkText "cd"
       [Splitting.mkLayer "tokens" [] None None false None
          [Samples.new_token 2 0 2]])
  = Py.slice (Splitting.text
                (Samples.document
                   [Samples.tokens_layer; Samples.readings_layer])) 3 5
  /\ map Splitting.shape
       (Splitting.layers
          (Splitting.mkText "cd"
             [Splitting.mkLayer "tokens" [] None None false None
                [Samples.new_token 2 0 2]]))
     = map Splitting.shape
         (List.filter (Splitting.kept (Some ["tokens"%string]))
            (Splitting.list_layers
               (Samples.document
                  [Samples.tokens_layer; Samples.readings_layer]))).
Proof.
  apply (excerpt_keeps_shapes 3 5 (Some ["tokens"%string]) false
           (Samples.document [Samples.tokens_layer; Samples.readings_layer])).
  vm_compute. reflexivity.
Defined.

(** ** Where the spans of an excerpt lie *)

Section ExcerptWindow.

Import Splitting.

Variables (start end_ : Z) (trim_overlapping : bool).














End ExcerptWindow.


(** The window [[2,3)] of ["ab cd"], with trimming, holds no token and a
    part of the sentence: the sentence is rebuilt without components,
    and has no bounds. *)
Example excerpt_span_list_without_components :
  Splitting.excerpt
    (Samples.document [Samples.tokens_layer; Samples.sentences_layer []])
    2 3 None true
  = inr (Splitting.mkText " "
           [Splitting.mkLayer "tokens" [] None None false None [];
            Splitting.mkLayer "sentences" [] None (Some "tokens"%string)
              false None
              [Splitting.mkSpan 21 None None ∅ None []]]).
Proof. vm_compute. reflexivity. Qed.

(** ** When an excerpt is returned *)

Section ExcerptReturns.

Import Splitting.

Variables (start end_ : Z) (layers_to_keep : option (list string))
          (trim_overlapping : bool).

Lemma plain_loop_returns (attrs : list string) (todo : list Span)
    (new_spans : list NewSpan) (m : gmap nat NewSpan) :
  spans_complete attrs todo ->
  exists r,
    plain_loop start end_ trim_overlapping attrs todo new_spans m = inr r.
Proof.
  intros Hall. revert new_spans m.
  induction Hall as [|span rest Hspan _ IH]; intros new_spans m; simpl;
    [eauto|].
  destruct (window _ _ _ _ _) as [[a b]|]; [|apply IH].
  destruct (copy_attributes_complete attrs span
              (mkSpan (span_key span) (Some (a - start))
                 (Some (b - start)) ∅ None [])
              Hspan) as (m' & -> & _).
  simpl. apply IH.
Qed.

Lemma enveloping_loop_returns (sp0 : option Span) (todo : list Span)
    (new_spans : list NewSpan) (m : gmap nat NewSpan) :
  exists r,
    enveloping_loop start end_ trim_overlapping [] sp0 todo new_spans m
    = inr r.
Proof.
  revert new_spans m.
  induction todo as [|span rest IH]; intros new_spans m; simpl; [eauto|].
  destruct (window _ _ _ _ _); apply IH.
Qed.

Lemma attached_loop_returns (attrs : list string) (todo : list Span)
    (new_spans : list NewSpan) (m : gmap nat NewSpan) (sp0 : option Span) :
  Forall (fun span => spans_complete attrs (span_items span)) todo ->
  exists r, attached_loop attrs todo new_spans m sp0 = inr r.
Proof.
  intros Hall. revert new_spans m sp0.
  induction Hall as [|span rest Hspan _ IH]; intros new_spans m sp0; simpl;
    [eauto|].
  destruct (span_parent span ≫= (m !!.)) as [np|]; [|apply IH].
  destruct (annotation_loop_complete attrs np (span_items span) new_spans m
              sp0 Hspan) as (m1 & sp1 & -> & _).
  simpl. apply IH.
Qed.

Lemma excerpt_layer_returns (layer : Layer) (st : state) :
  supported layer ->
  exists st', excerpt_layer start end_ trim_overlapping layer st = inr st'.
Proof.
  unfold supported, excerpt_layer.
  destruct (truthy (parent layer)).
  - intros [-> Hcomplete].
    destruct (attached_loop_returns (attributes layer) (spans layer) []
                (map_spans st) (sp st) Hcomplete) as [[[ns m1] sp1] ->].
    simpl. eauto.
  - destruct (truthy (enveloping layer)).
    + intros [-> ->].
      destruct (enveloping_loop_returns (sp st) (spans layer) []
                  (map_spans st)) as [[ns m1] ->].
      simpl. eauto.
    + intros [-> Hcomplete].
      destruct (plain_loop_returns (attributes layer) (spans layer) []
                  (map_spans st) Hcomplete) as [[ns m1] ->].
      simpl. eauto.
Qed.

(** X16. [excerpt] returns a text, for every window and with or without
    trimming, when each layer that is kept is an ambiguous attached
    layer, an unambiguous enveloping layer without attributes or an
    unambiguous plain layer, and the spans (for an attached layer, the
    annotations) have a value for each attribute of their layer. *)
Theorem excerpt_returns (text_ : Text) :
  Forall (fun layer => kept layers_to_keep layer = true -> supported layer)
         (list_layers text_) ->
  exists new_text,
    excerpt text_ start end_ layers_to_keep trim_overlapping = inr new_text.
Proof.
  intros Hall. unfold excerpt.
  assert (forall st, exists st',
             excerpt_layers start end_ layers_to_keep trim_overlapping
               (list_layers text_) st = inr st') as Hrun.
  { induction Hall as [|layer rest Hlayer _ IH]; intros st; simpl; [eauto|].
    destruct (kept layers_to_keep layer); [|apply IH].
    destruct (excerpt_layer_returns layer st (Hlayer eq_refl)) as [st1 ->].
    simpl. apply IH. }
  destruct (Hrun (mkState ∅ None [])) as [st' ->]. simpl. eauto.
Qed.

End ExcerptReturns.

Lemma excerpt_returns_witness :
  exists new_text,
    Splitting.excerpt
      (Samples.document
         [Samples.tokens_layer; Samples.morph_layer true;
          Samples.sentences_layer []])
      3 5 None false
    = inr new_text.
Proof.
  apply (excerpt_returns 3 5 None false
           (Samples.document
              [Samples.tokens_layer; Samples.morph_layer true;
               Samples.sentences_layer []])).
  repeat (apply List.Forall_cons || apply List.Forall_nil); intros _;
    unfold Splitting.supported; cbn.
  - split; [reflexivity|]. repeat constructor.
  - split; [reflexivity|].
    repeat (constructor; try (eexists; vm_compute; reflexivity)).
  - split; reflexivity.
Defined.

(** ** The layers kept by default *)

Section KeepDefault.

Import Splitting.

Variable edges : list (string * string).

Lemma elem_of_successors (nodes : gset string) (b : string) :
  b ∈ successors edges nodes <-> exists a, In (a, b) edges /\ a ∈ nodes.
Proof.
  unfold successors. rewrite elem_of_list_to_set, list_elem_of_In.
  rewrite in_map_iff. split.
  - intros ([a b'] & <- & Hin). apply filter_In in Hin as [Hin Ha].
    apply bool_decide_eq_true in Ha. exists a. split; assumption.
  - intros (a & Hin & Ha). exists (a, b). split; [reflexivity|].
    apply filter_In. split; [exact Hin | now apply bool_decide_eq_true].
Qed.

Lemma successors_targets (nodes : gset string) :
  successors edges nodes ⊆ list_to_set (map snd edges).
Proof.
  intros b Hb. apply elem_of_successors in Hb as (a & Hin & _).
  apply elem_of_list_to_set, list_elem_of_In, in_map_iff.
  exists (a, b). split; [reflexivity | exact Hin].
Qed.

Lemma reach_incl (n : nat) (nodes : gset string) :
  nodes ⊆ reach n edges nodes.
Proof.
  revert nodes. induction n as [|n IH]; intros nodes; simpl; [done|].
  etrans; [|apply IH]. set_solver.
Qed.

Lemma reach_fixed (n : nat) (nodes : gset string) :
  successors edges nodes ⊆ nodes -> reach n edges nodes = nodes.
Proof.
  intros Hfix. induction n as [|n IH]; simpl; [reflexivity|].
  replace (nodes ∪ successors edges nodes) with nodes by set_solver.
  exact IH.
Qed.

Lemma size_list_to_set_le (l : list string) :
  (size (list_to_set l : gset string) <= length l)%nat.
Proof.
  induction l as [|x l IH].
  - rewrite list_to_set_nil, size_empty. simpl. lia.
  - rewrite list_to_set_cons, size_union_alt, size_singleton.
    pose proof (subseteq_size
                  ((list_to_set l : gset string) ∖ {[x]})
                  (list_to_set l) ltac:(set_solver)).
    simpl. lia.
Qed.

(** After enough rounds nothing new is one edge away. *)
Lemma reach_closed (n : nat) (nodes : gset string) :
  (size ((list_to_set (map snd edges) : gset string) ∖ nodes) <= n)%nat ->
  successors edges (reach n edges nodes) ⊆ reach n edges nodes.
Proof.
  revert nodes. induction n as [|n IH]; intros nodes Hsize; simpl.
  - assert (size ((list_to_set (map snd edges) : gset string) ∖ nodes)
            = 0%nat) as Hzero by lia.
    apply size_empty_inv in Hzero.
    pose proof (successors_targets nodes). set_solver.
  - destruct (decide (successors edges nodes ⊆ nodes)) as [Hfix | Hnew].
    + replace (nodes ∪ successors edges nodes) with nodes by set_solver.
      now rewrite reach_fixed.
    + apply IH.
      assert (exists x, x ∈ successors edges nodes /\ x ∉ nodes)
        as (x & Hx & Hout).
      { destruct (decide (Forall (fun x => x ∈ nodes)
                            (elements (successors edges nodes))))
          as [Hall | Hsome].
        - exfalso. apply Hnew. intros y Hy.
          rewrite Forall_forall in Hall. apply Hall.
          now apply elem_of_elements.
        - apply not_Forall_Exists in Hsome; [|apply _].
          apply Exists_exists in Hsome as (x & Hx & Hout).
          exists x. split; [now apply elem_of_elements | exact Hout]. }
      pose proof (successors_targets nodes x Hx) as Htarget.
      pose proof (subset_size
                    ((list_to_set (map snd edges) : gset string)
                     ∖ (nodes ∪ successors edges nodes))
                    ((list_to_set (map snd edges) : gset string) ∖ nodes))
        as Hless.
      assert ((list_to_set (map snd edges) : gset string)
              ∖ (nodes ∪ successors edges nodes)
              ⊂ (list_to_set (map snd edges) : gset string) ∖ nodes)
        as Hstrict.
      { split; [set_solver|]. intros Hback.
        assert (x ∈ (list_to_set (map snd edges) : gset string) ∖ nodes)
          as Hin by set_solver.
        apply Hback in Hin. set_solver. }
      specialize (Hless Hstrict). lia.
Qed.

Lemma descendants_closed (source : string) (nodes : gset string) :
  descendants edges source = inr nodes ->
  forall a b, In (a, b) edges -> a ∈ nodes ∪ {[ source ]} ->
              b ∈ nodes ∪ {[ source ]}.
Proof.
  unfold descendants. destruct (bool_decide _); [|discriminate].
  intros [= <-] a b Hedge Ha.
  pose proof (reach_incl (length edges) {[ source ]}) as Hsource.
  assert (successors edges (reach (length edges) edges {[ source ]})
          ⊆ reach (length edges) edges {[ source ]}) as Hclosed.
  { apply reach_closed.
    etrans; [apply (subseteq_size _ (list_to_set (map snd edges)));
             set_solver|].
    etrans; [apply size_list_to_set_le|]. now rewrite length_map. }
  assert (a ∈ reach (length edges) edges {[ source ]}) as Ha'.
  { apply elem_of_union in Ha as [Ha | Ha]; [set_solver|].
    apply elem_of_singleton in Ha. subst a. set_solver. }
  assert (b ∈ reach (length edges) edges {[ source ]}) as Hb.
  { apply Hclosed, elem_of_successors. exists a. split; assumption. }
  destruct (decide (b = source)) as [-> | Hne]; set_solver.
Qed.

End KeepDefault.

Section KeepDefaultLayers.

Import Splitting.

(** X17. The set that [layers_to_keep_default] returns holds the layer
    it was asked for and is closed under the relations of the layers of
    the text: with an enveloping layer it holds the layer that is
    enveloped, and of an attached layer and its parent it holds both or
    neither. *)
Theorem layers_to_keep_default_closed (text_ : Text) (layer : string)
    (keep : gset string) :
  layers_to_keep_default text_ layer = inr keep ->
  layer ∈ keep
  /\ forall layer_object,
       In layer_object (layers text_) ->
       (forall enveloped,
           truthy (enveloping layer_object) = true ->
           enveloping layer_object = Some enveloped ->
           name layer_object ∈ keep -> enveloped ∈ keep)
       /\ (forall p,
              truthy (enveloping layer_object) = false ->
              truthy (parent layer_object) = true ->
              parent layer_object = Some p ->
              (name layer_object ∈ keep <-> p ∈ keep)).
Proof.
  unfold layers_to_keep_default.
  destruct (descendants (graph_edges text_) layer) as [e|nodes] eqn:Hdesc;
    [discriminate|].
  intros [= <-]. split; [set_solver|].
  intros layer_object Hin.
  pose proof (descendants_closed _ _ _ Hdesc) as Hclosed.
  assert (forall a b, In (a, b) (layer_edges layer_object) ->
                      In (a, b) (graph_edges text_)) as Hedges.
  { intros a b Hab. unfold graph_edges. apply in_flat_map.
    exists layer_object. split; assumption. }
  split.
  - intros enveloped Htruthy Henv Hname.
    apply (Hclosed (name layer_object)); [|exact Hname].
    apply Hedges. unfold layer_edges. rewrite Htruthy, Henv.
    left. reflexivity.
  - intros p Hnot Htruthy Hparent. split; intros Hone.
    + apply (Hclosed (name layer_object)); [|exact Hone].
      apply Hedges. unfold layer_edges. rewrite Hnot, Htruthy, Hparent.
      left. reflexivity.
    + apply (Hclosed p); [|exact Hone].
      apply Hedges. unfold layer_edges. rewrite Hnot, Htruthy, Hparent.
      right. left. reflexivity.
Qed.

End KeepDefaultLayers.

Lemma layers_to_keep_default_closed_witness :
  ("sentences"%string
     ∈ ({[ "sentences"%string; "tokens"%string; "morph"%string ]}
          : gset string))
  /\ ("morph"%string
        ∈ ({[ "sentences"%string; "tokens"%string; "morph"%string ]}
             : gset string)
      <-> "tokens"%string
            ∈ ({[ "sentences"%string; "tokens"%string; "morph"%string ]}
                 : gset string)).
Proof.
  destruct (layers_to_keep_default_closed
              (Samples.document
                 [Samples.tokens_layer; Samples.morph_layer true;
                  Samples.sentences_layer []])
              "sentences"
              {[ "sentences"%string; "tokens"%string; "morph"%string ]})
    as [Hself Hclosed].
  - vm_compute. reflexivity.
  - split; [exact Hself|].
    destruct (Hclosed (Samples.morph_layer true)) as [_ Hparent].
    + right. left. reflexivity.
    + apply (Hparent "tokens"%string); reflexivity.
Defined.

(** ** One excerpt for each span *)

Section SplitBy.

Import Splitting.

Lemma split_loop_each (text_ : Text) (names : list string)
    (bounds : list (Z * Z)) (result : list NewText) :
  split_loop text_ names bounds = inr result ->
  Forall2
    (fun bound excerpt_text =>
       excerpt text_ bound.1 bound.2 (Some names) false = inr excerpt_text)
    bounds result.
Proof.
  revert result.
  induction bounds as [|[a b] rest IH]; intros result; simpl.
  - intros [= <-]. constructor.
  - destruct (excerpt text_ a b (Some names) false) as [e|t] eqn:Hone;
      [discriminate|].
    destruct (split_loop text_ names rest) as [e|r]; [discriminate|].
    intros [= <-]. constructor; [exact Hone | now apply IH].
Qed.

(** X18. When [split_by] returns, with the layers to keep given by name,
    it returns one text for each span of the layer, in the order of the
    spans; each of them has the text under its span and, of the layers,
    those that are kept, with the shape they had. *)
Theorem split_by_each_span (text_ : Text) (layer_name : string)
    (names : list string) (result : list NewText) :
  split_by text_ layer_name (Some names) = inr result ->
  exists layer,
    get_layer text_ layer_name = Some layer
    /\ Forall2
         (fun span excerpt_text =>
            text excerpt_text
            = Py.slice (text text_) (span_start span) (span_end span)
            /\ map shape (layers excerpt_text)
               = map shape
                   (List.filter (kept (Some names)) (list_layers text_)))
         (spans layer) result.
Proof.
  unfold split_by.
  destruct (get_layer text_ layer_name) as [layer|]; [|discriminate].
  intros Hloop. exists layer. split; [reflexivity|].
  apply split_loop_each in Hloop.
  revert result Hloop.
  induction (spans layer) as [|span rest IH]; intros result Hloop;
    inversion Hloop as [|? t ? r Hone Hrest]; subst; constructor.
  - simpl in Hone. unfold excerpt in Hone.
    destruct (excerpt_layers _ _ _ _ _ _) as [e|st] eqn:Hrun; simpl in Hone;
      [discriminate|].
    injection Hone as <-. simpl. split; [reflexivity|].
    now rewrite (excerpt_layers_shapes _ _ _ _ _ _ _ Hrun).
  - now apply IH.
Qed.

(** A layer that the text does not have stops [split_by]. *)
Example split_by_missing_layer :
  split_by (Samples.document [Samples.tokens_layer]) "sentences"
    (Some ["tokens"%string])
  = inl (KeyError "sentences").
Proof. reflexivity. Qed.

End SplitBy.

Lemma split_by_each_span_witness :
  exists layer,
    Splitting.get_layer
      (Samples.document [Samples.tokens_layer; Samples.sentences_layer []])
      "tokens"
    = Some layer
    /\ Forall2
         (fun span excerpt_text =>
            Splitting.text excerpt_text
            = Py.slice "ab cd" (Splitting.span_start span)
                (Splitting.span_end span)
            /\ map Splitting.shape (Splitting.layers excerpt_text)
               = map Splitting.shape
                   (List.filter
                      (Splitting.kept (Some ["tokens"%string]))
                      (Splitting.list_layers
                         (Samples.document
                            [Samples.tokens_layer;
                             Samples.sentences_layer []]))))
         (Splitting.spans layer)
         [Splitting.mkText "ab"
            [Splitting.mkLayer "tokens" [] None None false None
               [Samples.new_token 1 0 2]];
          Splitting.mkText "cd"
            [Splitting.mkLayer "tokens" [] None None false None
               [Samples.new_token 2 0 2]]].
Proof.
  apply (split_by_each_span
           (Samples.document
              [Samples.tokens_layer; Samples.sentences_layer []])
           "tokens" ["tokens"%string]).
  vm_compute. reflexivity.
Defined.

(** ** The length of a query *)

Section QueryLength.

Import Postgres.

Lemma get_query_length_Composed (seq : list Composable) :
  get_query_length (Composed seq) = total_length seq.
Proof.
  simpl. rewrite <- (Z.add_0_l (total_length seq)). generalize 0.
  induction seq as [|r seq IH]; intros result; simpl; [lia|].
  rewrite IH. lia.
Qed.

Lemma total_length_app (seq seq' : list Composable) :
  total_length (seq ++ seq') = total_length seq + total_length seq'.
Proof.
  unfold total_length.
  induction seq as [|r seq IH]; simpl; [reflexivity|].
  rewrite IH. lia.
Qed.

(** X19. The length of a joined sequence is the sum of the lengths of its
    elements plus one joiner for each element after the first; nothing is
    added for an empty sequence or for a single element. *)
Theorem get_query_length_join (joiner : Composable)
    (seq : list Composable) :
  get_query_length (join joiner seq)
  = total_length seq
    + get_query_length joiner * Z.of_nat (length seq - 1).
Proof.
  unfold join. rewrite get_query_length_Composed.
  destruct seq as [|first rest]; [simpl; lia|].
  replace (length (first :: rest) - 1)%nat with (length rest)
    by (simpl; lia).
  change (total_length (first :: flat_map (fun i => [joiner; i]) rest))
    with (get_query_length first
          + total_length (flat_map (fun i => [joiner; i]) rest)).
  change (total_length (first :: rest))
    with (get_query_length first + total_length rest).
  enough (total_length (flat_map (fun i => [joiner; i]) rest)
          = total_length rest
            + get_query_length joiner * Z.of_nat (length rest)) by lia.
  induction rest as [|i rest IH]; [simpl; lia|].
  change (flat_map (fun i => [joiner; i]) (i :: rest))
    with ([joiner; i] ++ flat_map (fun i => [joiner; i]) rest).
  rewrite total_length_app, IH.
  change (total_length (i :: rest))
    with (get_query_length i + total_length rest).
  change (total_length [joiner; i])
    with (get_query_length joiner + (get_query_length i + 0)).
  change (length (i :: rest)) with (S (length rest)).
  lia.
Qed.

End QueryLength.

(** ** Buffered inserts *)

Section BufferedInsert.

Import Postgres.

Variables (table_identifier column_identifiers : Composable).
Variables (buffer_size query_length_limit : Z).

Lemma removelast_snoc {A} (l : list A) (x : A) : removelast (l ++ [x]) = l.
Proof.
  rewrite removelast_app by discriminate. simpl. apply app_nil_r.
Qed.

Lemma within_limits_snoc (st : insert_state) (q : Composable) :
  (buffer st <> [] ->
   Z.of_nat (length (buffer st)) < buffer_size
   /\ _buffered_insert_query_length st < query_length_limit) ->
  _buffered_insert_query_length st
  = get_query_length column_identifiers + total_length (buffer st) ->
  within_limits column_identifiers buffer_size query_length_limit
    (buffer st ++ [q]).
Proof.
  intros Hopen Hlength. unfold within_limits.
  rewrite removelast_snoc, length_app. simpl.
  destruct (buffer st) as [|q0 waiting] eqn:Hbuffer.
  - simpl. split; lia.
  - destruct Hopen as [Hsize Hlimit]; [discriminate|].
    simpl in Hsize. split; [simpl; lia|].
    intros _. lia.
Qed.

Lemma flush_between_calls (st : insert_state)
    (batches done : list (list Composable)) :
  executed st
  = map (insert_query table_identifier column_identifiers) batches ->
  concat batches ++ buffer st = map row_of done ->
  Forall (fun batch => batch <> []) batches ->
  Forall (within_limits column_identifiers buffer_size query_length_limit)
    batches ->
  within_limits column_identifiers buffer_size query_length_limit
    (buffer st) ->
  buffer st <> [] ->
  between_calls table_identifier column_identifiers buffer_size
    query_length_limit
    (_flush_layer_insert_buffer table_identifier column_identifiers st)
    (batches ++ [buffer st]) done.
Proof.
  intros Hexecuted Hrows Hfull Hbounds Hlast Hwaiting.
  unfold _flush_layer_insert_buffer.
  destruct (buffer st) as [|q waiting] eqn:Hbuffer; [contradiction|].
  simpl. unfold between_calls. simpl.
  split; [rewrite map_app, Hexecuted; reflexivity|].
  split; [rewrite concat_app; simpl; rewrite !app_nil_r; exact Hrows|].
  split.
  { apply Forall_app. split; [exact Hfull|]. constructor; [|constructor].
    discriminate. }
  split.
  { apply Forall_app. split; [exact Hbounds|]. constructor; [|constructor].
    exact Hlast. }
  split; [lia|]. split; [contradiction | lia].
Qed.

Lemma buffered_insert_between_calls (st : insert_state)
    (batches done : list (list Composable)) (values : list Composable) :
  between_calls table_identifier column_identifiers buffer_size
    query_length_limit st batches done ->
  exists batches',
    between_calls table_identifier column_identifiers buffer_size
      query_length_limit
      (buffered_insert table_identifier column_identifiers buffer_size
         query_length_limit st values)
      batches' (done ++ [values]).
Proof.
  intros (Hexecuted & Hrows & Hfull & Hbounds & Hlength & Hopen & Hbefore).
  unfold buffered_insert.
  remember (row_of values) as q eqn:Hq.
  set (st' := mkInsert (buffer st ++ [q])
                (_buffered_insert_query_length st + get_query_length q)
                (executed st)).
  assert (Hrows' : concat batches ++ buffer st'
                   = map row_of (done ++ [values])).
  { subst st'. cbn [buffer]. rewrite map_app, app_assoc, Hrows, Hq.
    reflexivity. }
  assert (Hlast : within_limits column_identifiers buffer_size
                    query_length_limit (buffer st')).
  { subst st'. simpl. now apply within_limits_snoc. }
  destruct ((buffer_size <=? Z.of_nat (length (buffer st')))
            || (query_length_limit <=? _buffered_insert_query_length st'))
    eqn:Hflush.
  - exists (batches ++ [buffer st']).
    apply flush_between_calls; try assumption.
    subst st'. simpl. now destruct (buffer st).
  - exists batches.
    apply orb_false_iff in Hflush as [Hsize Hlimit].
    apply Z.leb_gt in Hsize, Hlimit.
    split; [exact Hexecuted|].
    split; [exact Hrows'|].
    split; [exact Hfull|].
    split; [exact Hbounds|].
    split; [|split].
    + subst st'. cbn [buffer _buffered_insert_query_length].
      rewrite total_length_app, Hlength.
      change (total_length [q]) with (get_query_length q + 0). lia.
    + intros _. split; [exact Hsize | exact Hlimit].
    + apply Hlast.
Qed.

Lemma buffered_insert_run (body : list (list Composable)) :
  forall (st : insert_state) (batches done : list (list Composable)),
    between_calls table_identifier column_identifiers buffer_size
      query_length_limit st batches done ->
    exists batches',
      between_calls table_identifier column_identifiers buffer_size
        query_length_limit
        (fold_left
           (buffered_insert table_identifier column_identifiers buffer_size
              query_length_limit)
           body st)
        batches' (done ++ body).
Proof.
  induction body as [|values body IH]; intros st batches done Hst; simpl.
  - exists batches. now rewrite app_nil_r.
  - destruct (buffered_insert_between_calls st batches done values Hst)
      as [batches1 Hone].
    destruct (IH _ _ _ Hone) as [batches2 Hrest].
    exists batches2. now rewrite <- app_assoc in Hrest.
Qed.

Lemma between_calls_start :
  between_calls table_identifier column_identifiers buffer_size
    query_length_limit
    (mkInsert [] (get_query_length column_identifiers) []) [] [].
Proof.
  unfold between_calls. simpl.
  split; [reflexivity|]. split; [reflexivity|].
  split; [constructor|]. split; [constructor|].
  split; [lia|]. split; [intros Hwaiting; contradiction | lia].
Qed.

End BufferedInsert.

Section BufferedLayerInsert.

Import Postgres.

Variables (table_identifier : Composable) (columns : list string).
Variables (buffer_size query_length_limit : Z).

(** X20. Whatever the buffer size and the limit, the rows passed to the
    yielded function are written once each and in the order of the calls:
    the statements executed, taken together, carry exactly these rows; no
    statement is executed without a row, and nothing is left in the
    buffer when the context is left. *)
Theorem buffered_layer_insert_writes_all (body : list (list Composable)) :
  let st :=
    buffered_layer_insert table_identifier columns buffer_size
      query_length_limit body in
  buffer st = []
  /\ exists batches,
       executed st
       = map (insert_query table_identifier (column_identifiers_of columns))
           batches
       /\ concat batches = map row_of body
       /\ Forall (fun batch => batch <> []) batches.
Proof.
  unfold buffered_layer_insert.
  destruct (buffered_insert_run table_identifier
              (column_identifiers_of columns) buffer_size query_length_limit
              body _ [] []
              (between_calls_start _ _ _ _))
    as [batches (Hexecuted & Hrows & Hfull & _)].
  simpl in Hrows.
  remember (fold_left _ body _) as st eqn:Hst. clear Hst.
  unfold _flush_layer_insert_buffer.
  destruct (buffer st) as [|q waiting] eqn:Hbuffer; simpl.
  - split; [exact Hbuffer|]. exists batches.
    rewrite app_nil_r in Hrows. now repeat split.
  - split; [reflexivity|]. exists (batches ++ [q :: waiting]).
    split; [now rewrite map_app, Hexecuted|].
    split; [rewrite concat_app; simpl; now rewrite app_nil_r|].
    apply Forall_app. split; [exact Hfull|].
    constructor; [discriminate | constructor].
Qed.

(** X21. The statements keep to the bounds of the buffer.  Each carries
    at most [buffer_size] rows, or one row where [buffer_size] is below
    one; and in a statement of two rows or more, the estimated length of
    the column list and of all rows but the last is below the limit: only
    the last row of a statement can take the estimate to the limit or
    beyond. *)
Theorem buffered_layer_insert_within_limits
    (body : list (list Composable)) :
  exists batches,
    executed
      (buffered_layer_insert table_identifier columns buffer_size
         query_length_limit body)
    = map (insert_query table_identifier (column_identifiers_of columns))
        batches
    /\ concat batches = map row_of body
    /\ Forall
         (within_limits (column_identifiers_of columns) buffer_size
            query_length_limit)
         batches.
Proof.
  unfold buffered_layer_insert.
  destruct (buffered_insert_run table_identifier
              (column_identifiers_of columns) buffer_size query_length_limit
              body _ [] []
              (between_calls_start _ _ _ _))
    as [batches (Hexecuted & Hrows & _ & Hbounds & _ & Hopen & Hbefore)].
  simpl in Hrows.
  remember (fold_left _ body _) as st eqn:Hst. clear Hst.
  unfold _flush_layer_insert_buffer.
  destruct (buffer st) as [|q waiting] eqn:Hbuffer; simpl.
  - exists batches. rewrite app_nil_r in Hrows. now repeat split.
  - exists (batches ++ [q :: waiting]).
    split; [now rewrite map_app, Hexecuted|].
    split; [rewrite concat_app; simpl; now rewrite app_nil_r|].
    apply Forall_app. split; [exact Hbounds|].
    constructor; [|constructor].
    split; [|exact Hbefore].
    destruct Hopen as [Hsize _]; [discriminate|]. lia.
Qed.

End BufferedLayerInsert.

(** With a limit that the column list alone reaches, every row goes out
    in a statement of its own. *)
Example buffered_layer_insert_low_limit :
  Postgres.executed
    (Postgres.buffered_layer_insert (Postgres.Identifier "layer")
       Samples.layer_columns 10000 0 Samples.layer_rows)
  = map
      (fun values =>
         Postgres.insert_query (Postgres.Identifier "layer")
           (Postgres.column_identifiers_of Samples.layer_columns)
           [Postgres.row_of values])
      Samples.layer_rows.
Proof. reflexivity. Qed.

(** ** The layers that a selection fetches *)

Section Select.

Import Postgres.

Variable _structure : gmap string layer_struct.

Lemma include_dep_spec (depth : nat) :
  forall (layer : option string) (listed listed' : list string),
    include_dep depth _structure layer listed = inr listed' ->
    listed_well _structure listed ->
    listed_well _structure listed'
    /\ (exists added, listed' = listed ++ added)
    /\ (forall l, layer = Some l -> is_detached _structure l -> l ∈ listed')
    /\ (forall x, x ∈ listed' ->
          x ∈ listed
          \/ exists l, layer = Some l /\ is_detached _structure l
                       /\ rtc (dependency _structure) l x).
Proof.
  induction depth as [|depth IH]; intros layer listed listed' Hrun Hwell;
    simpl in Hrun; [discriminate|].
  destruct layer as [layer|].
  2:{ injection Hrun as <-. split; [exact Hwell|].
      split; [exists []; now rewrite app_nil_r|].
      split; [discriminate | now left]. }
  destruct (_structure !! layer) as [struct|] eqn:Hstruct; [|discriminate].
  destruct (detached struct) eqn:Hdetached; simpl in Hrun.
  2:{ injection Hrun as <-. split; [exact Hwell|].
      split; [exists []; now rewrite app_nil_r|].
      split; [|now left].
      intros l [= <-] (struct' & Hstruct' & Hdetached'). congruence. }
  destruct (include_dep depth _structure (parent struct) listed)
    as [e|listed1] eqn:Hparent; [discriminate|].
  destruct (include_dep depth _structure (enveloping struct) listed1)
    as [e|listed2] eqn:Henveloping; [discriminate|].
  destruct (IH _ _ _ Hparent Hwell)
    as (Hwell1 & [added1 Hadded1] & Hin1 & Hfrom1).
  destruct (IH _ _ _ Henveloping Hwell1)
    as (Hwell2 & [added2 Hadded2] & Hin2 & Hfrom2).
  assert (Hme : is_detached _structure layer) by (now exists struct).
  assert (Hdeps : forall dep, dependency _structure layer dep ->
                              dep ∈ listed2).
  { intros dep (struct' & dep_struct & Hstruct' & Hnamed & Hdep & Hdet).
    assert (struct' = struct) as -> by congruence.
    assert (Hdep' : is_detached _structure dep) by (now exists dep_struct).
    destruct Hnamed as [Hnamed|Hnamed].
    - rewrite Hadded2. apply elem_of_app. left. now apply Hin1.
    - now apply Hin2. }
  assert (Hfrom : forall x, x ∈ listed2 ->
            x ∈ listed
            \/ exists l, Some layer = Some l /\ is_detached _structure l
                         /\ rtc (dependency _structure) l x).
  { intros x Hx. destruct (Hfrom2 x Hx) as [Hx1|(dep & Hnamed & Hdep & Hrtc)].
    - destruct (Hfrom1 x Hx1) as [Hx0|(dep & Hnamed & Hdep & Hrtc)];
        [now left|].
      right. exists layer. split; [reflexivity|]. split; [exact Hme|].
      apply rtc_l with dep; [|exact Hrtc].
      destruct Hdep as (dep_struct & Hdep & Hdet).
      exists struct, dep_struct. now repeat split; [| left | |].
    - right. exists layer. split; [reflexivity|]. split; [exact Hme|].
      apply rtc_l with dep; [|exact Hrtc].
      destruct Hdep as (dep_struct & Hdep & Hdet).
      exists struct, dep_struct. now repeat split; [| right | |]. }
  destruct (bool_decide (layer ∈ listed2)) eqn:Hlisted;
    injection Hrun as <-.
  - apply bool_decide_eq_true in Hlisted.
    split; [exact Hwell2|].
    split; [exists (added1 ++ added2); now rewrite app_assoc, <- Hadded1|].
    split; [now intros l [= <-]|exact Hfrom].
  - apply bool_decide_eq_false in Hlisted.
    destruct Hwell2 as (Hnodup & Hall & Hfirst).
    split; [split; [|split]|].
    + apply NoDup_app. split; [exact Hnodup|].
      split; [|apply NoDup_singleton].
      intros x Hx Hx'. apply list_elem_of_singleton in Hx'. now subst x.
    + apply Forall_app. split; [exact Hall|]. now constructor.
    + intros i l dep Hi Hdep.
      destruct (decide (i < length listed2)%nat) as [Hlt|Hge].
      * rewrite lookup_app_l in Hi by exact Hlt.
        destruct (Hfirst i l dep Hi Hdep) as (j & Hj & Hat).
        exists j. split; [exact Hj|].
        now apply lookup_app_l_Some.
      * rewrite lookup_app_r in Hi by lia.
        apply list_lookup_singleton_Some in Hi as [Hi <-].
        apply Hdeps in Hdep.
        apply list_elem_of_lookup in Hdep as [j Hat].
        exists j. split; [apply lookup_lt_Some in Hat; lia|].
        now apply lookup_app_l_Some.
    + split;
        [exists (added1 ++ added2 ++ [layer]);
         now rewrite !app_assoc, <- Hadded1, <- Hadded2|].
      split.
      * intros l [= <-] _. apply elem_of_app. right. now left.
      * intros x Hx. apply elem_of_app in Hx as [Hx|Hx];
          [now apply Hfrom|].
        apply list_elem_of_singleton in Hx as ->.
        right. exists layer. now repeat split.
Qed.

Lemma include_layers_spec (depth : nat) (layers : list string) :
  forall (listed listed' : list string),
    include_layers depth _structure layers listed = inr listed' ->
    listed_well _structure listed ->
    listed_well _structure listed'
    /\ (exists added, listed' = listed ++ added)
    /\ (forall l, l ∈ layers -> is_detached _structure l -> l ∈ listed')
    /\ (forall x, x ∈ listed' ->
          x ∈ listed
          \/ exists l, l ∈ layers /\ is_detached _structure l
                       /\ rtc (dependency _structure) l x).
Proof.
  induction layers as [|layer layers IH]; intros listed listed' Hrun Hwell;
    simpl in Hrun.
  - injection Hrun as <-. split; [exact Hwell|].
    split; [exists []; now rewrite app_nil_r|].
    split; [intros l Hl; inversion Hl | now left].
  - destruct (_structure !! layer) as [struct|]; [|discriminate].
    destruct (include_dep depth _structure (Some layer) listed)
      as [e|listed1] eqn:Hone; [discriminate|].
    destruct (include_dep_spec _ _ _ _ Hone Hwell)
      as (Hwell1 & [added1 Hadded1] & Hin1 & Hfrom1).
    destruct (IH _ _ Hrun Hwell1)
      as (Hwell' & [added Hadded] & Hin & Hfrom).
    split; [exact Hwell'|].
    split; [exists (added1 ++ added); now rewrite app_assoc, <- Hadded1|].
    split.
    + intros l Hl Hdetached. apply elem_of_cons in Hl as [->|Hl].
      * rewrite Hadded. apply elem_of_app. left. now apply Hin1.
      * now apply Hin.
    + intros x Hx. destruct (Hfrom x Hx) as [Hx1|(l & Hl & Hrest)].
      * destruct (Hfrom1 x Hx1) as [Hx0|(l & [= <-] & Hrest)]; [now left|].
        right. exists layer. split; [now left | exact Hrest].
      * right. exists l. split; [now right | exact Hrest].
Qed.

Lemma listed_well_nil : listed_well _structure [].
Proof.
  split; [constructor|]. split; [constructor|].
  intros i layer dep Hi. discriminate.
Qed.

(** X22. When [select] gets as far as its query, the layers it fetches
    are, each once, the detached layers among those requested together
    with the detached layers these depend on, through parents and
    enveloped layers, in any number of steps; and no other layer. *)
Theorem layers_extended_closure (depth : nat) (layers result : list string) :
  layers_extended depth (Some _structure) (Some layers) = inr result ->
  NoDup result
  /\ forall x,
       x ∈ result
       <-> exists l, l ∈ layers /\ is_detached _structure l
                    /\ rtc (dependency _structure) l x.
Proof.
  intros Hrun.
  assert (Hloop : include_layers depth _structure layers [] = inr result).
  { destruct layers; [|exact Hrun]. injection Hrun as <-. reflexivity. }
  destruct (include_layers_spec _ _ _ _ Hloop listed_well_nil)
    as ((Hnodup & _ & Hfirst) & _ & Hin & Hfrom).
  split; [exact Hnodup|].
  intros x. split.
  - intros Hx. destruct (Hfrom x Hx) as [Hnil|Hl]; [inversion Hnil|exact Hl].
  - intros (l & Hl & Hdetached & Hrtc).
    assert (Hstart : l ∈ result) by (now apply Hin).
    clear Hl Hdetached. induction Hrtc as [l|l y x Hstep _ IH];
      [exact Hstart|].
    apply IH.
    apply list_elem_of_lookup in Hstart as [i Hi].
    destruct (Hfirst i l y Hi Hstep) as (j & _ & Hj).
    apply list_elem_of_lookup. now exists j.
Qed.

(** X23. In the list of layers that [select] fetches, every layer comes
    after the detached layers that its entry names as parent or as
    enveloped layer. *)
Theorem layers_extended_dependencies_first (depth : nat)
    (layers result : list string) :
  layers_extended depth (Some _structure) (Some layers) = inr result ->
  dependencies_first _structure result.
Proof.
  intros Hrun.
  assert (Hloop : include_layers depth _structure layers [] = inr result).
  { destruct layers; [|exact Hrun]. injection Hrun as <-. reflexivity. }
  destruct (include_layers_spec _ _ _ _ Hloop listed_well_nil)
    as ((_ & _ & Hfirst) & _).
  exact Hfirst.
Qed.

Lemma include_dep_bounded (depth : nat) :
  forall (l : string) (listed listed' : list string),
    include_dep depth _structure (Some l) listed = inr listed' ->
    is_detached _structure l ->
    forall n y, nsteps (dependency _structure) n l y -> (n < depth)%nat.
Proof.
  induction depth as [|depth IH]; intros l listed listed' Hrun Hdetached;
    simpl in Hrun; [discriminate|].
  destruct Hdetached as (struct & Hstruct & Hdetached).
  rewrite Hstruct, Hdetached in Hrun. simpl in Hrun.
  destruct (include_dep depth _structure (parent struct) listed)
    as [e|listed1] eqn:Hparent; [discriminate|].
  destruct (include_dep depth _structure (enveloping struct) listed1)
    as [e|listed2] eqn:Henveloping; [discriminate|].
  intros n y Hpath. inversion Hpath as [|n' ? z ? Hstep Hrest]; subst; [lia|].
  destruct Hstep as (struct' & dep_struct & Hstruct' & Hnamed & Hdep & Hdet).
  assert (struct' = struct) as -> by congruence.
  assert (Hz : is_detached _structure z) by (now exists dep_struct).
  destruct Hnamed as [Hnamed|Hnamed].
  - rewrite Hnamed in Hparent.
    specialize (IH _ _ _ Hparent Hz _ _ Hrest). lia.
  - rewrite Hnamed in Henveloping.
    specialize (IH _ _ _ Henveloping Hz _ _ Hrest). lia.
Qed.

Lemma include_layers_each (depth : nat) (layers : list string) :
  forall (listed listed' : list string),
    include_layers depth _structure layers listed = inr listed' ->
    forall l, l ∈ layers ->
      exists before after,
        include_dep depth _structure (Some l) before = inr after.
Proof.
  induction layers as [|layer layers IH]; intros listed listed' Hrun l Hl;
    simpl in Hrun; [inversion Hl|].
  destruct (_structure !! layer) as [struct|]; [|discriminate].
  destruct (include_dep depth _structure (Some layer) listed)
    as [e|listed1] eqn:Hone; [discriminate|].
  apply elem_of_cons in Hl as [->|Hl]; [now exists listed, listed1|].
  now apply (IH _ _ Hrun).
Qed.

Lemma nsteps_round {A} (R : relation A) (x : A) (m : nat) :
  nsteps R m x x -> forall k, nsteps R (k * m) x x.
Proof.
  intros Hround k. induction k as [|k IH]; simpl; [constructor|].
  now apply nsteps_trans with x.
Qed.

(** X24. When [select] gets as far as its query, no layer that it
    fetches lies on a circle of dependencies: none of them depends on
    itself, in any number of steps. *)
Theorem layers_extended_no_circle (depth : nat)
    (layers result : list string) :
  layers_extended depth (Some _structure) (Some layers) = inr result ->
  forall x, x ∈ result -> ~ tc (dependency _structure) x x.
Proof.
  intros Hrun x Hx Hcircle.
  assert (Hloop : include_layers depth _structure layers [] = inr result).
  { destruct layers; [|exact Hrun]. injection Hrun as <-. reflexivity. }
  destruct (include_layers_spec _ _ _ _ Hloop listed_well_nil)
    as (_ & _ & _ & Hfrom).
  destruct (Hfrom x Hx) as [Hnil|(l & Hl & Hdetached & Hreach)];
    [inversion Hnil|].
  destruct (include_layers_each _ _ _ _ Hloop l Hl)
    as (before & after & Hone).
  apply rtc_nsteps in Hreach as [k Hreach].
  apply tc_nsteps in Hcircle as (m & Hm & Hround).
  pose proof (nsteps_round _ _ _ Hround depth) as Hrounds.
  pose proof (nsteps_trans _ _ _ _ _ Hreach Hrounds) as Hlong.
  apply (include_dep_bounded _ _ _ _ Hone Hdetached) in Hlong.
  nia.
Qed.

Variable rank : string -> nat.
Hypothesis structure_ranked : ranked rank _structure.

Lemma include_dep_returns (depth : nat) :
  forall (layer : option string) (listed : list string),
    (1 <= depth)%nat ->
    (forall l, layer = Some l -> within_depth rank _structure depth l = true)
    ->
    exists listed', include_dep depth _structure layer listed = inr listed'.
Proof.
  induction depth as [|depth IH]; intros layer listed Hdepth Hlayer; [lia|].
  simpl. destruct layer as [layer|]; [|now exists listed].
  specialize (Hlayer layer eq_refl). unfold within_depth in Hlayer.
  destruct (_structure !! layer) as [struct|] eqn:Hstruct; [|discriminate].
  destruct (detached struct) eqn:Hdetached; cbn [negb];
    [|now exists listed].
  apply Nat.leb_le in Hlayer.
  destruct (structure_ranked layer struct Hstruct Hdetached)
    as [Hparent Henveloping].
  assert (Hdep : forall dep,
            dependency_ranked rank _structure layer dep = true ->
            forall l, dep = Some l ->
                      within_depth rank _structure depth l = true).
  { intros dep Hranked l ->. unfold dependency_ranked in Hranked.
    unfold within_depth.
    destruct (_structure !! l) as [dep_struct|]; [|discriminate].
    destruct (detached dep_struct); simpl in Hranked.
    - apply Nat.ltb_lt in Hranked. apply Nat.leb_le. lia.
    - apply Nat.leb_le. lia. }
  destruct (IH (parent struct) listed) as [listed1 ->];
    [lia | now apply Hdep |].
  destruct (IH (enveloping struct) listed1) as [listed2 ->];
    [lia | now apply Hdep |].
  eauto.
Qed.

(** X25. [select] gets as far as its query when every requested layer
    is in the structure, every dependency that the entry of a detached
    layer names is in the structure too, the dependencies between
    detached layers run down some ranking of the layers (so that they do
    not go round in a circle), and the recursion has room for one call
    for a requested layer that is not detached and for two calls more
    than its rank for one that is. *)
Theorem layers_extended_returns (depth : nat) (layers : list string) :
  forallb (within_depth rank _structure depth) layers = true ->
  exists result,
    layers_extended depth (Some _structure) (Some layers) = inr result.
Proof.
  intros Hlayers.
  enough (Hloop : forall listed,
            exists result,
              include_layers depth _structure layers listed = inr result).
  { destruct layers; [now exists []|]. apply Hloop. }
  induction layers as [|layer layers IH]; intros listed; simpl;
    [now exists listed|].
  simpl in Hlayers. apply andb_true_iff in Hlayers as [Hlayer Hlayers].
  assert (Hdepth : (1 <= depth)%nat).
  { unfold within_depth in Hlayer.
    destruct (_structure !! layer) as [struct|]; [|discriminate].
    destruct (detached struct); apply Nat.leb_le in Hlayer; lia. }
  destruct (include_dep_returns depth (Some layer) listed Hdepth)
    as [listed1 Hone].
  { now intros l [= <-]. }
  unfold within_depth in Hlayer.
  destruct (_structure !! layer) as [struct|]; [|discriminate].
  simpl in Hone. rewrite Hone. now apply IH.
Qed.

End Select.

Lemma layers_extended_closure_witness :
  NoDup ["sentences"%string; "paragraphs"%string; "morph"%string]
  /\ ("sentences"%string
        ∈ ["sentences"%string; "paragraphs"%string; "morph"%string]
      <-> exists l,
            l ∈ ["paragraphs"%string; "morph"%string; "words"%string]
            /\ Postgres.is_detached Samples.structure l
            /\ rtc (Postgres.dependency Samples.structure) l
                 "sentences"%string).
Proof.
  destruct (layers_extended_closure Samples.structure 3
              ["paragraphs"%string; "morph"%string; "words"%string]
              ["sentences"%string; "paragraphs"%string; "morph"%string])
    as [Hnodup Hclosure].
  - vm_compute. reflexivity.
  - split; [exact Hnodup | exact (Hclosure "sentences"%string)].
Defined.

Lemma layers_extended_dependencies_first_witness :
  exists j,
    (j < 2)%nat
    /\ ["morph"%string; "sentences"%string; "paragraphs"%string] !! j
       = Some "sentences"%string.
Proof.
  apply (layers_extended_dependencies_first Samples.structure 3
           ["morph"%string; "paragraphs"%string; "morph"%string]
           ["morph"%string; "sentences"%string; "paragraphs"%string]
           ltac:(vm_compute; reflexivity)
           2%nat "paragraphs"%string "sentences"%string).
  - reflexivity.
  - exists (Postgres.mkStruct true [] false
              None (Some "sentences"%string) (Some "words"%string) None),
           (Postgres.mkStruct true [] false
              None (Some "words"%string) (Some "words"%string) None).
    split; [vm_compute; reflexivity|].
    split; [right; reflexivity|].
    split; [vm_compute; reflexivity | reflexivity].
Defined.

Lemma layers_extended_no_circle_witness :
  Postgres.layers_extended 3 (Some Samples.structure)
    (Some ["paragraphs"%string])
  = inr ["sentences"%string; "paragraphs"%string]
  /\ ~ tc (Postgres.dependency Samples.structure)
        "paragraphs"%string "paragraphs"%string.
Proof.
  assert (Hrun : Postgres.layers_extended 3 (Some Samples.structure)
                   (Some ["paragraphs"%string])
                 = inr ["sentences"%string; "paragraphs"%string])
    by (vm_compute; reflexivity).
  split; [exact Hrun|].
  apply (layers_extended_no_circle Samples.structure 3
           ["paragraphs"%string]
           ["sentences"%string; "paragraphs"%string] Hrun).
  right. left.
Defined.

Lemma layers_extended_returns_witness :
  exists result,
    Postgres.layers_extended 3 (Some Samples.structure)
      (Some ["paragraphs"%string; "morph"%string; "words"%string])
    = inr result.
Proof.
  apply (layers_extended_returns Samples.structure Samples.structure_rank).
  - unfold Postgres.ranked. apply (bool_decide_unpack _).
    vm_compute. exact I.
  - vm_compute. reflexivity.
Defined.

(** Two detached layers that name each other stop [select], however
    deep the recursion may go. *)
Example layers_extended_circle (depth : nat) :
  Postgres.layers_extended depth (Some Samples.circle)
    (Some ["a"%string])
  = inl Postgres.RecursionError.
Proof.
  assert (Ha : Samples.circle !! "a"%string
               = Some (Postgres.mkStruct true [] false
                         (Some "b"%string) None None None))
    by (vm_compute; reflexivity).
  assert (Hb : Samples.circle !! "b"%string
               = Some (Postgres.mkStruct true [] false
                         (Some "a"%string) None None None))
    by (vm_compute; reflexivity).
  enough (Hboth : forall listed,
            Postgres.include_dep depth Samples.circle (Some "a"%string)
              listed = inl Postgres.RecursionError
            /\ Postgres.include_dep depth Samples.circle (Some "b"%string)
                 listed = inl Postgres.RecursionError).
  { cbn [Postgres.layers_extended Postgres.include_layers].
    rewrite Ha. now rewrite (proj1 (Hboth [])). }
  induction depth as [|depth IH]; intros listed;
    cbn [Postgres.include_dep]; [now split|].
  rewrite Ha, Hb.
  cbn [Postgres.detached Postgres.parent Postgres.enveloping negb].
  rewrite (proj1 (IH listed)), (proj2 (IH listed)). now split.
Qed.
